(** * Path rendering and requirements traceability (autospec)

    A shallow embedding of [src/autospec/path_cleanup.py] and
    [src/autospec/merge_requirements.py].

    - Python [str] values are Rocq strings whose characters are the code
      points U+0000..U+00FF.  Whitespace and letter case are Python's on
      that range ([str.isspace], [str.isupper], [str.lower],
      [str.capitalize]).  Two characters have a title-case form outside the
      range; a string that is capitalized with one of them in front is
      outside the model (see [PyStr.title_in_range]).
    - JSON numbers are integers ([Z]); floating-point numbers are outside
      the model.
    - A Python exception is a value [Raise e] of the [result] type.
    - [path_cleanup.py] never mutates its arguments, so it is embedded over
      JSON trees.  [merge_requirements.py] mutates step objects in place, so
      it is embedded over a store of objects addressed by location. *)

From Stdlib Require Import ZArith String Ascii List Bool Lia.
From stdpp Require Import gmap strings list pretty.

Local Open Scope string_scope.
Local Open Scope list_scope.

(** ** Exceptions *)

Inductive exn := AttributeError | TypeError | KeyError | IndexError.

Inductive result (A : Type) :=
| Ok (a : A)
| Raise (e : exn).
Arguments Ok {A} a.
Arguments Raise {A} e.

(** Sequencing: an exception aborts the rest. *)
Definition bind {A B} (r : result A) (k : A → result B) : result B :=
  match r with
  | Ok a => k a
  | Raise e => Raise e
  end.

Notation "'let!' x ':=' r 'in' k" := (bind r (fun x => k))
  (at level 10, x name, r at level 100, k at level 200,
   format "'[v' 'let!'  x  ':='  r  'in'  '/' k ']'").

Definition raises {A} (r : result A) : Prop := ∃ e, r = Raise e.

(** ** Python string methods *)

Module PyStr.

(** [str.isspace] on U+0000..U+00FF: TAB..CR, FS..US, SPACE, NEL, NBSP. *)
Definition is_space (c : ascii) : bool :=
  let n := nat_of_ascii c in
  (((9 <=? n) && (n <=? 13)) || ((28 <=? n) && (n <=? 32))
   || (n =? 133) || (n =? 160))%nat.

Fixpoint lstrip_with (p : ascii → bool) (s : string) : string :=
  match s with
  | String c r => if p c then lstrip_with p r else s
  | EmptyString => EmptyString
  end.

Fixpoint rstrip_with (p : ascii → bool) (s : string) : string :=
  match s with
  | EmptyString => EmptyString
  | String c r =>
      match rstrip_with p r with
      | EmptyString => if p c then EmptyString else String c EmptyString
      | r' => String c r'
      end
  end.

(** [s.strip()] *)
Definition strip (s : string) : string :=
  rstrip_with is_space (lstrip_with is_space s).

(** [s.rstrip(chars)]: every trailing character that occurs in [chars]. *)
Definition rstrip (chars s : string) : string :=
  rstrip_with (fun c => bool_decide (c ∈ list_ascii_of_string chars)) s.

(** [s.startswith(p)] *)
Definition startswith (p s : string) : bool := String.prefix p s.

(** [sub in s] *)
Fixpoint contains (sub s : string) : bool :=
  String.prefix sub s ||
  match s with
  | String _ r => contains sub r
  | EmptyString => false
  end.

(** [sep.join(l)] *)
Definition join (sep : string) (l : list string) : string :=
  String.concat sep l.

Definition cons_head (c : ascii) (l : list string) : list string :=
  match l with
  | h :: t => String c h :: t
  | [] => [String c EmptyString]
  end.

(** [s.split(sep)] for a one-character separator. *)
Fixpoint split (sep : ascii) (s : string) : list string :=
  match s with
  | EmptyString => [EmptyString]
  | String c r =>
      if Ascii.eqb c sep then EmptyString :: split sep r
      else cons_head c (split sep r)
  end.

(** The class [[A-Z]] of a regular expression. *)
Definition is_AZ (c : ascii) : bool :=
  let n := nat_of_ascii c in ((65 <=? n) && (n <=? 90))%nat.

(** The letters with a case on U+0000..U+00FF.  Upper case: [A-Z] and
    U+00C0..U+00DE without the multiplication sign U+00D7.  Their
    lower-case forms lie 32 code points higher: [a-z] and U+00E0..U+00FE
    without the division sign U+00F7. *)
Definition is_upper (c : ascii) : bool :=
  let n := nat_of_ascii c in
  (((65 <=? n) && (n <=? 90))
   || ((192 <=? n) && (n <=? 222) && negb (n =? 215)))%nat.
Definition is_lower (c : ascii) : bool :=
  let n := nat_of_ascii c in
  (((97 <=? n) && (n <=? 122))
   || ((224 <=? n) && (n <=? 254) && negb (n =? 247)))%nat.

Definition lower_char (c : ascii) : ascii :=
  if is_upper c then ascii_of_nat (nat_of_ascii c + 32) else c.

(** The title-case form of a character, as [str.capitalize] gives it to
    the first character of a string (Python 3.8 and later): the upper-case
    form of a lower-case letter, and [Ss] for the sharp s U+00DF.  The
    title-case forms of the micro sign U+00B5 and of the y with diaeresis
    U+00FF are U+039C and U+0178, outside U+0000..U+00FF: here the two
    characters are left as they are, and [title_in_range] excludes them. *)
Definition title_char (c : ascii) : string :=
  if is_lower c then String (ascii_of_nat (nat_of_ascii c - 32)) EmptyString
  else if (nat_of_ascii c =? 223)%nat then "Ss"
  else String c EmptyString.

Definition title_in_range (c : ascii) : bool :=
  let n := nat_of_ascii c in negb ((n =? 181) || (n =? 255))%nat.

Fixpoint map_chars (f : ascii → ascii) (s : string) : string :=
  match s with
  | EmptyString => EmptyString
  | String c r => String (f c) (map_chars f r)
  end.

(** [s.lower()] *)
Definition lower (s : string) : string := map_chars lower_char s.

(** [s.capitalize()]: the first character in title case, the rest in lower
    case. *)
Definition capitalize (s : string) : string :=
  match s with
  | EmptyString => EmptyString
  | String c r => title_char c +:+ lower r
  end.

(** [c.isupper()] for one character. *)
Definition isupper (c : ascii) : bool := is_upper c.

(** [re.split(r"(?<!^)(?=[A-Z])", s)]: cut before every [A-Z] that is not
    at position 0. *)
Fixpoint camel_tail (s : string) : list string :=
  match s with
  | EmptyString => [EmptyString]
  | String c r =>
      if is_AZ c then EmptyString :: cons_head c (camel_tail r)
      else cons_head c (camel_tail r)
  end.

Definition camel_split (s : string) : list string :=
  match s with
  | EmptyString => [EmptyString]
  | String c r => cons_head c (camel_tail r)
  end.

Definition nonempty (s : string) : bool :=
  match s with EmptyString => false | _ => true end.

Definition hex_digit (n : nat) : ascii :=
  match n return ascii with
  | 0 => "0" | 1 => "1" | 2 => "2" | 3 => "3" | 4 => "4" | 5 => "5"
  | 6 => "6" | 7 => "7" | 8 => "8" | 9 => "9" | 10 => "a" | 11 => "b"
  | 12 => "c" | 13 => "d" | 14 => "e" | _ => "f"
  end%char.

(** One character of [repr(s)] with [q] the chosen quote. *)
Definition repr_char (q c : ascii) : string :=
  let n := nat_of_ascii c in
  if Ascii.eqb c "\"%char then "\\"
  else if Ascii.eqb c q then String "\"%char (String q EmptyString)
  else if (n =? 9)%nat then "\t"
  else if (n =? 10)%nat then "\n"
  else if (n =? 13)%nat then "\r"
  else if ((n <? 32) || ((127 <=? n) && (n <=? 160)) || (n =? 173))%nat then
    String "\"%char (String "x"%char
      (String (hex_digit (n / 16)) (String (hex_digit (n mod 16)) EmptyString)))
  else String c EmptyString.

Fixpoint concat_map_chars (f : ascii → string) (s : string) : string :=
  match s with
  | EmptyString => EmptyString
  | String c r => f c +:+ concat_map_chars f r
  end.

Definition squote : ascii := "'"%char.
Definition dquote : ascii := ascii_of_nat 34.

(** [repr(s)]: single quotes unless [s] has a single quote and no double
    quote. *)
Definition repr (s : string) : string :=
  let l := list_ascii_of_string s in
  let q := if bool_decide (squote ∈ l) && negb (bool_decide (dquote ∈ l))
           then dquote else squote in
  String q (concat_map_chars (repr_char q) s +:+ String q EmptyString).

End PyStr.

(** ** JSON values, as [json.load] builds them *)

#[warnings="-register-all"]
Inductive json :=
| JNull
| JBool (b : bool)
| JInt (z : Z)
| JStr (s : string)
| JList (l : list json)
| JObj (d : list (string * json)).

(** A Python [dict] with string keys, in insertion order; a key is bound
    once, and lookup takes its binding. *)
Abbreviation pydict := (list (string * json)).

Fixpoint dict_get (d : pydict) (k : string) : option json :=
  match d with
  | [] => None
  | (k', v) :: r => if String.eqb k' k then Some v else dict_get r k
  end.

(** [bool(v)] *)
Definition truthy (v : json) : bool :=
  match v with
  | JNull => false
  | JBool b => b
  | JInt z => negb (z =? 0)%Z
  | JStr s => PyStr.nonempty s
  | JList l => match l with [] => false | _ => true end
  | JObj d => match d with [] => false | _ => true end
  end.

(** [repr(v)] and [str(v)] *)
Fixpoint py_repr (v : json) : string :=
  match v with
  | JNull => "None"
  | JBool true => "True"
  | JBool false => "False"
  | JInt z => pretty z
  | JStr s => PyStr.repr s
  | JList l => "[" +:+ PyStr.join ", " (List.map py_repr l) +:+ "]"
  | JObj d =>
      "{" +:+ PyStr.join ", "
                (List.map (fun kv => PyStr.repr (fst kv) +:+ ": " +:+ py_repr (snd kv)) d)
          +:+ "}"
  end.

Definition py_str (v : json) : string :=
  match v with
  | JStr s => s
  | _ => py_repr v
  end.

Example py_str_example :
  py_str (JList [JInt 1; JStr "a"; JNull; JBool true; JObj [("k", JList [JInt (-2)])]])
  = "[1, 'a', None, True, {'k': [-2]}]".
Proof. vm_compute. reflexivity. Qed.

Definition chars_of (s : string) : list json :=
  List.map (fun c => JStr (String c EmptyString)) (list_ascii_of_string s).

(** The elements a [for x in v] loop visits; numbers, booleans and [None]
    are not iterable. *)
Definition py_iter (v : json) : result (list json) :=
  match v with
  | JList l => Ok l
  | JStr s => Ok (chars_of s)
  | JObj d => Ok (List.map (fun kv => JStr (fst kv)) d)
  | _ => Raise TypeError
  end.

(** [v.get(k, default)]: only a dict has the method. *)
Definition get_method (v : json) (k : string) (default : json) : result json :=
  match v with
  | JObj d => Ok (match dict_get d k with Some x => x | None => default end)
  | _ => Raise AttributeError
  end.

(** [v[k]] for a string key [k]. *)
Definition getitem (v : json) (k : string) : result json :=
  match v with
  | JObj d => match dict_get d k with Some x => Ok x | None => Raise KeyError end
  | _ => Raise TypeError
  end.

(** [v.startswith(p)]: only a [str] has the method. *)
Definition startswith_method (v : json) (p : string) : result bool :=
  match v with
  | JStr s => Ok (PyStr.startswith p s)
  | _ => Raise AttributeError
  end.

Definition is_obj (v : json) : Prop :=
  match v with JObj _ => True | _ => False end.

#[global] Instance is_obj_dec v : Decision (is_obj v).
Proof. destruct v; simpl; apply _. Defined.

(** * path_cleanup.py *)

Module PathCleanup.

(** ** Utilities: classification *)

Definition _is_edge (step : json) : result bool :=
  let! name := get_method step "name" (JStr "") in
  startswith_method name "e_".

Definition _is_vertex (step : json) : result bool :=
  let! name := get_method step "name" (JStr "") in
  startswith_method name "v_".

(** The three vertex scans of the module ([next(... for s in path ...)],
    the backward loop and the forward loop) visit a sequence of steps and
    stop at the first vertex. *)
Fixpoint scan_vertex (l : list json) : result (option json) :=
  match l with
  | [] => Ok None
  | s :: r => let! b := _is_vertex s in if b then Ok (Some s) else scan_vertex r
  end.

(** [for j in range(idx - 1, -1, -1)]: the scan starts at [path[idx - 1]],
    which does not exist when [idx] is beyond the length of the path. *)
Definition _find_prev_vertex (path : list json) (idx : nat) : result (option json) :=
  if (length path <? idx)%nat then Raise IndexError
  else scan_vertex (rev (take idx path)).

(** [for j in range(idx + 1, len(path))] *)
Definition _find_next_vertex (path : list json) (idx : nat) : result (option json) :=
  scan_vertex (drop (S idx) path).

(** ** dedupe_cases *)

Abbreviation case_key := (string * list string)%type.

Definition key_of_case (case : json) : result case_key :=
  let! name := get_method case "name" (JStr "") in
  let! steps := get_method case "steps" (JList []) in
  let steps :=
    match steps with
    | JList l => List.map py_str l
    | _ => [py_str steps]
    end in
  Ok (py_str name, steps).

Fixpoint dedupe_loop (cases : list json) (seen : gset case_key)
    (unique : list json) : result (list json) :=
  match cases with
  | [] => Ok unique
  | case :: rest =>
      let! key := key_of_case case in
      if bool_decide (key ∈ seen) then dedupe_loop rest seen unique
      else dedupe_loop rest ({[key]} ∪ seen) (unique ++ [case])
  end.

Definition dedupe_cases (cases : list json) : result (list json) :=
  dedupe_loop cases ∅ [].

(** ** Utilities: text building *)

(** What one entry [r] of a requirements list adds to [raw]. *)
Definition requirement_parts (r : json) : list string :=
  match r with
  | JNull => []
  | JStr s =>
      List.filter PyStr.nonempty (List.map PyStr.strip (PyStr.split "," s))
  | _ => [PyStr.strip (py_str r)]
  end.

Fixpoint unique_loop (raw : list string) (seen : gset string)
    (result : list string) : list string :=
  match raw with
  | [] => result
  | r :: rest =>
      if PyStr.nonempty r && negb (bool_decide (r ∈ seen))
      then unique_loop rest ({[r]} ∪ seen) (result ++ [r])
      else unique_loop rest seen result
  end.

Fixpoint collect_raw (sources : list (option json)) (raw : list string)
    : result (list string) :=
  match sources with
  | [] => Ok raw
  | None :: rest => collect_raw rest raw
  | Some src :: rest =>
      if negb (truthy src) then collect_raw rest raw
      else
        let! got := get_method src "requirements" JNull in
        let reqs := if truthy got then got else JList [] in
        let reqs := match reqs with JList l => l | _ => [reqs] end in
        collect_raw rest (raw ++ List.concat (List.map requirement_parts reqs))
  end.

Definition _normalise_requirements (sources : list (option json))
    : result (list string) :=
  let! raw := collect_raw sources [] in
  Ok (unique_loop raw ∅ []).

Fixpoint actions_loop (actions : list json) (parts : list string) : list string :=
  match actions with
  | [] => parts
  | JStr act :: rest =>
      let cleaned := PyStr.rstrip ";" (PyStr.strip act) in
      if negb (PyStr.nonempty cleaned) then actions_loop rest parts
      else if PyStr.contains "JsonContext" cleaned then actions_loop rest parts
      else actions_loop rest (parts ++ [cleaned])
  | _ :: rest => actions_loop rest parts
  end.

Definition _summarise_actions (step : json) : result string :=
  let! got := get_method step "actions" JNull in
  let! actions := py_iter (if truthy got then got else JList []) in
  let parts := actions_loop actions [] in
  Ok (match parts with [] => "None" | _ => PyStr.join ", " parts end).

(** ** Core: build human strings *)

Definition string_drop (n : nat) (s : string) : string :=
  String.substring n (String.length s - n) s.

Definition words_of_segment (seg : string) : list string :=
  List.map PyStr.capitalize
    (List.filter PyStr.nonempty (List.map PyStr.strip (PyStr.camel_split seg))).

Definition _format_vertex_description (raw_name : string) : string :=
  let name :=
    if PyStr.startswith "v_" raw_name then string_drop 2 raw_name
    else if PyStr.startswith "v" raw_name
            && (1 <? String.length raw_name)%nat
            && match String.get 1 raw_name with
               | Some c => PyStr.isupper c
               | None => false
               end
         then string_drop 1 raw_name
         else raw_name in
  let segments := List.filter PyStr.nonempty (PyStr.split "_" name) in
  let words := List.concat (List.map words_of_segment segments) in
  match words with
  | [] => raw_name
  | _ => PyStr.join " " words
  end.

Definition _format_edge_description (raw_name : string) : string :=
  let name :=
    if PyStr.startswith "e_" raw_name then string_drop 2 raw_name
    else raw_name in
  let parts := List.filter PyStr.nonempty (PyStr.split "_" name) in
  match parts with
  | [] => raw_name
  | first :: rest =>
      PyStr.join " " (PyStr.capitalize first :: List.map PyStr.lower rest)
  end.

(** A value used as the [raw_name] of a formatter must be a [str]: the
    first thing either formatter does is call [startswith] on it. *)
Definition as_name (v : json) : result string :=
  match v with
  | JStr s => Ok s
  | _ => Raise AttributeError
  end.

(** [a or b] on optional steps. *)
Definition or_else (a b : option json) : option json :=
  match a with
  | Some v => if truthy v then a else b
  | None => b
  end.

Definition step_label (n : nat) : string :=
  "Step [" +:+ pretty (Z.of_nat n) +:+ "] ".

(** The body of the edge loop for the edge [step] at index [idx], with
    [step_num] already incremented. *)
Definition edge_line (path : list json) (idx : nat) (step : json)
    (step_num : nat) : result string :=
  let! prev_vertex := _find_prev_vertex path idx in
  let! next_vertex := _find_next_vertex path idx in
  let target_vertex := or_else next_vertex prev_vertex in
 let! target_name :=
    match target_vertex with
    | Some v =>
        if truthy v then
          let! n := getitem v "name" in let! s := as_name n in
          Ok (_format_vertex_description s)
        else Ok "<no vertex>"
    | None => Ok "<no vertex>"
    end in
  let! changed := _summarise_actions step in
  let! reqs := _normalise_requirements [Some step; target_vertex] in
  let req_part :=
    match reqs with
    | [] => ""
    | _ => " -> meets requirements: " +:+ PyStr.join ", " reqs
    end in
  let! n := getitem step "name" in let! s := as_name n in
  let human_edge := _format_edge_description s in
  Ok (step_label step_num +:+ human_edge
      +:+ " -> results in " +:+ target_name +:+ " with data"
      +:+ " -> changed: " +:+ changed
      +:+ req_part).

(** [for idx, step in enumerate(path)], from index [idx] on. *)
Fixpoint edge_loop (path : list json) (idx : nat) (todo : list json)
    (step_num : nat) (lines : list string) : result (nat * list string) :=
  match todo with
  | [] => Ok (step_num, lines)
  | step :: rest =>
      let! b := _is_edge step in
      if negb b then edge_loop path (S idx) rest step_num lines
      else
        let step_num := S step_num in
        let! line := edge_line path idx step step_num in
        edge_loop path (S idx) rest step_num (lines ++ [line])
  end.

Definition build_step_strings_for_path (path : list json) : result (list string) :=
  let! first_vertex := scan_vertex path in
  let step_num := match first_vertex with Some _ => 1 | None => 0 end in
  let lines :=
    match first_vertex with
    | Some _ => ["Step [1] START TEST"]
    | None => []
    end in
  let! walked := edge_loop path 0 path step_num lines in
  let step_num := fst walked in
  let lines := snd walked in
  Ok (lines ++ [step_label (S step_num) +:+ "END TEST"]).

(** ** split_path *)

Definition is_start (start_name : string) (start_id : option string)
    (step : json) : result bool :=
  match start_id with
  | Some sid =>
      if PyStr.nonempty sid then
        let! got := get_method step "id" JNull in
        Ok (match got with JStr s => String.eqb s sid | _ => false end)
      else
        let! got := get_method step "name" JNull in
        Ok (match got with JStr s => String.eqb s start_name | _ => false end)
  | None =>
      let! got := get_method step "name" JNull in
      Ok (match got with JStr s => String.eqb s start_name | _ => false end)
  end.

Fixpoint split_loop (start_name : string) (start_id : option string)
    (steps : list json) (paths : list (list json)) (current : list json)
    : result (list (list json)) :=
  match steps with
  | [] => Ok (match current with [] => paths | _ => paths ++ [current] end)
  | step :: rest =>
      let! b := is_start start_name start_id step in
      if b then
        match current with
        | [] => split_loop start_name start_id rest paths [step]
        | _ => split_loop start_name start_id rest (paths ++ [current]) [step]
        end
      else split_loop start_name start_id rest paths (current ++ [step])
  end.

Definition split_path (steps : list json) (start_name : string)
    (start_id : option string) : result (list (list json)) :=
  match steps with
  | [] => Ok []
  | _ => split_loop start_name start_id steps [] []
  end.

(** ** Flattening and packaging *)

(** [build_step_strings_for_path(path)] for an arbitrary value [path]: the
    function iterates its argument (a string yields its characters, a dict
    its keys). *)
Definition build_step_strings (path : json) : result (list string) :=
  let! steps := py_iter path in
  build_step_strings_for_path steps.

Fixpoint step_strings_loop (paths : list json) (all_lines : list string)
    : result (list string) :=
  match paths with
  | [] => Ok all_lines
  | path :: rest =>
      let! lines := build_step_strings path in
      step_strings_loop rest (all_lines ++ lines)
  end.

Definition paths_to_step_strings (paths : list json) : result (list string) :=
  step_strings_loop paths [].

(** [{"name": "", "steps": steps}] *)
Definition case_of (steps : list string) : json :=
  JObj [("name", JStr ""); ("steps", JList (List.map JStr steps))].

Fixpoint cases_loop (paths : list json) (cases : list json) : result (list json) :=
  match paths with
  | [] => Ok cases
  | path :: rest =>
      let! steps := build_step_strings path in
      cases_loop rest (cases ++ [case_of steps])
  end.

Definition paths_to_cases (paths : list json) : result (list json) :=
  cases_loop paths [].

(** ** The describe mode of [main]

    What [main] writes in describe mode, as a function of the value it has
    loaded; argument parsing and the two files are left out. *)

(** The paths [main] hands to [paths_to_cases], as the sequence the loop
    over them visits.  [data[0]] is only evaluated for a truthy [data]: on
    a dict it raises [KeyError] (no key is [0]), on a number or [True] it
    raises [TypeError]. *)
Definition describe_paths (data : json) : result (list json) :=
  if negb (truthy data) then Ok []
  else
    match data with
    | JList (first :: _) =>
        match first with
        | JObj _ => Ok [data]
        | _ => py_iter data
        end
    | JStr _ => py_iter data
    | JObj _ => Raise KeyError
    | _ => Raise TypeError
    end.

Definition describe (data : json) : result (list json) :=
  let! paths := describe_paths data in
  let! cases := paths_to_cases paths in
  dedupe_cases cases.

Definition spec_example_path : list json :=
  [ JObj [("name", JStr "v_Start")];
    JObj [("name", JStr "e_load_default_data"); ("actions", JList [JStr "x=1;"])];
    JObj [("name", JStr "v_Loaded")] ].

Example render_spec_example :
  build_step_strings_for_path spec_example_path
  = Ok [ "Step [1] START TEST";
         "Step [2] Load default data -> results in Loaded with data -> changed: x=1";
         "Step [3] END TEST" ].
Proof. vm_compute. reflexivity. Qed.

End PathCleanup.

(** * Properties of path_cleanup.py *)

Module PathCleanupProofs.
Import PathCleanup.

(** ** Element classifier *)

(** The [name] the classifier reads: the field, or [""] when missing. *)
Definition name_or_default (d : pydict) : json :=
  match dict_get d "name" with
  | Some v => v
  | None => JStr ""
  end.

Definition name_is_str_or_missing (d : pydict) : Prop :=
  match dict_get d "name" with
  | Some (JStr _) | None => True
  | Some _ => False
  end.

Lemma _is_edge_obj d : _is_edge (JObj d) = startswith_method (name_or_default d) "e_".
Proof. reflexivity. Qed.

Lemma _is_vertex_obj d : _is_vertex (JObj d) = startswith_method (name_or_default d) "v_".
Proof. reflexivity. Qed.

(** A present name that is not a string makes both predicates raise. *)
Lemma classify_non_string_name_raises d v :
  dict_get d "name" = Some v →
  (∀ s, v ≠ JStr s) →
  _is_edge (JObj d) = Raise AttributeError ∧
  _is_vertex (JObj d) = Raise AttributeError.
Proof.
  intros Hget Hns. rewrite _is_edge_obj, _is_vertex_obj.
  unfold name_or_default. rewrite Hget.
  destruct v; try (split; reflexivity). now destruct (Hns s).
Qed.

Lemma classify_missing_or_string_name_aux d :
  name_is_str_or_missing d →
  ∃ s : string,
    _is_edge (JObj d) = Ok (PyStr.startswith "e_" s) ∧
    _is_vertex (JObj d) = Ok (PyStr.startswith "v_" s).
Proof.
  unfold name_is_str_or_missing. intros Hname.
  rewrite _is_edge_obj, _is_vertex_obj. unfold name_or_default.
  destruct (dict_get d "name") as [v|].
  - destruct v; try contradiction. exists s. split; reflexivity.
  - exists "". split; reflexivity.
Qed.

(** C3 (as stated, refuted): a step whose [name] is present but is not a
    string is not classified as "neither"; both predicates raise
    [AttributeError] on [{"name": null}]. *)
Lemma classify_null_name_counterexample :
  _is_edge (JObj [("name", JNull)]) ≠ Ok false ∧
  _is_vertex (JObj [("name", JNull)]) ≠ Ok false ∧
  raises (_is_edge (JObj [("name", JNull)])) ∧
  raises (_is_vertex (JObj [("name", JNull)])).
Proof.
  repeat split; try discriminate; exists AttributeError; reflexivity.
Qed.

(** C3 (amended): for every step object whose [name] is missing or is a
    string, neither predicate raises; each tests the prefix of the name,
    a missing name standing for the empty string, and a step with a
    missing name is classified as neither edge nor vertex. *)
Theorem classify_missing_or_string_name (d : pydict) :
  name_is_str_or_missing d →
  ∃ s : string,
    name_or_default d = JStr s ∧
    (dict_get d "name" = None → s = "") ∧
    _is_edge (JObj d) = Ok (PyStr.startswith "e_" s) ∧
    _is_vertex (JObj d) = Ok (PyStr.startswith "v_" s) ∧
    (dict_get d "name" = None →
     _is_edge (JObj d) = Ok false ∧ _is_vertex (JObj d) = Ok false).
Proof.
  unfold name_is_str_or_missing. intros Hname.
  rewrite _is_edge_obj, _is_vertex_obj. unfold name_or_default.
  destruct (dict_get d "name") as [v|] eqn:Hget.
  - destruct v; try contradiction.
    exists s. repeat split; try discriminate.
  - exists "". repeat split.
Qed.

Lemma classify_missing_or_string_name_witness :
  name_is_str_or_missing [("id", JStr "n1")] ∧
  ∃ s : string,
    name_or_default [("id", JStr "n1")] = JStr s ∧
    (dict_get [("id", JStr "n1")] "name" = None → s = "") ∧
    _is_edge (JObj [("id", JStr "n1")]) = Ok (PyStr.startswith "e_" s) ∧
    _is_vertex (JObj [("id", JStr "n1")]) = Ok (PyStr.startswith "v_" s) ∧
    (dict_get [("id", JStr "n1")] "name" = None →
     _is_edge (JObj [("id", JStr "n1")]) = Ok false ∧
     _is_vertex (JObj [("id", JStr "n1")]) = Ok false).
Proof.
  split; [exact I|].
  apply (classify_missing_or_string_name [("id", JStr "n1")]). exact I.
Defined.

(** ** Action summarisation *)

Definition strings_of (actions : list json) : list string :=
  omap (λ a, match a with JStr s => Some s | _ => None end) actions.

(** Remove the last character when it is a semicolon. *)
Fixpoint drop_one_trailing_semicolon (s : string) : string :=
  match s with
  | EmptyString => EmptyString
  | String c EmptyString => if Ascii.eqb c ";" then EmptyString else s
  | String c r => String c (drop_one_trailing_semicolon r)
  end.

Definition survives (s : string) : bool :=
  PyStr.nonempty s && negb (PyStr.contains "JsonContext" s).

Definition clause_of (survivors : list string) : string :=
  match survivors with
  | [] => "None"
  | _ => PyStr.join ", " survivors
  end.

(** The changed clause in the words of the specification: whitespace and
    exactly one trailing semicolon are trimmed. *)
Definition spec_changed_clause (actions : list json) : string :=
  clause_of
    (List.filter survives
       (List.map (λ s, drop_one_trailing_semicolon (PyStr.strip s))
          (strings_of actions))).

(** The changed clause with every trailing semicolon trimmed. *)
Definition all_semicolons_changed_clause (actions : list json) : string :=
  clause_of
    (List.filter survives
       (List.map (λ s, PyStr.rstrip ";" (PyStr.strip s)) (strings_of actions))).

Lemma actions_loop_spec actions parts :
  actions_loop actions parts
  = parts ++ List.filter survives
      (List.map (λ s, PyStr.rstrip ";" (PyStr.strip s)) (strings_of actions)).
Proof.
  revert parts. induction actions as [|act rest IH]; intros parts; simpl.
  - now rewrite app_nil_r.
  - destruct act; simpl; try apply IH.
    unfold survives at 1.
    destruct (PyStr.nonempty _); simpl; [|apply IH].
    destruct (PyStr.contains _ _); simpl; [apply IH|].
    rewrite IH, <- app_assoc. reflexivity.
Qed.

(** C5 (as stated, refuted): on the action ["x=1;;"] the code removes both
    semicolons, whereas trimming exactly one leaves ["x=1;"]. *)
Lemma summarise_two_semicolons_counterexample :
  _summarise_actions (JObj [("actions", JList [JStr "x=1;;"])]) = Ok "x=1" ∧
  spec_changed_clause [JStr "x=1;;"] = "x=1;" ∧
  _summarise_actions (JObj [("actions", JList [JStr "x=1;;"])])
  ≠ Ok (spec_changed_clause [JStr "x=1;;"]).
Proof. vm_compute. repeat split. discriminate. Qed.

(** The entries of the [actions] field of a step, from which the changed
    clause is built: the elements of a list; no entry when the field is
    missing, [None] or otherwise falsy; the characters of a string and the
    keys of an object, which are what a loop over them visits.  A number
    other than [0], or [True], cannot be iterated: such a step has no
    entries to build a clause from, and is not rendered. *)
Definition action_entries (d : pydict) : option (list json) :=
  match dict_get d "actions" with
  | None | Some JNull | Some (JBool false) => Some []
  | Some (JBool true) => None
  | Some (JInt z) => if (z =? 0)%Z then Some [] else None
  | Some (JStr s) => Some (chars_of s)
  | Some (JList l) => Some l
  | Some (JObj o) => Some (List.map (λ kv, JStr (fst kv)) o)
  end.

(** C5 (amended): for every step that can be rendered, the changed clause
    is built from the entries of its [actions] (none when the field is
    missing or falsy): the non-string entries are dropped, whitespace and
    then every trailing semicolon are trimmed from each remaining string,
    the empty results and those containing [JsonContext] are dropped, and
    the survivors are joined with [", "]; with no survivor the clause is
    the literal [None]. *)
Theorem summarise_actions_all_semicolons (d : pydict) (actions : list json) :
  action_entries d = Some actions →
  _summarise_actions (JObj d) = Ok (all_semicolons_changed_clause actions).
Proof.
  unfold action_entries, _summarise_actions. cbn [get_method bind].
  assert (Hloop : ∀ l, match actions_loop l [] with
                       | [] => "None"
                       | _ => PyStr.join ", " (actions_loop l [])
                       end = all_semicolons_changed_clause l).
  { intros l. rewrite actions_loop_spec. reflexivity. }
  destruct (dict_get d "actions") as [v|].
  - destruct v as [|[|]|z|s|l|o]; try discriminate.
    + intros [= <-]. reflexivity.
    + intros [= <-]. reflexivity.
    + cbn [truthy]. destruct (z =? 0)%Z; [|discriminate].
      intros [= <-]. reflexivity.
    + intros [= <-]. destruct s; [reflexivity|].
      cbn [truthy PyStr.nonempty py_iter bind]. now rewrite Hloop.
    + intros [= <-]. destruct l; [reflexivity|].
      cbn [truthy py_iter bind]. now rewrite Hloop.
    + intros [= <-]. destruct o; [reflexivity|].
      cbn [truthy py_iter bind]. now rewrite Hloop.
  - intros [= <-]. reflexivity.
Qed.

Lemma summarise_actions_all_semicolons_witness :
  action_entries
    [("name", JStr "e_go"); ("actions", JList [JStr " a=1;; "; JInt 3; JStr ";"])]
  = Some [JStr " a=1;; "; JInt 3; JStr ";"] ∧
  _summarise_actions
    (JObj [("name", JStr "e_go"); ("actions", JList [JStr " a=1;; "; JInt 3; JStr ";"])])
  = Ok (all_semicolons_changed_clause [JStr " a=1;; "; JInt 3; JStr ";"]).
Proof.
  split; [reflexivity|].
  apply (summarise_actions_all_semicolons
           [("name", JStr "e_go"); ("actions", JList [JStr " a=1;; "; JInt 3; JStr ";"])]
           [JStr " a=1;; "; JInt 3; JStr ";"]).
  reflexivity.
Defined.

(** An edge without actions, or whose actions are [None]: the clause is
    the literal [None]. *)
Example summarise_no_actions :
  action_entries [("name", JStr "e_go")] = Some [] ∧
  _summarise_actions (JObj [("name", JStr "e_go")]) = Ok "None" ∧
  action_entries [("name", JStr "e_go"); ("actions", JNull)] = Some [] ∧
  _summarise_actions (JObj [("name", JStr "e_go"); ("actions", JNull)]) = Ok "None".
Proof. repeat split. Qed.

Example summarise_example :
  all_semicolons_changed_clause
    [JStr " a=1;; "; JInt 3; JStr ";"; JStr "JsonContext.x = 2"; JStr "b = 2 ;"]
  = "a=1, b = 2 ".
Proof. vm_compute. reflexivity. Qed.

(** ** Path splitter *)

Section Split.
Variable start_name : string.
Variable start_id : option string.

Lemma is_start_obj step :
  is_obj step → ∃ b, is_start start_name start_id step = Ok b.
Proof.
  destruct step; try contradiction. intros _.
  unfold is_start. destruct start_id as [sid|]; [destruct (PyStr.nonempty sid)|];
    simpl; eauto.
Qed.

Lemma split_loop_concat steps : ∀ paths current,
  Forall is_obj steps →
  ∃ res, split_loop start_name start_id steps paths current = Ok res ∧
         concat res = concat paths ++ current ++ steps.
Proof.
  induction steps as [|step rest IH]; intros paths current Hobj.
  - simpl. eexists; split; [reflexivity|].
    destruct current; rewrite ?concat_app; simpl; now rewrite ?app_nil_r.
  - inversion Hobj as [|? ? Hstep Hrest]; subst.
    destruct (is_start_obj step Hstep) as [b Hb].
    simpl. rewrite Hb. simpl. destruct b.
    + destruct current as [|c cs].
      * destruct (IH paths [step] Hrest) as (res & -> & Hc).
        eexists; split; [reflexivity|]. rewrite Hc. reflexivity.
      * destruct (IH (paths ++ [c :: cs]) [step] Hrest) as (res & -> & Hc).
        eexists; split; [reflexivity|]. rewrite Hc, concat_app. simpl.
        rewrite app_nil_r, <- !app_assoc. reflexivity.
    + destruct (IH paths (current ++ [step]) Hrest) as (res & -> & Hc).
      eexists; split; [reflexivity|]. rewrite Hc, <- !app_assoc. reflexivity.
Qed.

Lemma split_loop_no_match steps : ∀ paths current,
  Forall (λ s, is_start start_name start_id s = Ok false) steps →
  split_loop start_name start_id steps paths current
  = Ok (match current ++ steps with [] => paths | l => paths ++ [l] end).
Proof.
  induction steps as [|step rest IH]; intros paths current Hno.
  - simpl. rewrite app_nil_r. destruct current; reflexivity.
  - inversion Hno as [|? ? Hstep Hrest]; subst.
    simpl. rewrite Hstep. simpl. rewrite IH by assumption.
    rewrite <- app_assoc. reflexivity.
Qed.
End Split.

(** C7: for every sequence of step objects and every start matcher the
    splitter returns sub-paths whose concatenation, in order, is the
    input; the empty input gives no sub-path, and a non-empty input with
    no matching step gives the single sub-path equal to the input. *)
Theorem split_path_round_trip (steps : list json) (start_name : string)
    (start_id : option string) :
  Forall is_obj steps →
  ∃ paths,
    split_path steps start_name start_id = Ok paths ∧
    concat paths = steps ∧
    (steps = [] → paths = []) ∧
    (steps ≠ [] →
     Forall (λ s, is_start start_name start_id s = Ok false) steps →
     paths = [steps]).
Proof.
  intros Hobj. destruct steps as [|step rest].
  - exists []. repeat split. intros Hne. now destruct Hne.
  - destruct (split_loop_concat start_name start_id (step :: rest) [] [] Hobj)
      as (res & Hres & Hc).
    exists res. unfold split_path. repeat split; try assumption.
    + discriminate.
    + intros _ Hno.
      rewrite (split_loop_no_match start_name start_id _ [] [] Hno) in Hres.
      simpl in Hres. congruence.
Qed.

Definition split_example : list json :=
  [ JObj [("name", JStr "v_Start"); ("id", JStr "n0")];
    JObj [("name", JStr "e_go"); ("id", JStr "e1")];
    JObj [("name", JStr "v_Start"); ("id", JStr "n0")];
    JObj [("name", JStr "e_back"); ("id", JStr "e2")] ].

Lemma split_path_round_trip_witness :
  Forall is_obj split_example ∧
  ∃ paths,
    split_path split_example "v_Start" None = Ok paths ∧
    concat paths = split_example ∧
    (split_example = [] → paths = []) ∧
    (split_example ≠ [] →
     Forall (λ s, is_start "v_Start" None s = Ok false) split_example →
     paths = [split_example]).
Proof.
  assert (H : Forall is_obj split_example) by (repeat constructor).
  split; [exact H|].
  exact (split_path_round_trip split_example "v_Start" None H).
Defined.

Example split_example_result :
  split_path split_example "v_Start" None
  = Ok [ [ JObj [("name", JStr "v_Start"); ("id", JStr "n0")];
           JObj [("name", JStr "e_go"); ("id", JStr "e1")] ];
         [ JObj [("name", JStr "v_Start"); ("id", JStr "n0")];
           JObj [("name", JStr "e_back"); ("id", JStr "e2")] ] ].
Proof. reflexivity. Qed.

(** ** Deduplication *)

(** Stringification of a name or of a step: a string is itself, any
    other value is written the way Python prints it. *)
Definition stringified (v : json) : string :=
  match v with
  | JStr s => s
  | other => py_repr other
  end.

(** The key of a case, in the words of the specification: the stringified
    name and the element-wise stringified steps sequence.  A missing name
    is the empty string and missing steps are the empty sequence; steps
    that are not a list count as the sequence of that one value. *)
Definition the_key (case : json) : case_key :=
  match case with
  | JObj d =>
      (match dict_get d "name" with
       | Some name => stringified name
       | None => ""
       end,
       match dict_get d "steps" with
       | Some (JList steps) => stringified <$> steps
       | Some other => [stringified other]
       | None => []
       end)
  | _ => ("", [])
  end.

(** The cases of [rest], which starts at index [i] of [cases], whose key
    does not occur among the first positions of [cases] before them. *)
Fixpoint firsts_from (cases : list json) (i : nat) (rest : list json) : list json :=
  match rest with
  | [] => []
  | c :: r =>
      (if bool_decide (the_key c ∈ the_key <$> take i cases) then [] else [c])
      ++ firsts_from cases (S i) r
  end.

(** The first occurrence of every distinct key, in input order. *)
Definition first_occurrences (cases : list json) : list json :=
  firsts_from cases 0 cases.

(** The key the code computes for a case object is the key of the
    specification. *)
Lemma key_of_case_obj c : is_obj c → key_of_case c = Ok (the_key c).
Proof.
  destruct c; try contradiction. intros _.
  unfold key_of_case, the_key. cbn [get_method bind].
  destruct (dict_get d "name") as [name|];
    destruct (dict_get d "steps") as [steps|];
    try destruct steps; try destruct name; reflexivity.
Qed.

Lemma dedupe_loop_spec rest : ∀ pre seen unique,
  Forall is_obj rest →
  (∀ k, k ∈ seen ↔ k ∈ the_key <$> pre) →
  dedupe_loop rest seen unique
  = Ok (unique ++ firsts_from (pre ++ rest) (length pre) rest).
Proof.
  induction rest as [|c r IH]; intros pre seen unique Hobj Hseen.
  - simpl. now rewrite app_nil_r.
  - inversion Hobj as [|? ? Hc Hr]; subst.
    cbn [dedupe_loop firsts_from]. rewrite (key_of_case_obj c Hc). cbn [bind].
    rewrite take_app_length.
    assert (Hnext : pre ++ c :: r = (pre ++ [c]) ++ r) by now rewrite <- app_assoc.
    assert (Hlen : S (length pre) = length (pre ++ [c]))
      by (rewrite length_app; simpl; lia).
    rewrite Hnext, Hlen.
    destruct (decide (the_key c ∈ seen)) as [Hin|Hnin].
    + rewrite bool_decide_eq_true_2 by assumption.
      rewrite bool_decide_eq_true_2 by now apply Hseen.
      apply IH; [assumption|].
      intros k. rewrite fmap_app, elem_of_app, Hseen. simpl.
      rewrite list_elem_of_singleton. split; [tauto|].
      intros [?| ->]; [assumption|]. now apply Hseen.
    + rewrite bool_decide_eq_false_2 by assumption.
      rewrite bool_decide_eq_false_2 by (now rewrite <- Hseen).
      rewrite (IH (pre ++ [c]) ({[the_key c]} ∪ seen) (unique ++ [c]) Hr).
      * now rewrite <- app_assoc.
      * intros k. rewrite fmap_app, elem_of_app, elem_of_union, Hseen. simpl.
        rewrite list_elem_of_singleton, elem_of_singleton. tauto.
Qed.

Lemma firsts_from_sublist cases rest : ∀ i, firsts_from cases i rest `sublist_of` rest.
Proof.
  induction rest as [|c r IH]; intros i; simpl; [constructor|].
  destruct (bool_decide _); simpl.
  - apply sublist_cons, IH.
  - apply sublist_skip, IH.
Qed.

Lemma firsts_from_keys rest : ∀ pre,
  let kept := firsts_from (pre ++ rest) (length pre) rest in
  NoDup (the_key <$> kept) ∧
  (∀ k, k ∈ the_key <$> kept → k ∉ the_key <$> pre) ∧
  (∀ c, c ∈ rest → the_key c ∈ the_key <$> pre ∨ the_key c ∈ the_key <$> kept).
Proof.
  induction rest as [|c r IH]; intros pre; cbn zeta.
  - simpl. split; [constructor|]. split; intros ? Hin; inversion Hin.
  - cbn [firsts_from]. rewrite take_app_length.
    assert (Hnext : pre ++ c :: r = (pre ++ [c]) ++ r) by now rewrite <- app_assoc.
    assert (Hlen : S (length pre) = length (pre ++ [c]))
      by (rewrite length_app; simpl; lia).
    rewrite Hnext, Hlen.
    destruct (IH (pre ++ [c])) as (Hnd & Hfresh & Hall). cbn zeta in *.
    set (kept := firsts_from ((pre ++ [c]) ++ r) (length (pre ++ [c])) r) in *.
    assert (Hfresh' : ∀ k, k ∈ the_key <$> kept →
                           (k ∉ the_key <$> pre) ∧ k ≠ the_key c).
    { intros k Hk. specialize (Hfresh k Hk).
      rewrite fmap_app, elem_of_app in Hfresh. simpl in Hfresh.
      rewrite list_elem_of_singleton in Hfresh. tauto. }
    assert (Hall' : ∀ x, x ∈ r →
               the_key x ∈ the_key <$> pre ∨ the_key x = the_key c
               ∨ the_key x ∈ the_key <$> kept).
    { intros x Hx. destruct (Hall x Hx) as [Hp|Hk]; [|tauto].
      rewrite fmap_app, elem_of_app in Hp. simpl in Hp.
      rewrite list_elem_of_singleton in Hp. tauto. }
    destruct (decide (the_key c ∈ the_key <$> pre)) as [Hin|Hnin].
    + rewrite bool_decide_eq_true_2 by assumption. simpl.
      split; [assumption|]. split; [intros k Hk; now apply Hfresh'|].
      intros x Hx. apply elem_of_cons in Hx as [->|Hx]; [now left|].
      destruct (Hall' x Hx) as [?|[Heq|?]]; [now left| |now right].
      left. now rewrite Heq.
    + rewrite bool_decide_eq_false_2 by assumption. simpl.
      split; [|split].
      * constructor; [|assumption]. intros Hk. now apply Hfresh' in Hk.
      * intros k Hk. apply elem_of_cons in Hk as [->|Hk]; [assumption|].
        now apply Hfresh'.
      * intros x Hx. apply elem_of_cons in Hx as [->|Hx].
        { right. apply elem_of_cons. now left. }
        destruct (Hall' x Hx) as [?|[Heq|?]]; [now left| |].
        { right. apply elem_of_cons. now left. }
        { right. apply elem_of_cons. now right. }
Qed.

(** C8: for every list of case objects [dedupe_cases] returns, without
    raising, the first occurrence of every distinct key (the stringified
    name with the element-wise stringified steps) in input order: the
    result is a subsequence of the input, no two of its elements have the
    same key, and every key of the input is represented. *)
Theorem dedupe_cases_first_occurrences (cases : list json) :
  Forall is_obj cases →
  ∃ unique,
    dedupe_cases cases = Ok unique ∧
    unique = first_occurrences cases ∧
    unique `sublist_of` cases ∧
    NoDup (the_key <$> unique) ∧
    (∀ c, c ∈ cases → the_key c ∈ the_key <$> unique).
Proof.
  intros Hobj. exists (first_occurrences cases).
  unfold dedupe_cases, first_occurrences.
  split.
  { rewrite (dedupe_loop_spec cases [] ∅ [] Hobj); [reflexivity|].
    intros k. simpl. split; intros Hk; [now apply elem_of_empty in Hk|inversion Hk]. }
  split; [reflexivity|].
  split; [apply firsts_from_sublist|].
  destruct (firsts_from_keys cases []) as (Hnd & _ & Hall). cbn zeta in *.
  simpl in Hnd, Hall.
  split; [assumption|].
  intros c Hc. destruct (Hall c Hc) as [Hin|Hin]; [inversion Hin|assumption].
Qed.

Definition dedupe_example : list json :=
  [ JObj [("name", JStr ""); ("steps", JList [JStr "Step [1] END TEST"])];
    JObj [("name", JStr "other"); ("steps", JList [JStr "Step [1] END TEST"])];
    JObj [("name", JStr ""); ("steps", JList [JStr "Step [1] END TEST"])] ].

Lemma dedupe_cases_first_occurrences_witness :
  Forall is_obj dedupe_example ∧
  ∃ unique,
    dedupe_cases dedupe_example = Ok unique ∧
    unique = first_occurrences dedupe_example ∧
    unique `sublist_of` dedupe_example ∧
    NoDup (the_key <$> unique) ∧
    (∀ c, c ∈ dedupe_example → the_key c ∈ the_key <$> unique).
Proof.
  assert (H : Forall is_obj dedupe_example) by (repeat constructor).
  split; [exact H|].
  exact (dedupe_cases_first_occurrences dedupe_example H).
Defined.

Example dedupe_example_result :
  dedupe_cases dedupe_example
  = Ok [ JObj [("name", JStr ""); ("steps", JList [JStr "Step [1] END TEST"])];
         JObj [("name", JStr "other"); ("steps", JList [JStr "Step [1] END TEST"])] ].
Proof. vm_compute. reflexivity. Qed.

(** ** Path renderer *)

Definition classified_edge (step : json) : bool :=
  match _is_edge step with Ok b => b | Raise _ => false end.

Definition classified_vertex (step : json) : bool :=
  match _is_vertex step with Ok b => b | Raise _ => false end.

(** The number [k] of elements classified as EDGE. *)
Definition edge_count (path : list json) : nat :=
  length (List.filter classified_edge path).

Definition has_vertex (path : list json) : bool :=
  existsb classified_vertex path.

Definition iterable (v : json) : bool :=
  match v with
  | JList _ | JStr _ | JObj _ => true
  | _ => false
  end.

(** A step the renderer accepts: an object whose [name] is missing or a
    string and, when it is an edge, whose [actions] is missing, falsy or
    can be iterated. *)
Definition renderable (step : json) : Prop :=
  match step with
  | JObj d =>
      name_is_str_or_missing d ∧
      (classified_edge step = true →
       match dict_get d "actions" with
       | Some v => truthy v = false ∨ iterable v = true
       | None => True
       end)
  | _ => False
  end.

Lemma renderable_classify step :
  renderable step →
  _is_edge step = Ok (classified_edge step) ∧
  _is_vertex step = Ok (classified_vertex step).
Proof.
  destruct step; try contradiction. intros [Hname _].
  destruct (classify_missing_or_string_name_aux d Hname) as (s & He & Hv).
  unfold classified_edge, classified_vertex. rewrite He, Hv. split; reflexivity.
Qed.

Lemma vertex_has_name v :
  classified_vertex v = true →
  ∃ d s, v = JObj d ∧ dict_get d "name" = Some (JStr s) ∧ truthy v = true.
Proof.
  unfold classified_vertex. destruct v; try discriminate.
  rewrite _is_vertex_obj. unfold name_or_default.
  destruct (dict_get d "name") as [n|] eqn:Hget; [|discriminate].
  destruct n; try discriminate. intros _.
  exists d, s. repeat split; try assumption.
  destruct d; [discriminate|reflexivity].
Qed.

Lemma edge_has_name step :
  classified_edge step = true →
  ∃ d s, step = JObj d ∧ dict_get d "name" = Some (JStr s).
Proof.
  unfold classified_edge. destruct step; try discriminate.
  rewrite _is_edge_obj. unfold name_or_default.
  destruct (dict_get d "name") as [n|] eqn:Hget; [|discriminate].
  destruct n; try discriminate. intros _. eauto.
Qed.

Lemma scan_vertex_ok l :
  Forall renderable l →
  ∃ o, scan_vertex l = Ok o ∧
       match o with
       | Some v => classified_vertex v = true ∧ has_vertex l = true
       | None => has_vertex l = false
       end.
Proof.
  induction 1 as [|step rest Hstep Hrest IH]; simpl.
  - exists None. split; reflexivity.
  - destruct (renderable_classify step Hstep) as [_ Hv]. rewrite Hv. cbn [bind].
    destruct (classified_vertex step) eqn:Hcv.
    + exists (Some step). repeat split. assumption.
    + destruct IH as (o & -> & Ho). exists o. split; [reflexivity|].
      simpl. exact Ho.
Qed.

Lemma summarise_actions_ok step :
  renderable step → classified_edge step = true →
  ∃ changed, _summarise_actions step = Ok changed.
Proof.
  destruct step; try contradiction. intros [_ Hact] Hedge.
  specialize (Hact Hedge). unfold _summarise_actions. cbn [get_method bind].
  destruct (dict_get d "actions") as [v|]; [|simpl; eauto].
  destruct Hact as [Hf|Hit].
  - rewrite Hf. simpl. eauto.
  - destruct (truthy v); [|simpl; eauto].
    destruct v; try discriminate; simpl; eauto.
Qed.

Lemma collect_raw_ok sources : ∀ raw,
  Forall (λ o, match o with Some src => is_obj src | None => True end) sources →
  ∃ raw', collect_raw sources raw = Ok raw'.
Proof.
  induction sources as [|o rest IH]; intros raw Hs; simpl; [eauto|].
  inversion Hs as [|? ? Ho Hrest]; subst.
  destruct o as [src|]; [|now apply IH].
  destruct src; try contradiction.
  destruct (negb (truthy (JObj d))); [now apply IH|].
  cbn [get_method bind]. now apply IH.
Qed.

(** Within the path the backward scan starts at an existing step. *)
Lemma find_prev_vertex_in_range path idx :
  (idx ≤ length path)%nat →
  _find_prev_vertex path idx = scan_vertex (rev (take idx path)).
Proof.
  intros Hidx. unfold _find_prev_vertex.
  destruct (Nat.ltb_spec (length path) idx); [lia|reflexivity].
Qed.

Lemma edge_line_ok path idx step step_num :
  (idx ≤ length path)%nat →
  Forall renderable path → renderable step → classified_edge step = true →
  ∃ line, edge_line path idx step step_num = Ok line.
Proof.
  intros Hidx Hpath Hstep Hedge. unfold edge_line.
  assert (Hprev : Forall renderable (rev (take idx path)))
    by now apply Forall_rev, Forall_take.
  assert (Hnext : Forall renderable (drop (S idx) path))
    by now apply Forall_drop.
  rewrite (find_prev_vertex_in_range path idx Hidx). unfold _find_next_vertex.
  destruct (scan_vertex_ok _ Hprev) as (prev & -> & Hp).
  destruct (scan_vertex_ok _ Hnext) as (next & -> & Hn). cbn [bind].
  assert (Htarget : match or_else next prev with
                    | Some v => classified_vertex v = true
                    | None => True
                    end).
  { destruct next as [v|]; simpl.
    - destruct Hn as [Hv _]. destruct (vertex_has_name v Hv) as (d & s & _ & _ & ->).
      assumption.
    - destruct prev; [apply Hp|exact I]. }
  destruct (summarise_actions_ok step Hstep Hedge) as (changed & Hchanged).
  destruct (edge_has_name step Hedge) as (de & se & -> & Hse).
  assert (Hreqs : ∃ reqs, _normalise_requirements
                            [Some (JObj de); or_else next prev] = Ok reqs).
  { unfold _normalise_requirements.
    destruct (collect_raw_ok [Some (JObj de); or_else next prev] []) as (raw & ->).
    - constructor; [exact I|]. constructor; [|constructor].
      destruct (or_else next prev) as [v|]; [|exact I].
      destruct (vertex_has_name v Htarget) as (d & s & -> & _). exact I.
    - simpl. eauto. }
  destruct Hreqs as (reqs & Hreqs).
  destruct (or_else next prev) as [v|].
  - destruct (vertex_has_name v Htarget) as (d & s & -> & Hs & ->).
    cbn [getitem]. rewrite Hs. cbn [bind as_name].
    rewrite Hchanged. cbn [bind]. rewrite Hreqs. cbn [bind getitem].
    rewrite Hse. cbn [bind as_name]. eauto.
  - cbn [bind]. rewrite Hchanged. cbn [bind]. rewrite Hreqs. cbn [bind getitem].
    rewrite Hse. cbn [bind as_name]. eauto.
Qed.

Lemma edge_loop_count path todo : ∀ idx step_num lines,
  (idx + length todo = length path)%nat →
  Forall renderable path → Forall renderable todo →
  ∃ walked,
    edge_loop path idx todo step_num lines = Ok walked ∧
    length (snd walked) = length lines + edge_count todo.
Proof.
  induction todo as [|step rest IH]; intros idx step_num lines Hidx Hpath Htodo.
  - simpl. eexists; split; [reflexivity|]. unfold edge_count. simpl. lia.
  - inversion Htodo as [|? ? Hstep Hrest]; subst.
    assert (Hin : (idx ≤ length path)%nat) by lia.
    assert (Hnext : (S idx + length rest = length path)%nat)
      by (cbn [length] in Hidx; lia).
    destruct (renderable_classify step Hstep) as [He _].
    cbn [edge_loop]. rewrite He. cbn [bind]. unfold edge_count. cbn [List.filter].
    destruct (classified_edge step) eqn:Hce; cbn [negb].
    + destruct (edge_line_ok path idx step (S step_num) Hin Hpath Hstep Hce)
        as (line & ->).
      cbn [bind].
      destruct (IH (S idx) (S step_num) (lines ++ [line]) Hnext Hpath Hrest)
        as (w & -> & Hw).
      exists w. split; [reflexivity|]. rewrite Hw, length_app. unfold edge_count.
      simpl. lia.
    + destruct (IH (S idx) step_num lines Hnext Hpath Hrest) as (w & -> & Hw).
      exists w. split; [reflexivity|]. exact Hw.
Qed.

(** C2: for every path of renderable steps with [k] elements classified
    as EDGE, the renderer returns exactly [k + 2] lines when the path has
    an element classified as VERTEX and exactly [k + 1] lines when it has
    none. *)
Theorem render_line_count (path : list json) :
  Forall renderable path →
  ∃ lines,
    build_step_strings_for_path path = Ok lines ∧
    length lines = edge_count path + (if has_vertex path then 2 else 1).
Proof.
  intros Hpath. unfold build_step_strings_for_path.
  destruct (scan_vertex_ok path Hpath) as (first_vertex & -> & Hfirst). cbn [bind].
  destruct first_vertex as [v|].
  - destruct Hfirst as [_ ->].
    destruct (edge_loop_count path path 0 1 ["Step [1] START TEST"]
                eq_refl Hpath Hpath) as (w & -> & Hw).
    cbn [bind]. eexists; split; [reflexivity|].
    rewrite length_app, Hw. simpl. lia.
  - rewrite Hfirst.
    destruct (edge_loop_count path path 0 0 [] eq_refl Hpath Hpath) as (w & -> & Hw).
    cbn [bind]. eexists; split; [reflexivity|].
    rewrite length_app, Hw. simpl. lia.
Qed.

Lemma spec_example_renderable : Forall renderable spec_example_path.
Proof.
  repeat (constructor; [split; [exact I|intros _; cbn; auto]|]). constructor.
Qed.

Lemma render_line_count_witness :
  Forall renderable spec_example_path ∧
  ∃ lines,
    build_step_strings_for_path spec_example_path = Ok lines ∧
    length lines
    = edge_count spec_example_path + (if has_vertex spec_example_path then 2 else 1).
Proof.
  split; [exact spec_example_renderable|].
  exact (render_line_count spec_example_path spec_example_renderable).
Defined.

Example render_no_vertex :
  build_step_strings_for_path
    [JObj [("name", JStr "e_restart_test")]; JObj [("id", JStr "x")]]
  = Ok [ "Step [1] Restart test -> results in <no vertex> with data -> changed: None";
         "Step [2] END TEST" ].
Proof. vm_compute. reflexivity. Qed.

End PathCleanupProofs.

(** * merge_requirements.py *)

Module MergeRequirements.

(** ** The store

    Lists and dicts are objects of a store, addressed by location; a value
    is a scalar or a reference.  Two references to one location are two
    names of the same Python object.  A location outside the store stands
    for an object of another type: it is neither a list nor a dict and
    cannot be iterated. *)

Abbreviation loc := nat.

Inductive val :=
| VNone
| VBool (b : bool)
| VInt (z : Z)
| VStr (s : string)
| VRef (l : loc).

Inductive obj :=
| OList (items : list val)
| ODict (fields : gmap string val).

Abbreviation heap := (list obj).

(** A new object is placed at the first free location. *)
Definition alloc (o : obj) (h : heap) : heap * loc := (h ++ [o], length h).

Definition dict_at (h : heap) (v : val) : option (gmap string val) :=
  match v with
  | VRef l => match h !! l with Some (ODict d) => Some d | _ => None end
  | _ => None
  end.

Definition list_at (h : heap) (v : val) : option (list val) :=
  match v with
  | VRef l => match h !! l with Some (OList items) => Some items | _ => None end
  | _ => None
  end.

(** [isinstance(v, dict)] and [isinstance(v, list)] *)
Definition is_dict (h : heap) (v : val) : bool := bool_decide (is_Some (dict_at h v)).
Definition is_list (h : heap) (v : val) : bool := bool_decide (is_Some (list_at h v)).

(** [v is None] *)
Definition is_None (v : val) : bool :=
  match v with VNone => true | _ => false end.

(** [bool(v)] *)
Definition truthy (h : heap) (v : val) : bool :=
  match v with
  | VNone => false
  | VBool b => b
  | VInt z => negb (z =? 0)%Z
  | VStr s => PyStr.nonempty s
  | VRef l =>
      match h !! l with
      | Some (OList items) => match items with [] => false | _ => true end
      | Some (ODict d) => negb (bool_decide (d = ∅))
      | None => true
      end
  end.

(** [v.get(k)]: only a dict has the method; a missing key gives [None]. *)
Definition get_method (h : heap) (v : val) (k : string) : result val :=
  match dict_at h v with
  | Some d => Ok (default VNone (d !! k))
  | None => Raise AttributeError
  end.

(** The elements a [for x in v] loop visits.  The keys of a dict are
    strings; their order plays no role below. *)
Definition py_iter (h : heap) (v : val) : result (list val) :=
  match v with
  | VStr s => Ok ((λ c, VStr (String c EmptyString)) <$> list_ascii_of_string s)
  | VRef l =>
      match h !! l with
      | Some (OList items) => Ok items
      | Some (ODict d) => Ok (VStr <$> elements (dom d))
      | None => Raise TypeError
      end
  | _ => Raise TypeError
  end.

(** ** Keys of the requirements index

    A key is a tuple [(modelName, elementId)] of hashable values, compared
    with Python's [==]: [True == 1] and [False == 0]. *)

Inductive atom :=
| ANone
| AInt (z : Z)
| AStr (s : string).

#[global] Instance atom_eq_dec : EqDecision atom.
Proof. solve_decision. Defined.

#[global] Instance atom_countable : Countable atom.
Proof.
  refine (inj_countable'
    (λ a, match a with
          | ANone => inl ()
          | AInt z => inr (inl z)
          | AStr s => inr (inr s)
          end)
    (λ x, match x with
          | inl _ => ANone
          | inr (inl z) => AInt z
          | inr (inr s) => AStr s
          end) _).
  intros []; reflexivity.
Defined.

Abbreviation Key := (atom * atom)%type.

(** [hash(v)]: lists and dicts are unhashable. *)
Definition hash_key (v : val) : result atom :=
  match v with
  | VNone => Ok ANone
  | VBool b => Ok (AInt (if b then 1 else 0))
  | VInt z => Ok (AInt z)
  | VStr s => Ok (AStr s)
  | VRef _ => Raise TypeError
  end.

(** [(a, b)] used as a dict key: both components are hashed, in order. *)
Definition make_key (a b : val) : result Key :=
  let! ka := hash_key a in
  let! kb := hash_key b in
  Ok (ka, kb).

(** The index [Dict[Key, List[str]]]: every key is bound to a list object. *)
Abbreviation index := (gmap Key loc).

(** [list(x)] for [x] a value of the index. *)
Definition items_at (h : heap) (r : loc) : result (list val) :=
  match h !! r with
  | Some (OList items) => Ok items
  | _ => Raise TypeError
  end.

(** ** _extract_models_list *)

(** [for item in models_data: if isinstance(item, dict) and "models" in item:
    return item["models"]] *)
Fixpoint first_models (h : heap) (items : list val) : option val :=
  match items with
  | [] => None
  | item :: rest =>
      match dict_at h item with
      | Some d =>
          match d !! "models" with
          | Some v => Some v
          | None => first_models h rest
          end
      | None => first_models h rest
      end
  end.

(** [return []] *)
Definition new_empty_list (h : heap) : heap * val :=
  let allocated := alloc (OList []) h in
  (fst allocated, VRef (snd allocated)).

Definition _extract_models_list (models_data : val) (h : heap) : heap * val :=
  match dict_at h models_data with
  | Some d =>
      match d !! "models" with
      | Some v => (h, v)
      | None => new_empty_list h
      end
  | None =>
      match list_at h models_data with
      | Some items =>
          match first_models h items with
          | Some v => (h, v)
          | None => new_empty_list h
          end
      | None => new_empty_list h
      end
  end.

(** ** build_requirements_map *)

(** [for x in v.get(k, [])] *)
Definition get_iter (h : heap) (v : val) (k : string) : result (list val) :=
  match dict_at h v with
  | Some d =>
      match d !! k with
      | Some x => py_iter h x
      | None => Ok []
      end
  | None => Raise AttributeError
  end.

(** The loop over the edges of a model and the loop over its vertices have
    the same body. *)
Fixpoint index_elements (model_name : val) (elements : list val)
    (req_map : index) (h : heap) : result (index * heap) :=
  match elements with
  | [] => Ok (req_map, h)
  | element :: rest =>
      let! element_id := get_method h element "id" in
      if negb (truthy h element_id) then index_elements model_name rest req_map h
      else
        let! reqs := get_method h element "requirements" in
        match list_at h reqs with
        | Some items =>
            let copied := alloc (OList items) h in
            let! key := make_key model_name element_id in
            index_elements model_name rest (<[key := snd copied]> req_map) (fst copied)
        | None => index_elements model_name rest req_map h
        end
  end.

Fixpoint models_loop (models : list val) (req_map : index) (h : heap)
    : result (index * heap) :=
  match models with
  | [] => Ok (req_map, h)
  | model :: rest =>
      let! model_name := get_method h model "name" in
      if negb (truthy h model_name) then models_loop rest req_map h
      else
        let! edges := get_iter h model "edges" in
        let! after_edges := index_elements model_name edges req_map h in
        let! vertices := get_iter (snd after_edges) model "vertices" in
        let! after_vertices :=
          index_elements model_name vertices (fst after_edges) (snd after_edges) in
        models_loop rest (fst after_vertices) (snd after_vertices)
  end.

Definition build_requirements_map (models_data : val) (h : heap)
    : result (index * heap) :=
  let extracted := _extract_models_list models_data h in
  let! models := py_iter (fst extracted) (snd extracted) in
  models_loop models ∅ (fst extracted).

(** ** _annotate_step *)

(** [step["requirements"] = <a new list holding items>] for the dict
    [d] at location [l]. *)
Definition set_requirements (l : loc) (d : gmap string val) (items : list val)
    (h : heap) : heap :=
  <[l := ODict (<["requirements" := VRef (length h)]> d)]> (h ++ [OList items]).

Definition _annotate_step (step : val) (req_map : index) (h : heap) : result heap :=
  match step with
  | VRef l =>
      match h !! l with
      | Some (ODict d) =>
          let step_id := default VNone (d !! "id") in
          let model_name := default VNone (d !! "modelName") in
          if is_None step_id || is_None model_name then
            Ok (set_requirements l d [] h)
          else
            let! key := make_key model_name step_id in
            let! requirements :=
              match req_map !! key with
              | Some r => items_at h r
              | None => Ok []
              end in
            Ok (set_requirements l d requirements h)
      | _ => Raise AttributeError
      end
  | _ => Raise AttributeError
  end.

(** ** annotate_steps *)

(** [for step in path: if isinstance(step, dict): _annotate_step(step, req_map)] *)
Fixpoint annotate_path (steps : list val) (req_map : index) (h : heap) : result heap :=
  match steps with
  | [] => Ok h
  | step :: rest =>
      if is_dict h step then
        let! h' := _annotate_step step req_map h in
        annotate_path rest req_map h'
      else annotate_path rest req_map h
  end.

(** [for path in steps_list: for step in path: ...] *)
Fixpoint annotate_paths (paths : list val) (req_map : index) (h : heap) : result heap :=
  match paths with
  | [] => Ok h
  | path :: rest =>
      let! steps := py_iter h path in
      let! h' := annotate_path steps req_map h in
      annotate_paths rest req_map h'
  end.

(** The body shared by the dict-wrapper branch and the top-level-list
    branch: multiple paths when the list is non-empty and its first
    element is a list, a single path otherwise. *)
Definition annotate_list (steps_list : list val) (req_map : index) (h : heap)
    : result heap :=
  match steps_list with
  | first :: _ =>
      if is_list h first then annotate_paths steps_list req_map h
      else annotate_path steps_list req_map h
  | [] => annotate_path steps_list req_map h
  end.

(** [annotate_steps] returns its argument [steps_data] in every branch;
    the embedding returns the store it leaves behind. *)
Definition annotate_steps (steps_data : val) (req_map : index) (h : heap) : result heap :=
  match dict_at h steps_data with
  | Some d =>
      match d !! "steps" with
      | Some steps_list =>
          match list_at h steps_list with
          | Some items => annotate_list items req_map h
          | None => Ok h
          end
      | None => Ok h
      end
  | None =>
      match list_at h steps_data with
      | Some items => annotate_list items req_map h
      | None => Ok h
      end
  end.

(** ** merge_requirements_files

    The two documents are in the store, loaded separately; reading and
    writing the files is left out, and the function returns the store that
    holds the annotated steps document. *)
Definition merge_requirements_files (models_data steps_data : val) (h : heap)
    : result heap :=
  let! built := build_requirements_map models_data h in
  annotate_steps steps_data (fst built) (snd built).

(** The contents of the list in the [requirements] field of the dict at
    [l], when there is one. *)
Definition requirements_of (h : heap) (l : loc) : option (list val) :=
  d ← dict_at h (VRef l);
  r ← d !! "requirements";
  list_at h r.

(** The example of the specification: model [M] with edge [e1] requiring
    [R-1] and [R-2], and one step for [e1]. *)
Definition example_store : heap :=
  [ (* 0 *) ODict {[ "models" := VRef 1 ]};
    (* 1 *) OList [VRef 2];
    (* 2 *) ODict {[ "name" := VStr "M"; "edges" := VRef 3 ]};
    (* 3 *) OList [VRef 4];
    (* 4 *) ODict {[ "id" := VStr "e1"; "requirements" := VRef 5 ]};
    (* 5 *) OList [VStr "R-1"; VStr "R-2"];
    (* 6 *) OList [VRef 7];
    (* 7 *) ODict {[ "id" := VStr "e1"; "modelName" := VStr "M";
                     "name" := VStr "e_do_thing" ]} ].

Definition merge_example : result (option (list val)) :=
  let! built := build_requirements_map (VRef 0) example_store in
  let! h := annotate_steps (VRef 6) (fst built) (snd built) in
  Ok (requirements_of h 7).

Example merge_spec_example : merge_example = Ok (Some [VStr "R-1"; VStr "R-2"]).
Proof. vm_compute. reflexivity. Qed.

End MergeRequirements.

(** * Properties of merge_requirements.py *)

Module MergeProofs.
Import MergeRequirements.
Local Open Scope nat_scope.

(** ** Vocabulary *)

Definition scalar (v : val) : Prop :=
  match v with VRef _ => False | _ => True end.

(** The index binds its keys to list objects of the store. *)
Definition index_wf (h : heap) (idx : index) : Prop :=
  ∀ k r, idx !! k = Some r → ∃ items, h !! r = Some (OList items).

(** A step whose [id] and [modelName], when present, are scalars (strings
    in the data model), so that they can be hashed. *)
Definition keyable (d : gmap string val) : Prop :=
  scalar (default VNone (d !! "id")) ∧ scalar (default VNone (d !! "modelName")).

(** The requirements the annotator resolves for a step with fields [d]:
    the list the index binds to [(modelName, id)], else the empty list. *)
Definition resolved (idx : index) (h : heap) (d : gmap string val) : list val :=
  let step_id := default VNone (d !! "id") in
  let model_name := default VNone (d !! "modelName") in
  if is_None step_id || is_None model_name then []
  else
    match make_key model_name step_id with
    | Ok key =>
        match idx !! key with
        | Some r => default [] (list_at h (VRef r))
        | None => []
        end
    | Raise _ => []
    end.

(** The dicts among [items]. *)
Definition dict_locs (h : heap) (items : list val) : list loc :=
  omap (λ v, match v with
             | VRef l => if is_dict h v then Some l else None
             | _ => None
             end) items.

Definition seq_of (h : heap) (v : val) : list val :=
  match py_iter h v with Ok items => items | Raise _ => [] end.

(** The sequence held by a container in one of the four shapes: the list
    itself, or the list in the [steps] field of a wrapper object. *)
Definition container_items (h : heap) (steps_data : val) : option (list val) :=
  match dict_at h steps_data with
  | Some d => steps_list ← d !! "steps"; list_at h steps_list
  | None => list_at h steps_data
  end.

(** The disambiguation rule. *)
Definition multiple_paths (h : heap) (items : list val) : bool :=
  match items with
  | first :: _ => is_list h first
  | [] => false
  end.

(** The object-shaped steps of a container: the dicts of the single path,
    or the dicts of every path. *)
Definition steps_in (h : heap) (items : list val) : list loc :=
  if multiple_paths h items
  then concat ((λ path, dict_locs h (seq_of h path)) <$> items)
  else dict_locs h items.

Definition step_objects (h : heap) (steps_data : val) : list loc :=
  match container_items h steps_data with
  | Some items => steps_in h items
  | None => []
  end.

Definition iterable (h : heap) (v : val) : Prop :=
  ∃ items, py_iter h v = Ok items.

(** ** One annotation *)

Lemma set_requirements_lookup h l d items l' :
  l < length h →
  set_requirements l d items h !! l'
  = if decide (l' = l) then Some (ODict (<["requirements" := VRef (length h)]> d))
    else if decide (l' = length h) then Some (OList items)
    else h !! l'.
Proof.
  intros Hl. unfold set_requirements.
  destruct (decide (l' = l)) as [->|Hne].
  - apply list_lookup_insert_eq. rewrite length_app; simpl; lia.
  - rewrite list_lookup_insert_ne by congruence.
    destruct (decide (l' = length h)) as [->|Hne2].
    + rewrite lookup_app_r by lia. rewrite Nat.sub_diag. reflexivity.
    + destruct (decide (l' < length h)).
      * apply lookup_app_l. lia.
      * rewrite !lookup_ge_None_2; [reflexivity|lia|rewrite length_app; simpl; lia].
Qed.

Lemma set_requirements_length h l d items :
  length (set_requirements l d items h) = S (length h).
Proof.
  unfold set_requirements. rewrite length_insert, length_app. simpl. lia.
Qed.

Lemma make_key_scalar a b :
  scalar a → scalar b → ∃ key, make_key a b = Ok key.
Proof.
  destruct a, b; simpl; try contradiction; intros _ _; eauto.
Qed.

Lemma annotate_step_ok idx h l d :
  h !! l = Some (ODict d) → keyable d → index_wf h idx →
  _annotate_step (VRef l) idx h = Ok (set_requirements l d (resolved idx h d) h).
Proof.
  intros Hl [Hid Hmodel] Hwf. unfold _annotate_step, resolved. rewrite Hl.
  destruct (is_None _ || is_None _); [reflexivity|].
  destruct (make_key_scalar _ _ Hmodel Hid) as (key & ->). cbn [bind].
  destruct (idx !! key) as [r|] eqn:Hkey; [|reflexivity].
  destruct (Hwf key r Hkey) as (items & Hr).
  unfold items_at, list_at. rewrite Hr. reflexivity.
Qed.

(** ** The effect of a run of the annotator

    [run idx h0 V h]: the store [h] is what the annotator leaves when,
    started in [h0], it has annotated the dicts at the locations [V]. *)

Record run (idx : index) (h0 : heap) (V : list loc) (h : heap) : Prop := {
  run_length : length h0 ≤ length h;
  run_lists : ∀ l items, h0 !! l = Some (OList items) → h !! l = Some (OList items);
  run_frame : ∀ l d, h0 !! l = Some (ODict d) → l ∉ V → h !! l = Some (ODict d);
  run_steps : ∀ l d, h0 !! l = Some (ODict d) → l ∈ V →
    ∃ r, h !! l = Some (ODict (<["requirements" := VRef r]> d)) ∧
         length h0 ≤ r ∧
         h !! r = Some (OList (resolved idx h0 d));
  run_fresh : ∀ l o, length h0 ≤ l → h !! l = Some o → ∃ items, o = OList items;
  run_owner : ∀ l1 l2 d1 d2 r,
    l1 ∈ V → l2 ∈ V →
    h !! l1 = Some (ODict d1) → h !! l2 = Some (ODict d2) →
    d1 !! "requirements" = Some (VRef r) → d2 !! "requirements" = Some (VRef r) →
    l1 = l2
}.

Lemma run_refl idx h : run idx h [] h.
Proof.
  split; try done.
  - intros l d _ Hin. inversion Hin.
  - intros l o Hl Ho. apply lookup_lt_Some in Ho. lia.
  - intros l1 l2 d1 d2 r Hin. inversion Hin.
Qed.

(** The dict at a location of [h0], as the run has left it. *)
Lemma run_dict idx h0 V h l d :
  run idx h0 V h → h0 !! l = Some (ODict d) →
  ∃ d', h !! l = Some (ODict d') ∧
        (d' = d ∨ ∃ r, d' = <["requirements" := VRef r]> d ∧ r < length h).
Proof.
  intros Hrun Hl. destruct (decide (l ∈ V)) as [Hin|Hnin].
  - destruct (run_steps _ _ _ _ Hrun l d Hl Hin) as (r & Hd & _ & Hr).
    eexists; split; [exact Hd|]. right. exists r. split; [reflexivity|].
    now apply lookup_lt_Some in Hr.
  - eexists; split; [exact (run_frame _ _ _ _ Hrun l d Hl Hnin)|]. now left.
Qed.

Lemma is_dict_true h v :
  is_dict h v = true ↔ ∃ l d, v = VRef l ∧ h !! l = Some (ODict d).
Proof.
  unfold is_dict. rewrite bool_decide_eq_true. unfold dict_at. split.
  - intros [d Hd]. destruct v; try discriminate.
    destruct (h !! l) as [[|d']|] eqn:Hl; try discriminate. eauto.
  - intros (l & d & -> & ->). eauto.
Qed.

Lemma is_dict_run idx h0 V h v :
  run idx h0 V h → is_dict h v = is_dict h0 v.
Proof.
  intros Hrun. destruct (is_dict h0 v) eqn:H0.
  - apply is_dict_true in H0 as (l & d & -> & Hl).
    destruct (run_dict _ _ _ _ _ _ Hrun Hl) as (d' & Hd' & _).
    apply is_dict_true. eauto.
  - destruct (is_dict h v) eqn:H1; [|reflexivity].
    apply is_dict_true in H1 as (l & d & -> & Hl).
    destruct (h0 !! l) as [[items|d0]|] eqn:Hl0.
    + rewrite (run_lists _ _ _ _ Hrun l items Hl0) in Hl. discriminate.
    + assert (is_dict h0 (VRef l) = true) by (apply is_dict_true; eauto). congruence.
    + apply lookup_ge_None in Hl0.
      destruct (run_fresh _ _ _ _ Hrun l _ Hl0 Hl) as (items & ?). discriminate.
Qed.

Lemma resolved_insert_requirements idx h d v :
  resolved idx h (<["requirements" := v]> d) = resolved idx h d.
Proof.
  unfold resolved. rewrite !lookup_insert_ne by done. reflexivity.
Qed.

Lemma keyable_insert_requirements d v :
  keyable (<["requirements" := v]> d) ↔ keyable d.
Proof.
  unfold keyable. rewrite !lookup_insert_ne by done. reflexivity.
Qed.

Lemma resolved_run idx h0 V h d :
  run idx h0 V h → index_wf h0 idx → resolved idx h d = resolved idx h0 d.
Proof.
  intros Hrun Hwf. unfold resolved.
  destruct (is_None _ || is_None _); [reflexivity|].
  destruct (make_key _ _) as [key|]; [|reflexivity].
  destruct (idx !! key) as [r|] eqn:Hkey; [|reflexivity].
  destruct (Hwf key r Hkey) as (items & Hr).
  unfold list_at. rewrite Hr, (run_lists _ _ _ _ Hrun r items Hr). reflexivity.
Qed.

Lemma index_wf_run idx h0 V h :
  run idx h0 V h → index_wf h0 idx → index_wf h idx.
Proof.
  intros Hrun Hwf k r Hkey. destruct (Hwf k r Hkey) as (items & Hr).
  exists items. exact (run_lists _ _ _ _ Hrun r items Hr).
Qed.

(** Annotating one more step extends the run. *)
Lemma run_step idx h0 V h l d :
  run idx h0 V h → h0 !! l = Some (ODict d) → keyable d → index_wf h0 idx →
  ∃ h', _annotate_step (VRef l) idx h = Ok h' ∧ run idx h0 (V ++ [l]) h'.
Proof.
  intros Hrun Hl Hkey Hwf.
  destruct (run_dict _ _ _ _ _ _ Hrun Hl) as (d' & Hd' & Hshape).
  assert (Hlt : l < length h) by now apply lookup_lt_Some in Hd'.
  assert (Hkey' : keyable d').
  { destruct Hshape as [->|(r & -> & _)]; [assumption|].
    now apply keyable_insert_requirements. }
  assert (Hres : resolved idx h d' = resolved idx h0 d).
  { rewrite (resolved_run _ _ _ _ _ Hrun Hwf).
    destruct Hshape as [->|(r & -> & _)]; [reflexivity|].
    apply resolved_insert_requirements. }
  assert (Hins : <["requirements" := VRef (length h)]> d'
                 = <["requirements" := VRef (length h)]> d).
  { destruct Hshape as [->|(r & -> & _)]; [reflexivity|].
    apply insert_insert_eq. }
  eexists. split.
  { apply annotate_step_ok; [exact Hd'|exact Hkey'|].
    exact (index_wf_run _ _ _ _ Hrun Hwf). }
  rewrite Hres.
  pose proof (set_requirements_lookup h l d' (resolved idx h0 d)) as Hlook.
  rewrite Hins in Hlook.
  pose proof (run_length _ _ _ _ Hrun) as Hlen.
  split.
  - rewrite set_requirements_length. lia.
  - intros l' items Hl'. rewrite Hlook by assumption.
    pose proof (run_lists _ _ _ _ Hrun l' items Hl') as Hh.
    destruct (decide (l' = l)) as [->|]; [congruence|].
    destruct (decide (l' = length h)) as [->|]; [|assumption].
    apply lookup_lt_Some in Hh. lia.
  - intros l' d0 Hl' Hnin. rewrite Hlook by assumption.
    rewrite elem_of_app, list_elem_of_singleton in Hnin.
    destruct (decide (l' = l)) as [->|]; [tauto|].
    assert (Hh : h !! l' = Some (ODict d0))
      by (apply (run_frame _ _ _ _ Hrun); tauto).
    destruct (decide (l' = length h)) as [->|]; [|assumption].
    apply lookup_lt_Some in Hh. lia.
  - intros l' d0 Hl' Hin. rewrite Hlook by assumption.
    destruct (decide (l' = l)) as [->|Hne].
    + assert (d0 = d) as -> by congruence.
      exists (length h). split; [reflexivity|]. split; [lia|].
      rewrite Hlook by assumption.
      destruct (decide (length h = l)); [lia|].
      destruct (decide (length h = length h)); [reflexivity|lia].
    + rewrite elem_of_app, list_elem_of_singleton in Hin.
      destruct Hin as [Hin|]; [|congruence].
      destruct (run_steps _ _ _ _ Hrun l' d0 Hl' Hin) as (r & Hd0 & Hr0 & Hr).
      assert (l' < length h) by now apply lookup_lt_Some in Hd0.
      destruct (decide (l' = length h)); [lia|].
      exists r. split; [assumption|]. split; [assumption|].
      rewrite Hlook by assumption.
      assert (r < length h) by now apply lookup_lt_Some in Hr.
      destruct (decide (r = l)) as [->|]; [congruence|].
      destruct (decide (r = length h)); [lia|assumption].
  - intros l' o Hge. rewrite Hlook by assumption.
    destruct (decide (l' = l)) as [->|].
    { apply lookup_lt_Some in Hl. lia. }
    destruct (decide (l' = length h)) as [->|].
    { intros [= <-]. eauto. }
    apply (run_fresh _ _ _ _ Hrun). assumption.
  - assert (Hold : ∀ l' d1 r, l' ∈ V → l' ≠ l → h !! l' = Some (ODict d1) →
              d1 !! "requirements" = Some (VRef r) → r < length h).
    { intros l' d1 r Hin Hne Hd1 Hreq.
      destruct (h0 !! l') as [[items|d0]|] eqn:Hl0.
      - rewrite (run_lists _ _ _ _ Hrun l' items Hl0) in Hd1. discriminate.
      - destruct (run_steps _ _ _ _ Hrun l' d0 Hl0 Hin) as (r' & Hd0 & _ & Hr').
        rewrite Hd0 in Hd1. injection Hd1 as <-.
        rewrite lookup_insert_eq in Hreq. injection Hreq as <-.
        now apply lookup_lt_Some in Hr'.
      - apply lookup_ge_None in Hl0.
        destruct (run_fresh _ _ _ _ Hrun l' _ Hl0 Hd1) as (items & ?). discriminate. }
    intros l1 l2 d1 d2 r Hin1 Hin2.
    rewrite !Hlook by assumption.
    rewrite elem_of_app, list_elem_of_singleton in Hin1, Hin2.
    destruct (decide (l1 = l)) as [->|Hne1]; destruct (decide (l2 = l)) as [->|Hne2];
      try done.
    + intros [= <-]. rewrite lookup_insert_eq. intros Hd2 [= <-] Hreq2.
      destruct (decide (l2 = length h)) as [->|]; [discriminate|].
      assert (length h < length h); [|lia].
      apply (Hold l2 d2 (length h)); tauto.
    + intros Hd1 [= <-] Hreq1. rewrite lookup_insert_eq. intros [= <-].
      destruct (decide (l1 = length h)) as [->|]; [discriminate|].
      assert (length h < length h); [|lia].
      apply (Hold l1 d1 (length h)); tauto.
    + destruct (decide (l1 = length h)) as [->|]; [discriminate|].
      destruct (decide (l2 = length h)) as [->|]; [discriminate|].
      intros Hd1 Hd2 Hreq1 Hreq2.
      apply (run_owner _ _ _ _ Hrun l1 l2 d1 d2 r); tauto.
Qed.

(** ** The loops *)

Lemma dict_locs_cons_dict h l rest :
  is_dict h (VRef l) = true → dict_locs h (VRef l :: rest) = l :: dict_locs h rest.
Proof. intros Hd. unfold dict_locs. simpl. rewrite Hd. reflexivity. Qed.

Lemma dict_locs_cons_other h v rest :
  is_dict h v = false → dict_locs h (v :: rest) = dict_locs h rest.
Proof.
  intros Hd. unfold dict_locs. simpl. destruct v; try reflexivity.
  rewrite Hd. reflexivity.
Qed.

Lemma dict_locs_strings h (items : list val) :
  Forall (λ v, ∃ s, v = VStr s) items → dict_locs h items = [].
Proof.
  induction 1 as [|v rest [s ->] _ IH]; [reflexivity|].
  rewrite dict_locs_cons_other by reflexivity. exact IH.
Qed.

Lemma annotate_path_run idx h0 steps : ∀ V h,
  run idx h0 V h → index_wf h0 idx →
  (∀ l d, l ∈ dict_locs h0 steps → h0 !! l = Some (ODict d) → keyable d) →
  ∃ h', annotate_path steps idx h = Ok h' ∧
        run idx h0 (V ++ dict_locs h0 steps) h'.
Proof.
  induction steps as [|step rest IH]; intros V h Hrun Hwf Hkey.
  - exists h. split; [reflexivity|]. simpl. now rewrite app_nil_r.
  - cbn [annotate_path]. rewrite (is_dict_run _ _ _ _ _ Hrun).
    destruct (is_dict h0 step) eqn:Hd.
    + pose proof Hd as Hd'. apply is_dict_true in Hd' as (l & d & -> & Hl).
      rewrite (dict_locs_cons_dict _ _ _ Hd) in Hkey |- *.
      destruct (run_step idx h0 V h l d Hrun Hl) as (h1 & -> & Hrun1);
        [apply (Hkey l d); [apply elem_of_cons; now left|assumption]|assumption|].
      cbn [bind].
      destruct (IH (V ++ [l]) h1 Hrun1 Hwf) as (h' & -> & Hrun').
      { intros l' d' Hin. apply Hkey. apply elem_of_cons. now right. }
      exists h'. split; [reflexivity|].
      rewrite <- app_assoc in Hrun'. exact Hrun'.
    + rewrite (dict_locs_cons_other _ _ _ Hd) in Hkey |- *.
      now apply IH.
Qed.

Lemma py_iter_run idx h0 V h path items0 :
  run idx h0 V h → py_iter h0 path = Ok items0 →
  ∃ items, py_iter h path = Ok items ∧ dict_locs h0 items = dict_locs h0 items0.
Proof.
  intros Hrun. destruct path; try discriminate; simpl.
  - intros [= <-]. eauto.
  - destruct (h0 !! l) as [[items|d]|] eqn:Hl; try discriminate; intros [= <-].
    + rewrite (run_lists _ _ _ _ Hrun l items Hl). eauto.
    + destruct (run_dict _ _ _ _ _ _ Hrun Hl) as (d' & -> & _).
      eexists; split; [reflexivity|].
      rewrite !dict_locs_strings; [reflexivity| |];
        apply Forall_fmap, Forall_forall; intros x _; simpl; eauto.
Qed.

Definition path_steps (h : heap) (paths : list val) : list loc :=
  concat ((λ path, dict_locs h (seq_of h path)) <$> paths).

Lemma annotate_paths_run idx h0 paths : ∀ V h,
  run idx h0 V h → index_wf h0 idx →
  Forall (iterable h0) paths →
  (∀ l d, l ∈ path_steps h0 paths → h0 !! l = Some (ODict d) → keyable d) →
  ∃ h', annotate_paths paths idx h = Ok h' ∧
        run idx h0 (V ++ path_steps h0 paths) h'.
Proof.
  induction paths as [|path rest IH]; intros V h Hrun Hwf Hit Hkey.
  - exists h. split; [reflexivity|]. unfold path_steps. simpl. now rewrite app_nil_r.
  - inversion Hit as [|? ? [items0 Hitems0] Hrest]; subst.
    unfold path_steps in Hkey |- *. cbn [fmap list_fmap concat] in Hkey |- *.
    unfold seq_of at 1 in Hkey. unfold seq_of at 1. rewrite Hitems0 in Hkey |- *.
    destruct (py_iter_run _ _ _ _ _ _ Hrun Hitems0) as (items & Hitems & Hsame).
    cbn [annotate_paths]. rewrite Hitems. cbn [bind].
    destruct (annotate_path_run idx h0 items V h Hrun Hwf) as (h1 & -> & Hrun1).
    { rewrite Hsame. intros l d Hin. apply Hkey. apply elem_of_app. now left. }
    cbn [bind].
    destruct (IH (V ++ dict_locs h0 items) h1 Hrun1 Hwf Hrest) as (h' & -> & Hrun').
    { intros l d Hin. apply Hkey. apply elem_of_app. now right. }
    exists h'. split; [reflexivity|].
    rewrite Hsame, <- app_assoc in Hrun'. exact Hrun'.
Qed.

Lemma annotate_list_run idx h items :
  index_wf h idx →
  (multiple_paths h items = true → Forall (iterable h) items) →
  (∀ l d, l ∈ steps_in h items → h !! l = Some (ODict d) → keyable d) →
  ∃ h', annotate_list items idx h = Ok h' ∧ run idx h (steps_in h items) h'.
Proof.
  intros Hwf Hshape Hkey. unfold annotate_list, steps_in in *.
  destruct items as [|first rest].
  - exists h. split; [reflexivity|]. apply run_refl.
  - cbn [multiple_paths] in *. destruct (is_list h first).
    + apply (annotate_paths_run idx h (first :: rest) [] h);
        auto using run_refl.
    + apply (annotate_path_run idx h (first :: rest) [] h);
        auto using run_refl.
Qed.

(** A container whose entries, when it is read as multiple paths, can all
    be iterated. *)
Definition paths_iterable (h : heap) (steps_data : val) : Prop :=
  ∀ items, container_items h steps_data = Some items →
           multiple_paths h items = true → Forall (iterable h) items.

Definition steps_keyable (h : heap) (steps_data : val) : Prop :=
  ∀ l d, l ∈ step_objects h steps_data → h !! l = Some (ODict d) → keyable d.

Lemma annotate_steps_run idx h steps_data :
  index_wf h idx → paths_iterable h steps_data → steps_keyable h steps_data →
  ∃ h', annotate_steps steps_data idx h = Ok h' ∧
        run idx h (step_objects h steps_data) h'.
Proof.
  intros Hwf Hshape Hkey.
  unfold paths_iterable, steps_keyable, step_objects in *.
  unfold annotate_steps. unfold container_items in *.
  destruct (dict_at h steps_data) as [d|].
  - destruct (d !! "steps") as [steps_list|]; simpl in *.
    + destruct (list_at h steps_list) as [items|].
      * apply annotate_list_run; auto.
      * exists h. split; [reflexivity|apply run_refl].
    + exists h. split; [reflexivity|apply run_refl].
  - destruct (list_at h steps_data) as [items|].
    + apply annotate_list_run; auto.
    + exists h. split; [reflexivity|apply run_refl].
Qed.

(** ** The step annotator *)

(** The four recognized container shapes: a list, or an object whose
    [steps] field is a list; read as multiple paths, every entry of the
    list is itself a list. *)
Definition recognized (h : heap) (steps_data : val) : Prop :=
  ∃ items, container_items h steps_data = Some items ∧
           (multiple_paths h items = true →
            Forall (λ path, is_list h path = true) items).

Lemma is_list_true h v :
  is_list h v = true ↔ ∃ l items, v = VRef l ∧ h !! l = Some (OList items).
Proof.
  unfold is_list. rewrite bool_decide_eq_true. unfold list_at. split.
  - intros [items Hi]. destruct v; try discriminate.
    destruct (h !! l) as [[items'|]|] eqn:Hl; try discriminate. eauto.
  - intros (l & items & -> & ->). eauto.
Qed.

Lemma recognized_paths_iterable h steps_data :
  recognized h steps_data → paths_iterable h steps_data.
Proof.
  intros (items & Hitems & Hlists) items' Hitems' Hmulti.
  assert (items' = items) as -> by congruence.
  eapply Forall_impl; [exact (Hlists Hmulti)|].
  intros path Hpath. apply is_list_true in Hpath as (l & xs & -> & Hl).
  exists xs. simpl. now rewrite Hl.
Qed.

Lemma elem_of_dict_locs h items l :
  l ∈ dict_locs h items → ∃ d, h !! l = Some (ODict d).
Proof.
  unfold dict_locs. rewrite list_elem_of_omap. intros (v & _ & Hv).
  destruct v; try discriminate.
  destruct (is_dict h (VRef l0)) eqn:Hd; [|discriminate].
  injection Hv as ->. apply is_dict_true in Hd as (l' & d & [= <-] & Hl). eauto.
Qed.

Lemma step_objects_dict h steps_data l :
  l ∈ step_objects h steps_data → ∃ d, h !! l = Some (ODict d).
Proof.
  unfold step_objects, steps_in.
  destruct (container_items h steps_data) as [items|]; [|intros Hin; inversion Hin].
  destruct (multiple_paths h items).
  - rewrite list_elem_of_In, in_concat. intros (ls & Hls & Hl).
    apply list_elem_of_In, list_elem_of_fmap in Hls as (path & -> & _).
    apply list_elem_of_In in Hl. now apply elem_of_dict_locs in Hl.
  - apply elem_of_dict_locs.
Qed.

Lemma elem_of_dict_locs_steps_in h items l :
  l ∈ steps_in h items → ∃ d, h !! l = Some (ODict d).
Proof.
  unfold steps_in. destruct (multiple_paths h items).
  - rewrite list_elem_of_In, in_concat. intros (ls & Hls & Hl).
    apply list_elem_of_In, list_elem_of_fmap in Hls as (path & -> & _).
    apply list_elem_of_In in Hl. now apply elem_of_dict_locs in Hl.
  - apply elem_of_dict_locs.
Qed.

Lemma requirements_of_run idx h0 V h l d :
  run idx h0 V h → h0 !! l = Some (ODict d) → l ∈ V →
  requirements_of h l = Some (resolved idx h0 d).
Proof.
  intros Hrun Hl Hin.
  destruct (run_steps _ _ _ _ Hrun l d Hl Hin) as (r & Hd & _ & Hr).
  unfold requirements_of, dict_at. rewrite Hd. simpl.
  rewrite lookup_insert_eq. simpl. now rewrite Hr.
Qed.

(** C1: for every container in one of the four recognized shapes, the
    annotator returns, and afterwards every object-shaped step of the
    container, at the nesting level of its shape, has a [requirements]
    field holding a list: the list the index binds to its
    [(modelName, id)], or the empty list when there is no match. *)
Theorem annotate_total_coverage (h : heap) (steps_data : val) (idx : index) :
  recognized h steps_data → steps_keyable h steps_data → index_wf h idx →
  ∃ h',
    annotate_steps steps_data idx h = Ok h' ∧
    ∀ l, l ∈ step_objects h steps_data →
         ∃ d items, h !! l = Some (ODict d) ∧
                    requirements_of h' l = Some items ∧
                    items = resolved idx h d.
Proof.
  intros Hrec Hkey Hwf.
  destruct (annotate_steps_run idx h steps_data Hwf
              (recognized_paths_iterable _ _ Hrec) Hkey) as (h' & Hok & Hrun).
  exists h'. split; [exact Hok|].
  intros l Hin. destruct (step_objects_dict _ _ _ Hin) as (d & Hl).
  exists d, (resolved idx h d). split; [exact Hl|]. split; [|reflexivity].
  exact (requirements_of_run _ _ _ _ _ _ Hrun Hl Hin).
Qed.

Definition non_sequence_entry_store : heap := [OList [VRef 1; VInt 5]; OList []].

(** The single path [[5, {"id": [], "modelName": "M"}]]. *)
Definition unhashable_id_store : heap :=
  [ OList [VInt 5; VRef 1];
    ODict {[ "id" := VRef 2; "modelName" := VStr "M" ]};
    OList [] ].

(** C4 (as stated, refuted): in [[[], 5]] the first entry is a list, so
    the container is read as multiple paths, and iterating the entry [5]
    raises [TypeError].  The annotator also raises on a container whose
    non-object entries it does skip: in the single path
    [[5, {"id": [], "modelName": "M"}]] the key of the step cannot be
    hashed. *)
Lemma annotate_non_sequence_entry_counterexample :
  container_items non_sequence_entry_store (VRef 0) = Some [VRef 1; VInt 5] ∧
  multiple_paths non_sequence_entry_store [VRef 1; VInt 5] = true ∧
  annotate_steps (VRef 0) ∅ non_sequence_entry_store = Raise TypeError ∧
  container_items unhashable_id_store (VRef 0) = Some [VInt 5; VRef 1] ∧
  multiple_paths unhashable_id_store [VInt 5; VRef 1] = false ∧
  annotate_steps (VRef 0) ∅ unhashable_id_store = Raise TypeError.
Proof. repeat split. Qed.

(** An entry that is [None], a boolean or a number stops the loop over the
    paths. *)
Lemma annotate_paths_scalar_entry_raises h idx entry rest :
  match entry with VNone | VBool _ | VInt _ => True | _ => False end →
  annotate_paths (entry :: rest) idx h = Raise TypeError.
Proof. destruct entry; try contradiction; reflexivity. Qed.

(** A step whose [id] is a list cannot be looked up: hashing the key
    raises [TypeError]. *)
Example annotate_unhashable_id_raises :
  annotate_steps (VRef 0) ∅
    [ OList [VRef 1];
      ODict {[ "id" := VRef 2; "modelName" := VStr "M" ]};
      OList [] ]
  = Raise TypeError.
Proof. vm_compute. reflexivity. Qed.

(** C4 (amended): for every container in which, when it is read as
    multiple paths, every entry can be iterated, and in which the [id] and
    [modelName] of every object-shaped step are scalars (so that the key
    can be hashed), and for every index that binds lists, the annotator
    returns without raising and skips whatever is not an object-shaped
    step: every list of the store is left as it was, and so is every
    object that is not a step of the container. *)
Theorem annotate_skips_non_objects (h : heap) (steps_data : val) (idx : index) :
  paths_iterable h steps_data → steps_keyable h steps_data → index_wf h idx →
  ∃ h',
    annotate_steps steps_data idx h = Ok h' ∧
    (∀ l items, h !! l = Some (OList items) → h' !! l = Some (OList items)) ∧
    (∀ l d, h !! l = Some (ODict d) → l ∉ step_objects h steps_data →
            h' !! l = Some (ODict d)).
Proof.
  intros Hit Hkey Hwf.
  destruct (annotate_steps_run idx h steps_data Hwf Hit Hkey) as (h' & Hok & Hrun).
  exists h'. split; [exact Hok|]. split.
  - exact (run_lists _ _ _ _ Hrun).
  - exact (run_frame _ _ _ _ Hrun).
Qed.

(** C10: the annotator stores in every step a list object that did not
    exist before the call, with the contents resolved from the index; that
    object is not one the index binds, overwriting it leaves every list of
    the index as it was before the call, and two distinct steps never
    share it. *)
Theorem annotate_never_aliases_index (h : heap) (steps_data : val) (idx : index)
    (h' : heap) :
  paths_iterable h steps_data → steps_keyable h steps_data → index_wf h idx →
  annotate_steps steps_data idx h = Ok h' →
  (∀ l, l ∈ step_objects h steps_data →
     ∃ d0 d r, h !! l = Some (ODict d0) ∧
               h' !! l = Some (ODict d) ∧
               d !! "requirements" = Some (VRef r) ∧
               h' !! r = Some (OList (resolved idx h d0)) ∧
               h !! r = None ∧
               (∀ k, idx !! k ≠ Some r) ∧
               (∀ k ri o, idx !! k = Some ri → <[r := o]> h' !! ri = h !! ri)) ∧
  (∀ l1 l2 d1 d2 r,
     l1 ∈ step_objects h steps_data → l2 ∈ step_objects h steps_data →
     h' !! l1 = Some (ODict d1) → h' !! l2 = Some (ODict d2) →
     d1 !! "requirements" = Some (VRef r) → d2 !! "requirements" = Some (VRef r) →
     l1 = l2).
Proof.
  intros Hit Hkey Hwf Hok.
  destruct (annotate_steps_run idx h steps_data Hwf Hit Hkey) as (h1 & Hok1 & Hrun).
  assert (h1 = h') as -> by congruence.
  split; [|exact (run_owner _ _ _ _ Hrun)].
  intros l Hin. destruct (step_objects_dict _ _ _ Hin) as (d & Hl).
  destruct (run_steps _ _ _ _ Hrun l d Hl Hin) as (r & Hd & Hr0 & Hr).
  exists d, (<["requirements" := VRef r]> d), r.
  split; [exact Hl|]. split; [exact Hd|]. split; [apply lookup_insert_eq|].
  split; [exact Hr|].
  assert (Hindex : ∀ k ri, idx !! k = Some ri → ri < length h).
  { intros k ri Hk. destruct (Hwf k ri Hk) as (items & Hri).
    now apply lookup_lt_Some in Hri. }
  split; [now apply lookup_ge_None|]. split.
  - intros k Hk. apply Hindex in Hk. lia.
  - intros k ri o Hk. pose proof (Hindex k ri Hk).
    rewrite list_lookup_insert_ne by lia.
    destruct (Hwf k ri Hk) as (items & Hri).
    rewrite Hri. exact (run_lists _ _ _ _ Hrun ri items Hri).
Qed.

(** ** Running the annotator twice *)

Definition in_store (h : heap) (v : val) : Prop :=
  match v with VRef l => l < length h | _ => True end.

Definition obj_closed (h : heap) (o : obj) : Prop :=
  match o with
  | OList items => Forall (in_store h) items
  | ODict d => map_Forall (λ _, in_store h) d
  end.

(** A store without dangling references. *)
Definition closed (h : heap) : Prop := Forall (obj_closed h) h.

Lemma closed_list h l items :
  closed h → h !! l = Some (OList items) → Forall (in_store h) items.
Proof.
  intros Hc Hl. unfold closed in Hc. rewrite Forall_lookup in Hc.
  exact (Hc l _ Hl).
Qed.

Lemma closed_dict h l d k v :
  closed h → h !! l = Some (ODict d) → d !! k = Some v → in_store h v.
Proof.
  intros Hc Hl Hk. unfold closed in Hc. rewrite Forall_lookup in Hc.
  exact (Hc l _ Hl k v Hk).
Qed.

Lemma list_at_run idx h0 V h v :
  run idx h0 V h → in_store h0 v → list_at h v = list_at h0 v.
Proof.
  intros Hrun Hin. destruct v; try reflexivity. simpl in *.
  destruct (lookup_lt_is_Some_2 h0 l Hin) as [[items|d] Hl]; rewrite Hl.
  - now rewrite (run_lists _ _ _ _ Hrun l items Hl).
  - destruct (run_dict _ _ _ _ _ _ Hrun Hl) as (d' & -> & _). reflexivity.
Qed.

Lemma is_list_run idx h0 V h v :
  run idx h0 V h → in_store h0 v → is_list h v = is_list h0 v.
Proof.
  intros Hrun Hin. unfold is_list. now rewrite (list_at_run _ _ _ _ _ Hrun Hin).
Qed.

Lemma dict_locs_run idx h0 V h items :
  run idx h0 V h → dict_locs h items = dict_locs h0 items.
Proof.
  intros Hrun. induction items as [|v rest IH]; [reflexivity|].
  destruct (is_dict h0 v) eqn:Hd.
  - pose proof Hd as Hd'. apply is_dict_true in Hd' as (l & d & -> & _).
    rewrite !dict_locs_cons_dict, IH;
      [reflexivity|assumption|now rewrite (is_dict_run _ _ _ _ _ Hrun)].
  - rewrite !dict_locs_cons_other, IH;
      [reflexivity|assumption|now rewrite (is_dict_run _ _ _ _ _ Hrun)].
Qed.

Lemma dict_at_none_run idx h0 V h v :
  run idx h0 V h → dict_at h0 v = None → dict_at h v = None.
Proof.
  intros Hrun Hnone.
  assert (Hd : is_dict h v = false).
  { rewrite (is_dict_run _ _ _ _ _ Hrun). unfold is_dict. rewrite Hnone.
    apply bool_decide_eq_false. intros [? ?]. discriminate. }
  unfold is_dict in Hd. apply bool_decide_eq_false in Hd.
  destruct (dict_at h v); [|reflexivity]. destruct Hd. eauto.
Qed.

Lemma container_items_run idx h0 V h steps_data :
  run idx h0 V h → closed h0 → in_store h0 steps_data →
  container_items h steps_data = container_items h0 steps_data.
Proof.
  intros Hrun Hc Hin. unfold container_items.
  destruct (dict_at h0 steps_data) as [d|] eqn:Hd.
  - unfold dict_at in Hd. destruct steps_data as [| | | |l]; try discriminate.
    destruct (h0 !! l) as [[|d0]|] eqn:Hl; try discriminate. injection Hd as ->.
    destruct (run_dict _ _ _ _ _ _ Hrun Hl) as (d' & Hd' & Hshape).
    unfold dict_at. rewrite Hd'.
    assert (Hsteps : d' !! "steps" = d !! "steps").
    { destruct Hshape as [->|(r & -> & _)]; [reflexivity|].
      now rewrite lookup_insert_ne. }
    rewrite Hsteps. destruct (d !! "steps") as [steps_list|] eqn:Hs; [|reflexivity].
    simpl. apply (list_at_run _ _ _ _ _ Hrun).
    exact (closed_dict _ _ _ _ _ Hc Hl Hs).
  - rewrite (dict_at_none_run _ _ _ _ _ Hrun Hd).
    exact (list_at_run _ _ _ _ _ Hrun Hin).
Qed.

Lemma steps_in_run idx h0 V h items :
  run idx h0 V h → Forall (in_store h0) items →
  (multiple_paths h0 items = true → Forall (iterable h0) items) →
  steps_in h items = steps_in h0 items ∧
  (multiple_paths h items = true → Forall (iterable h) items).
Proof.
  intros Hrun Hin Hit. unfold steps_in.
  assert (Hmulti : multiple_paths h items = multiple_paths h0 items).
  { destruct items as [|first rest]; [reflexivity|]. simpl.
    inversion Hin; subst. now apply (is_list_run _ _ _ _ _ Hrun). }
  rewrite Hmulti. destruct (multiple_paths h0 items).
  - specialize (Hit eq_refl). split.
    + f_equal. apply Forall_fmap_ext. eapply Forall_impl; [exact Hit|].
      intros path [items0 Hp]. simpl.
      destruct (py_iter_run _ _ _ _ _ _ Hrun Hp) as (items' & Hp' & Hsame).
      unfold seq_of. rewrite Hp, Hp'.
      now rewrite (dict_locs_run _ _ _ _ _ Hrun).
    + intros _. eapply Forall_impl; [exact Hit|].
      intros path [items0 Hp].
      destruct (py_iter_run _ _ _ _ _ _ Hrun Hp) as (items' & Hp' & _).
      now exists items'.
  - split; [apply (dict_locs_run _ _ _ _ _ Hrun)|discriminate].
Qed.

Lemma container_items_closed h steps_data items :
  closed h → container_items h steps_data = Some items → Forall (in_store h) items.
Proof.
  intros Hc. unfold container_items, list_at.
  destruct (dict_at h steps_data) as [d|].
  - destruct (d !! "steps") as [[| | | |l]|]; try discriminate. simpl.
    destruct (h !! l) as [[xs|]|] eqn:Hl; try discriminate.
    intros [= <-]. exact (closed_list _ _ _ Hc Hl).
  - destruct steps_data as [| | | |l]; try discriminate.
    destruct (h !! l) as [[xs|]|] eqn:Hl; try discriminate.
    intros [= <-]. exact (closed_list _ _ _ Hc Hl).
Qed.

Lemma second_run_ready idx h0 V h steps_data :
  run idx h0 V h → closed h0 → in_store h0 steps_data →
  paths_iterable h0 steps_data → steps_keyable h0 steps_data →
  step_objects h steps_data = step_objects h0 steps_data ∧
  paths_iterable h steps_data ∧ steps_keyable h steps_data.
Proof.
  intros Hrun Hc Hin Hit Hkey.
  unfold step_objects, paths_iterable, steps_keyable in *.
  unfold step_objects in *.
  rewrite (container_items_run _ _ _ _ _ Hrun Hc Hin).
  destruct (container_items h0 steps_data) as [items|] eqn:Hitems.
  - destruct (steps_in_run idx h0 V h items Hrun
                (container_items_closed _ _ _ Hc Hitems) (Hit items eq_refl))
      as [Hsame Hit'].
    rewrite Hsame. split; [reflexivity|]. split.
    + intros items' [= <-]. exact Hit'.
    + intros l d' Hl Hd'.
      destruct (elem_of_dict_locs_steps_in h0 items l Hl) as (d & Hd).
      destruct (run_dict _ _ _ _ _ _ Hrun Hd) as (d1 & Hd1 & Hshape).
      assert (d1 = d') as -> by congruence.
      destruct Hshape as [->|(r & -> & _)].
      * exact (Hkey l d Hl Hd).
      * apply keyable_insert_requirements. exact (Hkey l d Hl Hd).
  - split; [reflexivity|]. split; [discriminate|].
    intros l d Hl. inversion Hl.
Qed.

(** C9: run a second time on the container it has annotated, with the
    same index, the annotator returns and leaves in every step a
    [requirements] list with the contents the first run left there. *)
Theorem annotate_idempotent (h : heap) (steps_data : val) (idx : index) (h1 : heap) :
  closed h → in_store h steps_data →
  recognized h steps_data → steps_keyable h steps_data → index_wf h idx →
  annotate_steps steps_data idx h = Ok h1 →
  ∃ h2,
    annotate_steps steps_data idx h1 = Ok h2 ∧
    step_objects h1 steps_data = step_objects h steps_data ∧
    ∀ l, l ∈ step_objects h steps_data →
         ∃ items, requirements_of h1 l = Some items ∧
                  requirements_of h2 l = Some items.
Proof.
  intros Hc Hin Hrec Hkey Hwf Hok.
  pose proof (recognized_paths_iterable _ _ Hrec) as Hit.
  destruct (annotate_steps_run idx h steps_data Hwf Hit Hkey) as (h' & Hok' & Hrun).
  assert (h' = h1) as -> by congruence.
  destruct (second_run_ready idx h _ h1 steps_data Hrun Hc Hin Hit Hkey)
    as (Hsame & Hit1 & Hkey1).
  pose proof (index_wf_run _ _ _ _ Hrun Hwf) as Hwf1.
  destruct (annotate_steps_run idx h1 steps_data Hwf1 Hit1 Hkey1)
    as (h2 & Hok2 & Hrun2).
  exists h2. split; [exact Hok2|]. split; [exact Hsame|].
  intros l Hl. destruct (step_objects_dict _ _ _ Hl) as (d & Hd).
  exists (resolved idx h d). split.
  - exact (requirements_of_run _ _ _ _ _ _ Hrun Hd Hl).
  - destruct (run_dict _ _ _ _ _ _ Hrun Hd) as (d1 & Hd1 & Hshape).
    rewrite (requirements_of_run idx h1 _ h2 l d1 Hrun2 Hd1)
      by (rewrite Hsame; exact Hl).
    f_equal. rewrite (resolved_run _ _ _ _ _ Hrun Hwf).
    destruct Hshape as [->|(r & -> & _)]; [reflexivity|].
    apply resolved_insert_requirements.
Qed.

(** ** Concrete runs *)

#[global] Instance in_store_dec h v : Decision (in_store h v).
Proof. destruct v; simpl; apply _. Defined.

#[global] Instance obj_closed_dec h o : Decision (obj_closed h o).
Proof. destruct o; simpl; apply _. Defined.

#[global] Instance closed_dec h : Decision (closed h).
Proof. unfold closed. apply _. Defined.

Definition example_index : index := {[ (AStr "M", AStr "e1") := 5 ]}.

Lemma example_closed : closed example_store.
Proof. apply (bool_decide_unpack _). vm_compute. exact I. Qed.

Lemma example_recognized : recognized example_store (VRef 6).
Proof.
  exists [VRef 7]. split; [reflexivity|]. intros Hmulti. discriminate Hmulti.
Qed.

Lemma example_steps_keyable : steps_keyable example_store (VRef 6).
Proof.
  intros l d Hin Hl.
  change (step_objects example_store (VRef 6)) with [7] in Hin.
  apply list_elem_of_singleton in Hin as ->.
  injection Hl as <-. split; vm_compute; exact I.
Qed.

Lemma example_index_wf : index_wf example_store example_index.
Proof.
  unfold example_index. intros k r Hk. apply lookup_singleton_Some in Hk as [_ <-].
  eexists. reflexivity.
Qed.

Lemma annotate_total_coverage_witness :
  recognized example_store (VRef 6) ∧
  steps_keyable example_store (VRef 6) ∧
  index_wf example_store example_index ∧
  ∃ h',
    annotate_steps (VRef 6) example_index example_store = Ok h' ∧
    ∀ l, l ∈ step_objects example_store (VRef 6) →
         ∃ d items, example_store !! l = Some (ODict d) ∧
                    requirements_of h' l = Some items ∧
                    items = resolved example_index example_store d.
Proof.
  split; [exact example_recognized|].
  split; [exact example_steps_keyable|].
  split; [exact example_index_wf|].
  exact (annotate_total_coverage example_store (VRef 6) example_index
           example_recognized example_steps_keyable example_index_wf).
Defined.

Definition annotated_example : heap :=
  match annotate_steps (VRef 6) example_index example_store with
  | Ok h => h
  | Raise _ => []
  end.

Lemma annotated_example_ok :
  annotate_steps (VRef 6) example_index example_store = Ok annotated_example.
Proof. vm_compute. reflexivity. Qed.

Lemma annotate_idempotent_witness :
  closed example_store ∧ in_store example_store (VRef 6) ∧
  recognized example_store (VRef 6) ∧
  steps_keyable example_store (VRef 6) ∧
  index_wf example_store example_index ∧
  annotate_steps (VRef 6) example_index example_store = Ok annotated_example ∧
  ∃ h2,
    annotate_steps (VRef 6) example_index annotated_example = Ok h2 ∧
    step_objects annotated_example (VRef 6) = step_objects example_store (VRef 6) ∧
    ∀ l, l ∈ step_objects example_store (VRef 6) →
         ∃ items, requirements_of annotated_example l = Some items ∧
                  requirements_of h2 l = Some items.
Proof.
  assert (Hin : in_store example_store (VRef 6)) by (simpl; lia).
  split; [exact example_closed|].
  split; [exact Hin|].
  split; [exact example_recognized|].
  split; [exact example_steps_keyable|].
  split; [exact example_index_wf|].
  split; [exact annotated_example_ok|].
  exact (annotate_idempotent example_store (VRef 6) example_index annotated_example
           example_closed Hin example_recognized example_steps_keyable
           example_index_wf annotated_example_ok).
Defined.

Example annotate_twice_example :
  requirements_of annotated_example 7 = Some [VStr "R-1"; VStr "R-2"] ∧
  (let! h2 := annotate_steps (VRef 6) example_index annotated_example in
   Ok (requirements_of h2 7)) = Ok (Some [VStr "R-1"; VStr "R-2"]).
Proof. vm_compute. split; reflexivity. Qed.

(** A container read as multiple paths whose entries are a list, a string
    and an object, with two steps for the same indexed element. *)
Definition mixed_store : heap :=
  [ (* 0 *) OList [VRef 1; VStr "ab"; VRef 2];
    (* 1 *) OList [VRef 2; VInt 5; VNone; VRef 4];
    (* 2 *) ODict {[ "id" := VStr "e1"; "modelName" := VStr "M" ]};
    (* 3 *) OList [VStr "R-1"];
    (* 4 *) ODict {[ "id" := VStr "e1"; "modelName" := VStr "M" ]} ].

Definition mixed_index : index := {[ (AStr "M", AStr "e1") := 3 ]}.

Lemma mixed_paths_iterable : paths_iterable mixed_store (VRef 0).
Proof.
  intros items [= <-] _. repeat constructor; eexists; reflexivity.
Qed.

Lemma mixed_steps_keyable : steps_keyable mixed_store (VRef 0).
Proof.
  intros l d Hin Hl.
  change (step_objects mixed_store (VRef 0)) with [2; 4] in Hin.
  apply elem_of_cons in Hin as [->|Hin];
    [|apply list_elem_of_singleton in Hin as ->];
    injection Hl as <-; split; vm_compute; exact I.
Qed.

Lemma mixed_index_wf : index_wf mixed_store mixed_index.
Proof.
  unfold mixed_index. intros k r Hk. apply lookup_singleton_Some in Hk as [_ <-].
  eexists. reflexivity.
Qed.

Lemma annotate_skips_non_objects_witness :
  paths_iterable mixed_store (VRef 0) ∧
  steps_keyable mixed_store (VRef 0) ∧
  index_wf mixed_store mixed_index ∧
  ∃ h',
    annotate_steps (VRef 0) mixed_index mixed_store = Ok h' ∧
    (∀ l items, mixed_store !! l = Some (OList items) → h' !! l = Some (OList items)) ∧
    (∀ l d, mixed_store !! l = Some (ODict d) →
            l ∉ step_objects mixed_store (VRef 0) →
            h' !! l = Some (ODict d)).
Proof.
  split; [exact mixed_paths_iterable|].
  split; [exact mixed_steps_keyable|].
  split; [exact mixed_index_wf|].
  exact (annotate_skips_non_objects mixed_store (VRef 0) mixed_index
           mixed_paths_iterable mixed_steps_keyable mixed_index_wf).
Defined.

Definition annotated_mixed : heap :=
  match annotate_steps (VRef 0) mixed_index mixed_store with
  | Ok h => h
  | Raise _ => []
  end.

Lemma annotated_mixed_ok :
  annotate_steps (VRef 0) mixed_index mixed_store = Ok annotated_mixed.
Proof. vm_compute. reflexivity. Qed.

Lemma annotate_never_aliases_index_witness :
  paths_iterable mixed_store (VRef 0) ∧
  steps_keyable mixed_store (VRef 0) ∧
  index_wf mixed_store mixed_index ∧
  annotate_steps (VRef 0) mixed_index mixed_store = Ok annotated_mixed ∧
  (∀ l, l ∈ step_objects mixed_store (VRef 0) →
     ∃ d0 d r, mixed_store !! l = Some (ODict d0) ∧
               annotated_mixed !! l = Some (ODict d) ∧
               d !! "requirements" = Some (VRef r) ∧
               annotated_mixed !! r = Some (OList (resolved mixed_index mixed_store d0)) ∧
               mixed_store !! r = None ∧
               (∀ k, mixed_index !! k ≠ Some r) ∧
               (∀ k ri o, mixed_index !! k = Some ri →
                          <[r := o]> annotated_mixed !! ri = mixed_store !! ri)) ∧
  (∀ l1 l2 d1 d2 r,
     l1 ∈ step_objects mixed_store (VRef 0) →
     l2 ∈ step_objects mixed_store (VRef 0) →
     annotated_mixed !! l1 = Some (ODict d1) →
     annotated_mixed !! l2 = Some (ODict d2) →
     d1 !! "requirements" = Some (VRef r) →
     d2 !! "requirements" = Some (VRef r) →
     l1 = l2).
Proof.
  split; [exact mixed_paths_iterable|].
  split; [exact mixed_steps_keyable|].
  split; [exact mixed_index_wf|].
  split; [exact annotated_mixed_ok|].
  exact (annotate_never_aliases_index mixed_store (VRef 0) mixed_index annotated_mixed
           mixed_paths_iterable mixed_steps_keyable mixed_index_wf
           annotated_mixed_ok).
Defined.

Example mixed_run_example :
  requirements_of annotated_mixed 2 = Some [VStr "R-1"] ∧
  requirements_of annotated_mixed 4 = Some [VStr "R-1"] ∧
  (dict_at annotated_mixed (VRef 2) ≫= (.!! "requirements")) = Some (VRef 5) ∧
  (dict_at annotated_mixed (VRef 4) ≫= (.!! "requirements")) = Some (VRef 6) ∧
  annotated_mixed !! 3 = Some (OList [VStr "R-1"]).
Proof. vm_compute. repeat split. Qed.

(** ** The requirements index *)

(** [v.get(k)] as a total function: [None] when [v] is not a dict. *)
Definition field (h : heap) (v : val) (k : string) : val :=
  match dict_at h v with
  | Some d => default VNone (d !! k)
  | None => VNone
  end.

(** The elements of the array [v]; none when [v] is not a list. *)
Definition array (h : heap) (v : val) : list val := default [] (list_at h v).

(** The edges, or the vertices, of a model: the array in its field [k]. *)
Definition sequence (h : heap) (model : val) (k : string) : list val :=
  array h (field h model k).

(** The [models] field of [v], when [v] is an object that has one. *)
Definition models_field (h : heap) (v : val) : option val :=
  d ← dict_at h v; d !! "models".

(** Where a collection holds its models, in the words of the
    specification: in the [models] field of a single object; or, for a
    sequence, in the [models] field of its first object that has one, the
    other entries being ignored.  Any other shape holds no models. *)
Definition models_entry (h : heap) (models_data : val) : option val :=
  match dict_at h models_data with
  | Some d => d !! "models"
  | None => items ← list_at h models_data; head (omap (models_field h) items)
  end.

(** The models of a collection, in order. *)
Definition models_of (h : heap) (models_data : val) : list val :=
  match models_entry h models_data with
  | Some models => array h models
  | None => []
  end.

(** Every element of the collection with its model, in the order of
    construction: the models in order and, within a model, all its edges
    in order before all its vertices in order. *)
Definition elements_in_order (h : heap) (models : list val) : list (val * val) :=
  concat ((λ model, pair model <$> (sequence h model "edges" ++ sequence h model "vertices"))
            <$> models).

(** A value as a component of a key: [True] and [1] are the same key, as
    are [False] and [0]; a list or an object cannot be part of a key. *)
Definition atom_of (v : val) : option atom :=
  match v with
  | VNone => Some ANone
  | VBool b => Some (AInt (if b then 1 else 0))
  | VInt z => Some (AInt z)
  | VStr s => Some (AStr s)
  | VRef _ => None
  end.

(** The key [(modelName, elementId)]: the model name first, the element id
    second. *)
Definition key_of (model_name element_id : val) : option Key :=
  ka ← atom_of model_name; kb ← atom_of element_id; Some (ka, kb).

Lemma make_key_key_of a b :
  make_key a b = match key_of a b with Some k => Ok k | None => Raise TypeError end.
Proof. destruct a, b; reflexivity. Qed.

(** The element [me.2] of the model [me.1] carries the key [k]: the model
    has a name and the element an id (neither is missing or empty), the
    two make up [k], and the [requirements] field of the element is a
    list. *)
Definition declares (h : heap) (k : Key) (me : val * val) : bool :=
  let name := field h me.1 "name" in
  let id := field h me.2 "id" in
  truthy h name && truthy h id
  && match key_of name id with Some k' => bool_decide (k' = k) | None => false end
  && is_list h (field h me.2 "requirements").

(** The last element of [E] that declares [k]. *)
Definition last_declaration (h : heap) (k : Key) (E : list (val * val))
    : option (val * val) :=
  last (List.filter (declares h k) E).

Lemma last_declaration_snoc h k E me :
  last_declaration h k (E ++ [me])
  = if declares h k me then Some me else last_declaration h k E.
Proof.
  unfold last_declaration. rewrite List.filter_app. simpl.
  destruct (declares h k me).
  - apply last_snoc.
  - now rewrite app_nil_r.
Qed.

Lemma last_declaration_skip h k E E' :
  Forall (λ me, declares h k me = false) E' →
  last_declaration h k (E ++ E') = last_declaration h k E.
Proof.
  intros Hskip. unfold last_declaration. rewrite List.filter_app.
  replace (List.filter (declares h k) E') with (@nil (val * val));
    [now rewrite app_nil_r|].
  induction Hskip as [|me rest Hme _ IH]; [reflexivity|].
  simpl. now rewrite Hme.
Qed.

(** *** Reading the model data while the index grows

    The construction only appends list objects to the store, so whatever
    it reads from the model data is what the initial store holds. *)

Section Reading.
Variables h hc : heap.
Hypothesis Hclosed : closed h.
Hypothesis Hext : h `prefix_of` hc.

Lemma read_lookup l o : h !! l = Some o → hc !! l = Some o.
Proof. intros Hl. exact (prefix_lookup_Some _ _ _ _ Hl Hext). Qed.

Lemma read_dict_at v : in_store h v → dict_at hc v = dict_at h v.
Proof.
  destruct v; try reflexivity. simpl. intros Hin.
  destruct (lookup_lt_is_Some_2 h l Hin) as [o Hl].
  now rewrite Hl, (read_lookup _ _ Hl).
Qed.

Lemma read_list_at v : in_store h v → list_at hc v = list_at h v.
Proof.
  destruct v; try reflexivity. simpl. intros Hin.
  destruct (lookup_lt_is_Some_2 h l Hin) as [o Hl].
  now rewrite Hl, (read_lookup _ _ Hl).
Qed.

Lemma read_truthy v : in_store h v → truthy hc v = truthy h v.
Proof.
  destruct v; try reflexivity. simpl. intros Hin.
  destruct (lookup_lt_is_Some_2 h l Hin) as [o Hl].
  now rewrite Hl, (read_lookup _ _ Hl).
Qed.

Lemma read_py_iter v : in_store h v → py_iter hc v = py_iter h v.
Proof.
  destruct v; try reflexivity. simpl. intros Hin.
  destruct (lookup_lt_is_Some_2 h l Hin) as [o Hl].
  now rewrite Hl, (read_lookup _ _ Hl).
Qed.

Lemma field_in_store v k : in_store h (field h v k).
Proof.
  unfold field, dict_at. destruct v; try exact I.
  destruct (h !! l) as [[|d]|] eqn:Hl; try exact I.
  destruct (d !! k) as [x|] eqn:Hk; [|exact I].
  exact (closed_dict _ _ _ _ _ Hclosed Hl Hk).
Qed.

Lemma read_get_method v k :
  is_dict h v = true → get_method hc v k = Ok (field h v k).
Proof.
  intros Hd. apply is_dict_true in Hd as (l & d & -> & Hl).
  unfold get_method, field, dict_at. now rewrite Hl, (read_lookup _ _ Hl).
Qed.

Lemma read_get_iter v k :
  is_dict h v = true → get_iter hc v k = get_iter h v k.
Proof.
  intros Hd. apply is_dict_true in Hd as (l & d & -> & Hl).
  unfold get_iter, dict_at. rewrite Hl, (read_lookup _ _ Hl).
  destruct (d !! k) as [x|] eqn:Hk; [|reflexivity].
  apply read_py_iter. exact (closed_dict _ _ _ _ _ Hclosed Hl Hk).
Qed.
End Reading.

(** *** Construction *)

(** An element is an object whose [id] is a scalar. *)
Definition element_ok (h : heap) (element : val) : Prop :=
  is_dict h element = true ∧ scalar (field h element "id").

(** The field [k] of a model, when present, is an array of elements. *)
Definition elements_ok (h : heap) (model : val) (k : string) : Prop :=
  match dict_at h model ≫= (.!! k) with
  | Some v => is_list h v = true ∧ Forall (element_ok h) (array h v)
  | None => True
  end.

(** A model is an object; when it has a name, the name is a scalar and its
    [edges] and [vertices], when present, are arrays of elements. *)
Definition model_ok (h : heap) (model : val) : Prop :=
  is_dict h model = true ∧
  (truthy h (field h model "name") = true →
   scalar (field h model "name") ∧
   elements_ok h model "edges" ∧ elements_ok h model "vertices").

(** A well-formed model collection: where it holds models, they are an
    array of models. *)
Definition collection_ok (h : heap) (models_data : val) : Prop :=
  match models_entry h models_data with
  | Some models => is_list h models = true ∧ Forall (model_ok h) (array h models)
  | None => True
  end.

#[global] Instance scalar_dec v : Decision (scalar v).
Proof. destruct v; simpl; apply _. Defined.

#[global] Instance element_ok_dec h element : Decision (element_ok h element).
Proof. unfold element_ok. apply _. Defined.

#[global] Instance elements_ok_dec h model k : Decision (elements_ok h model k).
Proof. unfold elements_ok. destruct (dict_at h model ≫= _); apply _. Defined.

#[global] Instance model_ok_dec h model : Decision (model_ok h model).
Proof. unfold model_ok. apply _. Defined.

#[global] Instance collection_ok_dec h models_data : Decision (collection_ok h models_data).
Proof. unfold collection_ok. destruct (models_entry h models_data); apply _. Defined.

(** Iterating an array visits its elements. *)
Lemma py_iter_array h v : is_list h v = true → py_iter h v = Ok (array h v).
Proof.
  intros Hl. apply is_list_true in Hl as (l & items & -> & Hl).
  unfold array, list_at. simpl. now rewrite Hl.
Qed.

(** The loop over the edges, or the vertices, of a well-formed model
    visits the elements of the field. *)
Lemma model_ok_elements h model k :
  is_dict h model = true → elements_ok h model k →
  get_iter h model k = Ok (sequence h model k) ∧
  Forall (element_ok h) (sequence h model k).
Proof.
  intros Hd Hok. apply is_dict_true in Hd as (l & d & -> & Hl).
  unfold elements_ok, get_iter, sequence, field, dict_at in *. rewrite Hl in *.
  simpl in Hok. destruct (d !! k) as [v|]; simpl in *.
  - destruct Hok as [Hlist Hall]. split; [now apply py_iter_array|exact Hall].
  - split; [reflexivity|constructor].
Qed.

(** The scan of a sequence for its first object with a [models] field. *)
Lemma first_models_head h items :
  first_models h items = head (omap (models_field h) items).
Proof.
  induction items as [|item rest IH]; [reflexivity|].
  cbn [first_models omap list_omap]. unfold models_field at 1.
  destruct (dict_at h item) as [d|]; simpl; [|exact IH].
  destruct (d !! "models"); [reflexivity|exact IH].
Qed.

(** The normalisation in the code yields the models the collection holds. *)
Lemma extract_models_list_models h models_data :
  collection_ok h models_data →
  let extracted := _extract_models_list models_data h in
  py_iter (fst extracted) (snd extracted) = Ok (models_of h models_data).
Proof.
  assert (Hnew : py_iter (fst (new_empty_list h)) (snd (new_empty_list h)) = Ok []).
  { unfold new_empty_list, alloc. simpl.
    rewrite lookup_app_r by lia. now rewrite Nat.sub_diag. }
  unfold collection_ok, models_of, models_entry, _extract_models_list. cbn zeta.
  destruct (dict_at h models_data) as [d|].
  - destruct (d !! "models") as [v|]; [|intros _; exact Hnew].
    intros [Hlist _]. now apply py_iter_array.
  - destruct (list_at h models_data) as [items|]; simpl; [|intros _; exact Hnew].
    rewrite first_models_head.
    destruct (head (omap (models_field h) items)) as [v|]; [|intros _; exact Hnew].
    intros [Hlist _]. now apply py_iter_array.
Qed.

Lemma collection_ok_models h models_data :
  collection_ok h models_data → Forall (model_ok h) (models_of h models_data).
Proof.
  unfold collection_ok, models_of.
  destruct (models_entry h models_data); [now intros [_ H]|constructor].
Qed.

(** The index [req_map] in the store [hc] reflects the elements [E] of the
    initial store [h]: every key is bound to a copy of the requirements of
    the last element of [E] that declares it. *)
Definition indexed (h : heap) (E : list (val * val)) (req_map : index) (hc : heap)
    : Prop :=
  ∀ k, match last_declaration h k E with
       | Some me =>
           ∃ r items,
             req_map !! k = Some r ∧
             list_at h (field h me.2 "requirements") = Some items ∧
             hc !! r = Some (OList items) ∧
             h !! r = None
       | None => req_map !! k = None
       end.

Lemma truthy_scalar h1 h2 v : scalar v → truthy h1 v = truthy h2 v.
Proof. destruct v; simpl; intros; try reflexivity. contradiction. Qed.

Lemma indexed_skip h E me req_map hc :
  (∀ k, declares h k me = false) →
  indexed h E req_map hc → indexed h (E ++ [me]) req_map hc.
Proof.
  intros Hno Hidx k. rewrite last_declaration_snoc, Hno. apply Hidx.
Qed.

Lemma indexed_insert h E model element req_map hc key items :
  h `prefix_of` hc →
  (∀ k, declares h k (model, element) = bool_decide (key = k)) →
  list_at h (field h element "requirements") = Some items →
  indexed h E req_map hc →
  indexed h (E ++ [(model, element)]) (<[key := length hc]> req_map)
    (hc ++ [OList items]).
Proof.
  intros Hext Hdecl Hitems Hidx k.
  rewrite last_declaration_snoc, Hdecl.
  destruct (decide (key = k)) as [->|Hne].
  - rewrite bool_decide_eq_true_2 by reflexivity.
    exists (length hc), items. simpl.
    split; [apply lookup_insert_eq|]. split; [exact Hitems|]. split.
    + rewrite lookup_app_r by lia. now rewrite Nat.sub_diag.
    + apply lookup_ge_None. now apply prefix_length.
  - rewrite bool_decide_eq_false_2 by assumption.
    specialize (Hidx k). destruct (last_declaration h k E) as [me|].
    + destruct Hidx as (r & items' & Hr & Hi & Hhc & Hfresh).
      exists r, items'. rewrite lookup_insert_ne by assumption.
      split; [exact Hr|]. split; [exact Hi|]. split; [|exact Hfresh].
      apply lookup_app_l_Some. exact Hhc.
    + now rewrite lookup_insert_ne.
Qed.

Lemma index_elements_spec h model name elements : ∀ E req_map hc,
  closed h → h `prefix_of` hc →
  name = field h model "name" → truthy h name = true → scalar name →
  Forall (element_ok h) elements →
  indexed h E req_map hc →
  ∃ req_map' hc',
    index_elements name elements req_map hc = Ok (req_map', hc') ∧
    h `prefix_of` hc' ∧
    indexed h (E ++ (pair model <$> elements)) req_map' hc'.
Proof.
  induction elements as [|element rest IH];
    intros E req_map hc Hc Hext Hname Htrue Hscalar Hok Hidx.
  - exists req_map, hc. simpl. rewrite app_nil_r. auto.
  - apply Forall_cons in Hok as [[Hdict Hid] Hrest].
    assert (Hcons : E ++ (pair model <$> element :: rest)
                    = (E ++ [(model, element)]) ++ (pair model <$> rest))
      by (simpl; now rewrite <- app_assoc).
    rewrite Hcons.
    cbn [index_elements].
    rewrite (read_get_method h hc Hext element "id" Hdict). cbn [bind].
    rewrite (truthy_scalar hc h _ Hid).
    destruct (truthy h (field h element "id")) eqn:Hidtrue; cbn [negb].
    + rewrite (read_get_method h hc Hext element "requirements" Hdict). cbn [bind].
      rewrite (read_list_at h hc Hext _ (field_in_store h Hc element "requirements")).
      destruct (list_at h (field h element "requirements")) as [items|] eqn:Hitems.
      * destruct (make_key_scalar name _ Hscalar Hid) as (key & Hkey).
        rewrite Hkey. cbn [bind alloc fst snd].
        assert (Hkey' : key_of name (field h element "id") = Some key).
        { rewrite make_key_key_of in Hkey. destruct (key_of _ _); congruence. }
        apply IH; try assumption.
        { apply prefix_app_r. exact Hext. }
        apply indexed_insert; try assumption.
        intros k. unfold declares. cbn [fst snd].
        rewrite <- Hname, Htrue, Hidtrue, Hkey'. unfold is_list. rewrite Hitems.
        cbn [andb]. rewrite andb_true_r. reflexivity.
      * apply IH; try assumption.
        apply indexed_skip; [|assumption].
        intros k. unfold declares. cbn [fst snd]. unfold is_list. rewrite Hitems.
        apply andb_false_r.
    + apply IH; try assumption.
      apply indexed_skip; [|assumption].
      intros k. unfold declares. cbn [fst snd]. rewrite Hidtrue.
      now rewrite andb_false_r.
Qed.

Lemma models_loop_spec h models : ∀ E req_map hc,
  closed h → h `prefix_of` hc →
  Forall (model_ok h) models →
  indexed h E req_map hc →
  ∃ req_map' hc',
    models_loop models req_map hc = Ok (req_map', hc') ∧
    h `prefix_of` hc' ∧
    indexed h (E ++ elements_in_order h models) req_map' hc'.
Proof.
  induction models as [|model rest IH]; intros E req_map hc Hc Hext Hok Hidx.
  - exists req_map, hc. unfold elements_in_order. simpl. rewrite app_nil_r. auto.
  - apply Forall_cons in Hok as [[Hdict Hmodel] Hrest].
    unfold elements_in_order. cbn [fmap list_fmap concat].
    fold (elements_in_order h rest). rewrite app_assoc.
    cbn [models_loop].
    rewrite (read_get_method h hc Hext model "name" Hdict). cbn [bind].
    rewrite (read_truthy h hc Hext _ (field_in_store h Hc model "name")).
    destruct (truthy h (field h model "name")) eqn:Hname; cbn [negb].
    + destruct (Hmodel eq_refl) as (Hscalar & Hedges_ok & Hvs_ok).
      destruct (model_ok_elements h model "edges" Hdict Hedges_ok) as [Hedges HE].
      destruct (model_ok_elements h model "vertices" Hdict Hvs_ok) as [Hvs HV].
      rewrite (read_get_iter h hc Hc Hext model "edges" Hdict), Hedges. cbn [bind].
      destruct (index_elements_spec h model _ (sequence h model "edges") E req_map hc
                  Hc Hext eq_refl Hname Hscalar HE Hidx)
        as (m1 & h1 & -> & Hext1 & Hidx1).
      cbn [bind fst snd].
      rewrite (read_get_iter h h1 Hc Hext1 model "vertices" Hdict), Hvs. cbn [bind].
      destruct (index_elements_spec h model _ (sequence h model "vertices") _ m1 h1
                  Hc Hext1 eq_refl Hname Hscalar HV Hidx1)
        as (m2 & h2 & -> & Hext2 & Hidx2).
      cbn [bind fst snd].
      apply IH; try assumption.
      rewrite fmap_app, app_assoc. exact Hidx2.
    + apply IH; try assumption.
      intros k. rewrite last_declaration_skip; [apply Hidx|].
      apply Forall_fmap, Forall_forall. intros element _.
      unfold declares. cbn [fst snd compose]. now rewrite Hname.
Qed.

Lemma extract_models_list_extends models_data h :
  h `prefix_of` fst (_extract_models_list models_data h).
Proof.
  unfold _extract_models_list, new_empty_list, alloc.
  repeat case_match; simpl; try reflexivity; now apply prefix_app_r.
Qed.

Lemma build_indexed h models_data :
  closed h → collection_ok h models_data →
  ∃ idx h',
    build_requirements_map models_data h = Ok (idx, h') ∧
    h `prefix_of` h' ∧
    indexed h (elements_in_order h (models_of h models_data)) idx h'.
Proof.
  intros Hc Hok.
  unfold build_requirements_map. cbn zeta.
  rewrite (extract_models_list_models h models_data Hok). cbn [bind].
  apply (models_loop_spec h (models_of h models_data) [] ∅
           (fst (_extract_models_list models_data h)) Hc
           (extract_models_list_extends models_data h)
           (collection_ok_models h models_data Hok)).
  intros k. unfold last_declaration. simpl. apply lookup_empty.
Qed.

(** The index that the construction returns binds list objects, as the
    annotator expects. *)
Lemma build_index_wf h models_data idx h' :
  closed h → collection_ok h models_data →
  build_requirements_map models_data h = Ok (idx, h') →
  index_wf h' idx.
Proof.
  intros Hc Hok Hbuild.
  destruct (build_indexed h models_data Hc Hok) as (idx1 & h1 & Hb & _ & Hidx).
  rewrite Hbuild in Hb. injection Hb as <- <-.
  intros k r Hk. specialize (Hidx k).
  destruct (last_declaration _ _ _).
  - destruct Hidx as (r' & items & Hr' & _ & Hitems & _).
    exists items. congruence.
  - congruence.
Qed.

(** C6: for every well-formed model collection (a single object with a
    [models] array, or a sequence whose first object with a [models] field
    holds the array), the construction returns an index in which every key
    [(modelName, elementId)] is bound to a copy of the requirements of the
    last element of the collection, among those that carry the key and
    whose [requirements] field is a list, the models being taken in order
    and, within a model, all edges in order before all vertices in order;
    a key no such element carries is not bound. *)
Theorem build_last_wins (h : heap) (models_data : val) :
  closed h → collection_ok h models_data →
  ∃ idx h',
    build_requirements_map models_data h = Ok (idx, h') ∧
    ∀ k,
      match last_declaration h k (elements_in_order h (models_of h models_data)) with
      | Some me =>
          ∃ r items,
            idx !! k = Some r ∧
            list_at h (field h me.2 "requirements") = Some items ∧
            h' !! r = Some (OList items) ∧
            h !! r = None
      | None => idx !! k = None
      end.
Proof.
  intros Hc Hok.
  destruct (build_indexed h models_data Hc Hok) as (idx & h' & Hb & _ & Hidx).
  exists idx, h'. split; [exact Hb|exact Hidx].
Qed.

(** A model [M] in which two edges and a vertex have the id [x]. *)
Definition duplicate_store : heap :=
  [ (* 0 *) ODict {[ "models" := VRef 1 ]};
    (* 1 *) OList [VRef 2];
    (* 2 *) ODict {[ "name" := VStr "M"; "edges" := VRef 3; "vertices" := VRef 4 ]};
    (* 3 *) OList [VRef 5; VRef 6];
    (* 4 *) OList [VRef 7];
    (* 5 *) ODict {[ "id" := VStr "x"; "requirements" := VRef 8 ]};
    (* 6 *) ODict {[ "id" := VStr "x"; "requirements" := VRef 9 ]};
    (* 7 *) ODict {[ "id" := VStr "x"; "requirements" := VRef 10 ]};
    (* 8 *) OList [VStr "R-1"];
    (* 9 *) OList [VStr "R-2"];
    (* 10 *) OList [VStr "R-3"] ].

Lemma duplicate_closed : closed duplicate_store.
Proof. apply (bool_decide_unpack _). vm_compute. exact I. Qed.

Lemma duplicate_collection_ok : collection_ok duplicate_store (VRef 0).
Proof. apply (bool_decide_unpack _). vm_compute. exact I. Qed.

Lemma build_last_wins_witness :
  closed duplicate_store ∧ collection_ok duplicate_store (VRef 0) ∧
  ∃ idx h',
    build_requirements_map (VRef 0) duplicate_store = Ok (idx, h') ∧
    ∀ k,
      match last_declaration duplicate_store k
              (elements_in_order duplicate_store (models_of duplicate_store (VRef 0))) with
      | Some me =>
          ∃ r items,
            idx !! k = Some r ∧
            list_at duplicate_store (field duplicate_store me.2 "requirements")
            = Some items ∧
            h' !! r = Some (OList items) ∧
            duplicate_store !! r = None
      | None => idx !! k = None
      end.
Proof.
  split; [exact duplicate_closed|].
  split; [exact duplicate_collection_ok|].
  exact (build_last_wins duplicate_store (VRef 0)
           duplicate_closed duplicate_collection_ok).
Defined.

(** A sequence around the object that holds the models: the entries
    before and after it are ignored. *)
Definition wrapped_store : heap :=
  [ (* 0 *) OList [VInt 3; VRef 1; VRef 2; VRef 3];
    (* 1 *) ODict {[ "version" := VInt 1 ]};
    (* 2 *) ODict {[ "models" := VRef 4 ]};
    (* 3 *) ODict {[ "models" := VRef 5 ]};
    (* 4 *) OList [VRef 6];
    (* 5 *) OList [];
    (* 6 *) ODict {[ "name" := VStr "M"; "vertices" := VRef 7 ]};
    (* 7 *) OList [VRef 8];
    (* 8 *) ODict {[ "id" := VStr "n1"; "requirements" := VRef 9 ]};
    (* 9 *) OList [VStr "R-7"] ].

Example build_wrapped_example :
  models_of wrapped_store (VRef 0) = [VRef 6] ∧
  elements_in_order wrapped_store (models_of wrapped_store (VRef 0))
  = [(VRef 6, VRef 8)] ∧
  (let! built := build_requirements_map (VRef 0) wrapped_store in
   Ok (fst built !! (AStr "M", AStr "n1") ≫= λ r, list_at (snd built) (VRef r)))
  = Ok (Some [VStr "R-7"]).
Proof. vm_compute. repeat split. Qed.

Example build_duplicate_example :
  elements_in_order duplicate_store (models_of duplicate_store (VRef 0))
  = [(VRef 2, VRef 5); (VRef 2, VRef 6); (VRef 2, VRef 7)] ∧
  last_declaration duplicate_store (AStr "M", AStr "x")
    (elements_in_order duplicate_store (models_of duplicate_store (VRef 0)))
  = Some (VRef 2, VRef 7) ∧
  (let! built := build_requirements_map (VRef 0) duplicate_store in
   Ok (fst built !! (AStr "M", AStr "x") ≫= λ r, list_at (snd built) (VRef r)))
  = Ok (Some [VStr "R-3"]).
Proof. vm_compute. repeat split. Qed.

End MergeProofs.

(** * Further properties of path_cleanup.py *)

Module PathCleanupMore.
Import PathCleanup PathCleanupProofs.
Local Open Scope nat_scope.

(** ** The vertex scans *)

Lemma _is_vertex_raises step e : _is_vertex step = Raise e → e = AttributeError.
Proof.
  unfold _is_vertex, get_method. destruct step; cbn [bind]; try (now intros [= <-]).
  unfold startswith_method. destruct (match dict_get d "name" with Some x => x | None => _ end);
    now intros [= <-].
Qed.

Lemma _is_edge_raises step e : _is_edge step = Raise e → e = AttributeError.
Proof.
  unfold _is_edge, get_method. destruct step; cbn [bind]; try (now intros [= <-]).
  unfold startswith_method. destruct (match dict_get d "name" with Some x => x | None => _ end);
    now intros [= <-].
Qed.

(** What a scan returns: the first vertex, behind steps that are not
    vertices; or nothing, when no step is a vertex; or the exception of the
    first step that cannot be classified. *)
Lemma scan_vertex_spec l :
  match scan_vertex l with
  | Ok (Some v) =>
      ∃ pre post, l = pre ++ v :: post ∧
                  Forall (λ s, _is_vertex s = Ok false) pre ∧
                  _is_vertex v = Ok true
  | Ok None => Forall (λ s, _is_vertex s = Ok false) l
  | Raise e =>
      e = AttributeError ∧
      ∃ pre s post, l = pre ++ s :: post ∧
                    Forall (λ s, _is_vertex s = Ok false) pre ∧
                    _is_vertex s = Raise AttributeError
  end.
Proof.
  induction l as [|s r IH]; simpl; [constructor|].
  destruct (_is_vertex s) as [[|]|e] eqn:Hs; cbn [bind].
  - exists [], r. split; [reflexivity|]. split; [constructor|exact Hs].
  - destruct (scan_vertex r) as [[v|]|e].
    + destruct IH as (pre & post & -> & Hpre & Hv).
      exists (s :: pre), post. split; [reflexivity|].
      split; [constructor; assumption|exact Hv].
    + constructor; assumption.
    + destruct IH as (-> & pre & s' & post & -> & Hpre & Hs').
      split; [reflexivity|]. exists (s :: pre), s', post. split; [reflexivity|].
      split; [constructor; assumption|exact Hs'].
  - pose proof (_is_vertex_raises _ _ Hs) as ->.
    split; [reflexivity|]. exists [], s, r. split; [reflexivity|].
    split; [constructor|exact Hs].
Qed.

Lemma lookup_drop_split {A} (path : list A) idx pre x post :
  drop (S idx) path = pre ++ x :: post →
  path !! (S idx + length pre) = Some x ∧
  ∀ k y, idx < k < S idx + length pre → path !! k = Some y → y ∈ pre.
Proof.
  intros Hdrop. split.
  - rewrite <- lookup_drop, Hdrop. apply list_lookup_middle. reflexivity.
  - intros k y [Hlo Hhi] Hk.
    replace k with (S idx + (k - S idx)) in Hk by lia.
    rewrite <- lookup_drop, Hdrop in Hk.
    rewrite lookup_app_l in Hk by lia.
    eapply list_elem_of_lookup_2. exact Hk.
Qed.

Lemma lookup_take_rev_split {A} (path : list A) idx pre x post :
  rev (take idx path) = pre ++ x :: post →
  length post < idx ∧
  path !! length post = Some x ∧
  ∀ k y, length post < k < idx → path !! k = Some y → y ∈ pre.
Proof.
  intros Hrev.
  assert (Htake : take idx path = rev post ++ x :: rev pre).
  { rewrite <- (rev_involutive (take idx path)), Hrev, rev_app_distr. simpl.
    now rewrite <- app_assoc. }
  assert (Hlen : length (take idx path) = length post + S (length pre)).
  { rewrite Htake, length_app. simpl. now rewrite !length_rev. }
  assert (Hidx : length (take idx path) ≤ idx) by (rewrite length_take; lia).
  split; [lia|]. split.
  - rewrite <- (lookup_take_lt path idx) by lia.
    rewrite Htake. apply list_lookup_middle. now rewrite length_rev.
  - intros k y [Hlo Hhi] Hk.
    rewrite <- (lookup_take_lt path idx) in Hk by lia.
    rewrite Htake in Hk.
    rewrite lookup_app_r in Hk by (rewrite length_rev; lia).
    rewrite length_rev in Hk.
    destruct (k - length post) as [|n] eqn:Hn; [lia|].
    simpl in Hk. apply list_elem_of_lookup_2 in Hk.
    apply list_elem_of_In, in_rev in Hk. now apply list_elem_of_In.
Qed.

(** X1: [_find_next_vertex] returns the nearest vertex after position
    [idx]: a vertex at a position [j > idx] with no vertex strictly between;
    it returns [None] exactly when it has found every later step not to be
    a vertex; and it raises only [AttributeError], on a later step that
    cannot be classified. *)
Theorem find_next_vertex_nearest (path : list json) (idx : nat) :
  match _find_next_vertex path idx with
  | Ok (Some v) =>
      ∃ j, idx < j ∧ path !! j = Some v ∧ _is_vertex v = Ok true ∧
           ∀ k s, idx < k < j → path !! k = Some s → _is_vertex s = Ok false
  | Ok None => ∀ k s, idx < k → path !! k = Some s → _is_vertex s = Ok false
  | Raise e =>
      e = AttributeError ∧
      ∃ j s, idx < j ∧ path !! j = Some s ∧ _is_vertex s = Raise AttributeError
  end.
Proof.
  unfold _find_next_vertex.
  pose proof (scan_vertex_spec (drop (S idx) path)) as Hscan.
  destruct (scan_vertex (drop (S idx) path)) as [[v|]|e].
  - destruct Hscan as (pre & post & Hdrop & Hpre & Hv).
    destruct (lookup_drop_split _ _ _ _ _ Hdrop) as [Hj Hbetween].
    exists (S idx + length pre). split; [lia|]. split; [exact Hj|]. split; [exact Hv|].
    intros k s Hk Hs. rewrite Forall_forall in Hpre. apply Hpre.
    exact (Hbetween k s Hk Hs).
  - intros k s Hk Hs. rewrite Forall_forall in Hscan. apply Hscan.
    replace k with (S idx + (k - S idx)) in Hs by lia.
    rewrite <- lookup_drop in Hs. eapply list_elem_of_lookup_2. exact Hs.
  - destruct Hscan as (-> & pre & s & post & Hdrop & _ & Hs).
    split; [reflexivity|].
    destruct (lookup_drop_split _ _ _ _ _ Hdrop) as [Hj _].
    exists (S idx + length pre), s. split; [lia|]. split; assumption.
Qed.

(** X2: for a position [idx] within the path (or just behind its end),
    [_find_prev_vertex] returns the nearest vertex before [idx]: a vertex at
    a position [j < idx] with no vertex strictly between; it returns [None]
    exactly when it has found every earlier step not to be a vertex; and it
    raises [AttributeError] on an earlier step that cannot be classified.
    For a position beyond the length of the path it raises [IndexError],
    and it does so in no other case. *)
Theorem find_prev_vertex_nearest (path : list json) (idx : nat) :
  match _find_prev_vertex path idx with
  | Ok (Some v) =>
      idx ≤ length path ∧
      ∃ j, j < idx ∧ path !! j = Some v ∧ _is_vertex v = Ok true ∧
           ∀ k s, j < k < idx → path !! k = Some s → _is_vertex s = Ok false
  | Ok None =>
      idx ≤ length path ∧
      ∀ k s, k < idx → path !! k = Some s → _is_vertex s = Ok false
  | Raise e =>
      (e = IndexError ∧ length path < idx) ∨
      (e = AttributeError ∧ idx ≤ length path ∧
       ∃ j s, j < idx ∧ path !! j = Some s ∧ _is_vertex s = Raise AttributeError)
  end.
Proof.
  unfold _find_prev_vertex.
  destruct (Nat.ltb_spec (length path) idx) as [Hout|Hin]; [left; split; [reflexivity|lia]|].
  pose proof (scan_vertex_spec (rev (take idx path))) as Hscan.
  destruct (scan_vertex (rev (take idx path))) as [[v|]|e].
  - destruct Hscan as (pre & post & Hrev & Hpre & Hv).
    destruct (lookup_take_rev_split _ _ _ _ _ Hrev) as (Hlt & Hj & Hbetween).
    split; [exact Hin|].
    exists (length post). split; [exact Hlt|]. split; [exact Hj|]. split; [exact Hv|].
    intros k s Hk Hs. rewrite Forall_forall in Hpre. apply Hpre.
    exact (Hbetween k s Hk Hs).
  - split; [exact Hin|].
    intros k s Hk Hs. rewrite Forall_forall in Hscan. apply Hscan.
    apply list_elem_of_In, in_rev. rewrite rev_involutive. apply list_elem_of_In.
    rewrite <- (lookup_take_lt path idx) in Hs by lia.
    eapply list_elem_of_lookup_2. exact Hs.
  - destruct Hscan as (-> & pre & s & post & Hrev & _ & Hs).
    right. split; [reflexivity|]. split; [exact Hin|].
    destruct (lookup_take_rev_split _ _ _ _ _ Hrev) as (Hlt & Hj & _).
    exists (length post), s. split; [exact Hlt|]. split; assumption.
Qed.

(** The edge at the end of a path looks back to the vertex before it; a
    position two steps behind the end is out of range. *)
Example find_prev_vertex_example :
  _find_prev_vertex
    [JObj [("name", JStr "v_A")]; JObj [("name", JStr "e_go")]] 1
  = Ok (Some (JObj [("name", JStr "v_A")])) ∧
  _find_prev_vertex
    [JObj [("name", JStr "v_A")]; JObj [("name", JStr "e_go")]] 2
  = Ok (Some (JObj [("name", JStr "v_A")])) ∧
  _find_prev_vertex
    [JObj [("name", JStr "v_A")]; JObj [("name", JStr "e_go")]] 3
  = Raise IndexError.
Proof. repeat split. Qed.

(** ** Strings *)

(** Every character of [s] satisfies [P]. *)
Definition all_chars (P : ascii → Prop) (s : string) : Prop :=
  Forall P (list_ascii_of_string s).

Lemma all_chars_nil P : all_chars P "".
Proof. constructor. Qed.

Lemma all_chars_cons P c s : all_chars P (String c s) ↔ P c ∧ all_chars P s.
Proof. unfold all_chars. simpl. apply Forall_cons. Qed.

Lemma all_chars_app P s t : all_chars P s → all_chars P t → all_chars P (s +:+ t).
Proof.
  intros Hs Ht. induction s as [|c s IH]; [exact Ht|].
  apply all_chars_cons in Hs as [Hc Hs].
  change (String c s +:+ t) with (String c (s +:+ t)).
  apply all_chars_cons. auto.
Qed.

Lemma all_chars_lstrip P p s : all_chars P s → all_chars P (PyStr.lstrip_with p s).
Proof.
  induction s as [|c s IH]; intros Hs; simpl; [exact Hs|].
  destruct (p c); [|exact Hs]. apply all_chars_cons in Hs as [_ Hs]. auto.
Qed.

Lemma all_chars_rstrip P p s : all_chars P s → all_chars P (PyStr.rstrip_with p s).
Proof.
  induction s as [|c s IH]; intros Hs; simpl; [exact Hs|].
  apply all_chars_cons in Hs as [Hc Hs]. specialize (IH Hs).
  destruct (PyStr.rstrip_with p s).
  - destruct (p c); [constructor|]. apply all_chars_cons. split; [exact Hc|constructor].
  - apply all_chars_cons. auto.
Qed.

Lemma all_chars_strip P s : all_chars P s → all_chars P (PyStr.strip s).
Proof. intros Hs. now apply all_chars_rstrip, all_chars_lstrip. Qed.

Lemma all_chars_cons_head P c l :
  P c → Forall (all_chars P) l → Forall (all_chars P) (PyStr.cons_head c l).
Proof.
  intros Hc Hl. destruct l as [|h t]; simpl.
  - constructor; [|constructor]. apply all_chars_cons. split; [exact Hc|constructor].
  - apply Forall_cons in Hl as [Hh Ht]. constructor; [|exact Ht].
    apply all_chars_cons. auto.
Qed.

(** No piece of [s.split(sep)] contains the separator. *)
Lemma split_no_separator sep s :
  Forall (all_chars (λ c, c ≠ sep)) (PyStr.split sep s).
Proof.
  induction s as [|c s IH]; simpl.
  - constructor; [apply all_chars_nil|constructor].
  - destruct (Ascii.eqb c sep) eqn:Hc.
    + constructor; [apply all_chars_nil|exact IH].
    + apply all_chars_cons_head; [|exact IH]. now apply Ascii.eqb_neq.
Qed.

Lemma all_chars_split P sep s :
  all_chars P s → Forall (all_chars P) (PyStr.split sep s).
Proof.
  induction s as [|c s IH]; intros Hs; simpl.
  - constructor; [apply all_chars_nil|constructor].
  - apply all_chars_cons in Hs as [Hc Hs]. specialize (IH Hs).
    destruct (Ascii.eqb c sep).
    + constructor; [apply all_chars_nil|exact IH].
    + now apply all_chars_cons_head.
Qed.

Lemma all_chars_camel_tail P s :
  all_chars P s → Forall (all_chars P) (PyStr.camel_tail s).
Proof.
  induction s as [|c s IH]; intros Hs; simpl.
  - constructor; [apply all_chars_nil|constructor].
  - apply all_chars_cons in Hs as [Hc Hs]. specialize (IH Hs).
    destruct (PyStr.is_AZ c).
    + constructor; [apply all_chars_nil|]. now apply all_chars_cons_head.
    + now apply all_chars_cons_head.
Qed.

Lemma all_chars_camel_split P s :
  all_chars P s → Forall (all_chars P) (PyStr.camel_split s).
Proof.
  destruct s as [|c s]; intros Hs; simpl.
  - constructor; [apply all_chars_nil|constructor].
  - apply all_chars_cons in Hs as [Hc Hs].
    apply all_chars_cons_head; [exact Hc|]. now apply all_chars_camel_tail.
Qed.

Lemma all_chars_map P f s :
  (∀ c, P c → P (f c)) → all_chars P s → all_chars P (PyStr.map_chars f s).
Proof.
  intros Hf. induction s as [|c s IH]; intros Hs; simpl; [exact Hs|].
  apply all_chars_cons in Hs as [Hc Hs]. apply all_chars_cons. auto.
Qed.

Lemma all_chars_join P sep l :
  all_chars P sep → Forall (all_chars P) l → all_chars P (PyStr.join sep l).
Proof.
  intros Hsep. unfold PyStr.join.
  induction 1 as [|x l Hx Hl IH]; simpl; [apply all_chars_nil|].
  destruct l as [|y l]; [exact Hx|].
  change (all_chars P (x +:+ (sep +:+ String.concat sep (y :: l)))).
  apply all_chars_app; [exact Hx|]. apply all_chars_app; [exact Hsep|exact IH].
Qed.

Lemma all_chars_string_drop P n s : all_chars P s → all_chars P (string_drop n s).
Proof.
  unfold string_drop. revert n. induction s as [|c s IH]; intros n Hs.
  - destruct n; exact Hs.
  - apply all_chars_cons in Hs as [Hc Hs]. destruct n as [|n].
    + simpl. apply all_chars_cons. split; [exact Hc|].
      clear IH. induction s as [|c' s IH']; [constructor|].
      apply all_chars_cons in Hs as [Hc' Hs]. simpl.
      apply all_chars_cons. split; [exact Hc'|]. now apply IH'.
    + simpl. now apply IH.
Qed.

Lemma lower_char_not_underscore c : c ≠ "_"%char → PyStr.lower_char c ≠ "_"%char.
Proof.
  destruct c as [[] [] [] [] [] [] [] []]; vm_compute; congruence.
Qed.

Lemma title_char_not_underscore c :
  c ≠ "_"%char → all_chars (λ c, c ≠ "_"%char) (PyStr.title_char c).
Proof.
  destruct c as [[] [] [] [] [] [] [] []]; intros Hc; vm_compute;
    repeat constructor; first [discriminate | contradiction].
Qed.

Lemma no_underscore_lower s :
  all_chars (λ c, c ≠ "_"%char) s → all_chars (λ c, c ≠ "_"%char) (PyStr.lower s).
Proof. apply all_chars_map, lower_char_not_underscore. Qed.

Lemma no_underscore_capitalize s :
  all_chars (λ c, c ≠ "_"%char) s → all_chars (λ c, c ≠ "_"%char) (PyStr.capitalize s).
Proof.
  destruct s as [|c s]; intros Hs; [exact Hs|].
  apply all_chars_cons in Hs as [Hc Hs]. cbn [PyStr.capitalize].
  apply all_chars_app; [now apply title_char_not_underscore|now apply no_underscore_lower].
Qed.

Lemma nonempty_true s : PyStr.nonempty s = true ↔ s ≠ "".
Proof. destruct s; simpl; split; congruence. Qed.

(** ** Display names *)

Abbreviation no_underscore := (all_chars (λ c, c ≠ "_"%char)).

Lemma join_nonempty sep x l : x ≠ "" → PyStr.join sep (x :: l) ≠ "".
Proof.
  intros Hx. unfold PyStr.join. simpl. destruct l; [exact Hx|].
  destruct x; [congruence|]. discriminate.
Qed.

Lemma capitalize_nonempty s : s ≠ "" → PyStr.capitalize s ≠ "".
Proof.
  destruct s as [|c s]; [congruence|]. intros _. cbn [PyStr.capitalize].
  unfold PyStr.title_char. destruct (PyStr.is_lower c); [discriminate|].
  destruct (_ =? _)%nat; discriminate.
Qed.

Lemma Forall_filter_nonempty (P : string → Prop) l :
  Forall P l → Forall (λ s, P s ∧ s ≠ "") (List.filter PyStr.nonempty l).
Proof.
  induction 1 as [|x l Hx _ IH]; simpl; [constructor|].
  destruct (PyStr.nonempty x) eqn:Hn; [|exact IH].
  constructor; [|exact IH]. split; [exact Hx|now apply nonempty_true].
Qed.

(** The pieces between underscores are all empty exactly when the string
    consists of underscores only. *)
Lemma split_underscores_only s :
  List.filter PyStr.nonempty (PyStr.split "_" s) = []
  ↔ all_chars (λ c, c = "_"%char) s.
Proof.
  induction s as [|c s IH]; simpl.
  - split; [intros _; apply all_chars_nil|reflexivity].
  - rewrite all_chars_cons. destruct (Ascii.eqb c "_") eqn:Hc.
    + apply Ascii.eqb_eq in Hc. simpl. rewrite IH. tauto.
    + apply Ascii.eqb_neq in Hc. split; [|tauto].
      destruct (PyStr.split "_" s); simpl; discriminate.
Qed.

(** The name an edge display name is built from: the raw name without its
    [e_] prefix. *)
Definition edge_stem (raw_name : string) : string :=
  if PyStr.startswith "e_" raw_name then string_drop 2 raw_name else raw_name.

(** The names on which the embedding of [str.capitalize] is Python's:
    no character is the micro sign U+00B5 or the y with diaeresis U+00FF,
    whose title-case forms lie outside U+0000..U+00FF. *)
Definition in_range (raw_name : string) : Prop :=
  all_chars (λ c, PyStr.title_in_range c = true) raw_name.

(** X3: for a name within the range of the embedding, an edge name that,
    after its [e_] prefix, consists of underscores only (or is empty) is
    displayed unchanged; any other edge name gets a non-empty display name
    without underscores. *)
Theorem format_edge_description_shape (raw_name : string) :
  in_range raw_name →
  (all_chars (λ c, c = "_"%char) (edge_stem raw_name) ∧
   _format_edge_description raw_name = raw_name)
  ∨
  (¬ all_chars (λ c, c = "_"%char) (edge_stem raw_name) ∧
   _format_edge_description raw_name ≠ "" ∧
   no_underscore (_format_edge_description raw_name)).
Proof.
  intros _.
  unfold _format_edge_description. fold (edge_stem raw_name).
  pose proof (split_underscores_only (edge_stem raw_name)) as Hiff.
  pose proof (Forall_filter_nonempty _ _ (split_no_separator "_" (edge_stem raw_name)))
    as Hparts.
  destruct (List.filter PyStr.nonempty (PyStr.split "_" (edge_stem raw_name)))
    as [|first rest].
  - left. split; [now apply Hiff|reflexivity].
  - right. split; [intros Hall; apply Hiff in Hall; discriminate|].
    apply Forall_cons in Hparts as [[Hfirst Hne] Hrest]. split.
    + apply join_nonempty. now apply capitalize_nonempty.
    + apply all_chars_join.
      * apply all_chars_cons. split; [discriminate|apply all_chars_nil].
      * constructor; [now apply no_underscore_capitalize|].
        apply Forall_fmap. eapply Forall_impl; [exact Hrest|].
        intros s [Hs _]. now apply no_underscore_lower.
Qed.

Lemma words_of_segment_shape seg :
  no_underscore seg →
  Forall (λ w, no_underscore w ∧ w ≠ "") (words_of_segment seg).
Proof.
  intros Hseg. unfold words_of_segment.
  assert (Hpieces : Forall no_underscore
                      (List.map PyStr.strip (PyStr.camel_split seg))).
  { apply Forall_fmap. eapply Forall_impl; [exact (all_chars_camel_split _ _ Hseg)|].
    intros p Hp. now apply all_chars_strip. }
  apply Forall_filter_nonempty in Hpieces.
  apply Forall_fmap. eapply Forall_impl; [exact Hpieces|].
  intros p [Hp Hne]. split; [now apply no_underscore_capitalize|].
  now apply capitalize_nonempty.
Qed.

(** The edge name [e_élan_ÉTÉ], with letters outside ASCII: it is displayed
    as [Élan été]. *)
Definition accented_edge_name : string :=
  "e_" +:+ String "233"%char "lan_" +:+ String "201"%char "T"
       +:+ String "201"%char "".

Lemma format_edge_description_shape_witness :
  in_range accented_edge_name ∧
  ((all_chars (λ c, c = "_"%char) (edge_stem accented_edge_name) ∧
    _format_edge_description accented_edge_name = accented_edge_name)
   ∨
   (¬ all_chars (λ c, c = "_"%char) (edge_stem accented_edge_name) ∧
    _format_edge_description accented_edge_name ≠ "" ∧
    no_underscore (_format_edge_description accented_edge_name))).
Proof.
  assert (H : in_range accented_edge_name) by (repeat constructor).
  split; [exact H|]. exact (format_edge_description_shape accented_edge_name H).
Defined.

Example format_edge_description_accented :
  _format_edge_description accented_edge_name
  = String "201"%char "lan " +:+ String "233"%char "t" +:+ String "233"%char "".
Proof. vm_compute. reflexivity. Qed.

Example format_edge_description_examples :
  _format_edge_description "e_load_default_data" = "Load default data" ∧
  _format_edge_description "e_Load__DEFAULT_data_" = "Load default data" ∧
  _format_edge_description "restart" = "Restart" ∧
  _format_edge_description "e___" = "e___" ∧
  _format_edge_description "" = "".
Proof. vm_compute. repeat split. Qed.

(** X4: for a name within the range of the embedding, a vertex display
    name is either the raw name, unchanged, or a non-empty string without
    underscores. *)
Theorem format_vertex_description_shape (raw_name : string) :
  in_range raw_name →
  _format_vertex_description raw_name = raw_name
  ∨ (_format_vertex_description raw_name ≠ "" ∧
     no_underscore (_format_vertex_description raw_name)).
Proof.
  intros _.
  unfold _format_vertex_description.
  set (name := if PyStr.startswith "v_" raw_name then _ else _).
  assert (Hwords : Forall (λ w, no_underscore w ∧ w ≠ "")
            (List.concat (List.map words_of_segment
               (List.filter PyStr.nonempty (PyStr.split "_" name))))).
  { pose proof (Forall_filter_nonempty _ _ (split_no_separator "_" name)) as Hsegs.
    induction Hsegs as [|seg segs [Hseg _] _ IH]; simpl; [constructor|].
    apply Forall_app. split; [now apply words_of_segment_shape|exact IH]. }
  destruct (List.concat _) as [|w ws]; [now left|].
  right. apply Forall_cons in Hwords as [[Hw Hne] Hws]. split.
  - now apply join_nonempty.
  - apply all_chars_join.
    + apply all_chars_cons. split; [discriminate|apply all_chars_nil].
    + constructor; [exact Hw|]. eapply Forall_impl; [exact Hws|]. now intros s [Hs _].
Qed.

(** The vertex name [vÉlan_détailForm]: the [v] in front of an upper-case
    letter is dropped, and the name is displayed as [Élan Détail Form]. *)
Definition accented_vertex_name : string :=
  "v" +:+ String "201"%char "lan_d" +:+ String "233"%char "tailForm".

Lemma format_vertex_description_shape_witness :
  in_range accented_vertex_name ∧
  (_format_vertex_description accented_vertex_name = accented_vertex_name
   ∨ (_format_vertex_description accented_vertex_name ≠ "" ∧
      no_underscore (_format_vertex_description accented_vertex_name))).
Proof.
  assert (H : in_range accented_vertex_name) by (repeat constructor).
  split; [exact H|]. exact (format_vertex_description_shape accented_vertex_name H).
Defined.

Example format_vertex_description_accented :
  _format_vertex_description accented_vertex_name
  = String "201"%char "lan D" +:+ String "233"%char "tail Form".
Proof. vm_compute. reflexivity. Qed.

Example format_vertex_description_examples :
  _format_vertex_description "v_ContactDetailForm" = "Contact Detail Form" ∧
  _format_vertex_description "vContactDetailForm" = "Contact Detail Form" ∧
  _format_vertex_description "v_contact_detail" = "Contact Detail" ∧
  _format_vertex_description "v_HTTPServer" = "H T T P Server" ∧
  _format_vertex_description "vertex" = "Vertex" ∧
  _format_vertex_description "v__" = "v__".
Proof. vm_compute. repeat split. Qed.

(** ** Trimming *)

Lemma rstrip_with_idem p s :
  PyStr.rstrip_with p (PyStr.rstrip_with p s) = PyStr.rstrip_with p s.
Proof.
  induction s as [|c s IH]; [reflexivity|]. simpl.
  destruct (PyStr.rstrip_with p s) as [|c' s'] eqn:Hs.
  - destruct (p c) eqn:Hc; [reflexivity|]. simpl. now rewrite Hc.
  - cbn [PyStr.rstrip_with]. cbn [PyStr.rstrip_with] in IH. rewrite IH. reflexivity.
Qed.

Lemma lstrip_with_head p s :
  PyStr.lstrip_with p s = ""
  ∨ ∃ c r, PyStr.lstrip_with p s = String c r ∧ p c = false.
Proof.
  induction s as [|c s IH]; simpl; [now left|].
  destruct (p c) eqn:Hc; [exact IH|]. right. eauto.
Qed.

Lemma rstrip_with_keeps_head p c r :
  p c = false → ∃ r', PyStr.rstrip_with p (String c r) = String c r'.
Proof.
  intros Hc. simpl. destruct (PyStr.rstrip_with p r); [rewrite Hc|]; eauto.
Qed.

(** [s.strip().strip() == s.strip()] *)
Lemma strip_idem s : PyStr.strip (PyStr.strip s) = PyStr.strip s.
Proof.
  unfold PyStr.strip.
  destruct (lstrip_with_head PyStr.is_space s) as [->|(c & r & -> & Hc)];
    [reflexivity|].
  destruct (rstrip_with_keeps_head _ c r Hc) as (r' & Hr').
  rewrite Hr'. cbn [PyStr.lstrip_with]. rewrite Hc, <- Hr'.
  apply rstrip_with_idem.
Qed.

(** ** Requirements normalisation *)

(** X5: the pieces a string entry of a requirements list contributes are
    non-empty, contain no comma and have no surrounding whitespace. *)
Theorem requirement_parts_trimmed (s : string) :
  Forall (λ p, p ≠ "" ∧ all_chars (λ c, c ≠ ","%char) p ∧ PyStr.strip p = p)
    (requirement_parts (JStr s)).
Proof.
  cbn [requirement_parts].
  assert (Hpieces : Forall (λ p, all_chars (λ c, c ≠ ","%char) p ∧ PyStr.strip p = p)
                      (List.map PyStr.strip (PyStr.split "," s))).
  { apply Forall_fmap. eapply Forall_impl; [exact (split_no_separator "," s)|].
    intros p Hp. simpl. split; [now apply all_chars_strip|apply strip_idem]. }
  apply Forall_filter_nonempty in Hpieces.
  eapply Forall_impl; [exact Hpieces|]. intros p [[Hc Hs] Hne]. auto.
Qed.

(** The requirements entries of a source step: its [requirements] list, a
    lone value as a one-element list, nothing when the field is missing or
    falsy. *)
Definition requirement_entries (src : json) : list json :=
  match src with
  | JObj d =>
      match dict_get d "requirements" with
      | Some v => if truthy v then match v with JList l => l | _ => [v] end else []
      | None => []
      end
  | _ => []
  end.

(** The pieces of one entry, in the words of the specification: a string
    is split on commas, each piece is trimmed and the non-empty pieces are
    kept; any other value is stringified and trimmed; [None] gives
    nothing. *)
Definition pieces_of (entry : json) : list string :=
  match entry with
  | JNull => []
  | JStr s =>
      List.filter (λ piece, negb (String.eqb piece ""))
        (PyStr.strip <$> PyStr.split "," s)
  | other => [PyStr.strip (py_repr other)]
  end.

Lemma requirement_parts_pieces entry : requirement_parts entry = pieces_of entry.
Proof.
  destruct entry; try reflexivity. cbn [requirement_parts pieces_of].
  induction (PyStr.split "," s) as [|piece rest IH]; [reflexivity|].
  cbn [List.map fmap list_fmap List.filter]. rewrite <- IH.
  destruct (PyStr.strip piece); reflexivity.
Qed.

(** All the pieces of all the sources, in order, before deduplication. *)
Definition raw_parts (sources : list (option json)) : list string :=
  List.concat
    (List.map (λ o, match o with
                    | Some src => List.concat (List.map pieces_of
                                                 (requirement_entries src))
                    | None => []
                    end) sources).

Definition source_ok (o : option json) : Prop :=
  match o with Some src => is_obj src | None => True end.

Lemma collect_raw_spec sources : ∀ raw,
  Forall source_ok sources →
  collect_raw sources raw = Ok (raw ++ raw_parts sources).
Proof.
  induction sources as [|o rest IH]; intros raw Hs.
  - simpl. now rewrite app_nil_r.
  - apply Forall_cons in Hs as [Ho Hrest]. unfold raw_parts. cbn [List.map List.concat].
    fold (raw_parts rest). destruct o as [src|]; cbn [collect_raw]; [|now apply IH].
    destruct src; try contradiction.
    destruct d as [|kv d'].
    + cbn [truthy negb]. simpl. now apply IH.
    + cbn [truthy negb get_method bind]. rewrite IH by assumption.
      rewrite (List.map_ext _ _ requirement_parts_pieces).
      rewrite <- app_assoc. f_equal. f_equal. unfold requirement_entries.
      destruct (dict_get (kv :: d') "requirements") as [v|]; [|reflexivity].
      destruct (truthy v) eqn:Hv; [|reflexivity]. reflexivity.
Qed.

Lemma unique_loop_spec raw : ∀ seen result,
  ∃ added,
    unique_loop raw seen result = result ++ added ∧
    added `sublist_of` raw ∧
    NoDup added ∧
    (∀ r, r ∈ added ↔ r ∈ raw ∧ r ≠ "" ∧ r ∉ seen).
Proof.
  induction raw as [|x rest IH]; intros seen result.
  - exists []. simpl. rewrite app_nil_r. split; [reflexivity|]. split; [constructor|].
    split; [constructor|]. intros r. split; [intros Hr; inversion Hr|].
    intros [Hr _]. inversion Hr.
  - cbn [unique_loop].
    destruct (PyStr.nonempty x && negb (bool_decide (x ∈ seen))) eqn:Hx.
    + apply andb_true_iff in Hx as [Hne Hseen]. apply nonempty_true in Hne.
      apply negb_true_iff, bool_decide_eq_false in Hseen.
      destruct (IH ({[x]} ∪ seen) (result ++ [x])) as (added & -> & Hsub & Hnd & Hin).
      exists (x :: added). split; [now rewrite <- app_assoc|].
      split; [now apply sublist_skip|]. split.
      * constructor; [|exact Hnd]. intros Hxa. apply Hin in Hxa as (_ & _ & Hxs).
        apply Hxs. apply elem_of_union. left. now apply elem_of_singleton.
      * intros r. rewrite !elem_of_cons, Hin, elem_of_union, elem_of_singleton.
        split.
        -- intros [->|(Hr & Hrne & Hrs)]; [tauto|]. tauto.
        -- intros ([->|Hr] & Hrne & Hrs); [tauto|].
           destruct (decide (r = x)); [tauto|]. right. tauto.
    + destruct (IH seen result) as (added & -> & Hsub & Hnd & Hin).
      exists added. split; [reflexivity|]. split; [now apply sublist_cons|].
      split; [exact Hnd|]. intros r. rewrite Hin, elem_of_cons. split; [tauto|].
      intros ([->|Hr] & Hrne & Hrs); [|tauto]. exfalso.
      apply andb_false_iff in Hx as [Hx|Hx].
      * apply Hrne. destruct x; [reflexivity|discriminate].
      * apply negb_false_iff, bool_decide_eq_true in Hx. contradiction.
Qed.

(** The entries of [rest], which starts at index [i] of [raw], that are
    not empty and do not occur at an earlier position of [raw]. *)
Fixpoint first_pieces_from (raw : list string) (i : nat) (rest : list string)
    : list string :=
  match rest with
  | [] => []
  | r :: rest' =>
      (if PyStr.nonempty r && negb (bool_decide (r ∈ take i raw)) then [r] else [])
      ++ first_pieces_from raw (S i) rest'
  end.

(** The first occurrence of every distinct non-empty piece, in order. *)
Definition first_pieces (raw : list string) : list string :=
  first_pieces_from raw 0 raw.

Lemma unique_loop_first_pieces rest : ∀ pre seen result,
  (∀ x, x ∈ seen ↔ x ∈ pre ∧ x ≠ "") →
  unique_loop rest seen result
  = result ++ first_pieces_from (pre ++ rest) (length pre) rest.
Proof.
  induction rest as [|r rest IH]; intros pre seen result Hseen.
  - simpl. now rewrite app_nil_r.
  - cbn [unique_loop first_pieces_from]. rewrite take_app_length.
    assert (Hnext : pre ++ r :: rest = (pre ++ [r]) ++ rest) by now rewrite <- app_assoc.
    assert (Hlen : S (length pre) = length (pre ++ [r]))
      by (rewrite length_app; simpl; lia).
    rewrite Hnext, Hlen.
    destruct (PyStr.nonempty r) eqn:Hne; cbn [andb].
    + apply nonempty_true in Hne.
      destruct (decide (r ∈ seen)) as [Hin|Hnin].
      * rewrite bool_decide_eq_true_2 by assumption.
        rewrite bool_decide_eq_true_2 by (now apply Hseen). cbn [negb app].
        apply IH. intros x. rewrite elem_of_app, list_elem_of_singleton, Hseen.
        split; [tauto|]. intros [[Hx| ->] Hxne]; [tauto|]. now apply Hseen.
      * rewrite bool_decide_eq_false_2 by assumption.
        rewrite bool_decide_eq_false_2 by (rewrite Hseen in Hnin; tauto).
        cbn [negb app].
        rewrite (IH (pre ++ [r]) ({[r]} ∪ seen) (result ++ [r])).
        { now rewrite <- app_assoc. }
        intros x. rewrite elem_of_union, elem_of_singleton, elem_of_app,
          list_elem_of_singleton, Hseen.
        split; [intros [->|?]; tauto|tauto].
    + cbn [app]. apply IH. intros x.
      rewrite elem_of_app, list_elem_of_singleton, Hseen.
      split; [tauto|]. intros [[Hx| ->] Hxne]; [tauto|].
      exfalso. apply Hxne. destruct r; [reflexivity|discriminate].
Qed.

(** A piece that is kept stands behind everything that precedes it; of two
    pieces that are kept, the earlier one occurs at a position before which
    the later one does not occur. *)
Lemma first_pieces_from_order rest : ∀ pre,
  let raw := pre ++ rest in
  let kept := first_pieces_from raw (length pre) rest in
  (∀ y, y ∈ kept → y ∉ pre) ∧
  (∀ i j x y, i < j → kept !! i = Some x → kept !! j = Some y →
     ∃ p, raw !! p = Some x ∧ y ∉ take p raw).
Proof.
  induction rest as [|r rest IH]; intros pre; cbn zeta.
  - simpl. split; [intros y Hy; inversion Hy|]. intros i j x y _ Hx. discriminate.
  - cbn [first_pieces_from]. rewrite take_app_length.
    assert (Hnext : pre ++ r :: rest = (pre ++ [r]) ++ rest) by now rewrite <- app_assoc.
    assert (Hlen : S (length pre) = length (pre ++ [r]))
      by (rewrite length_app; simpl; lia).
    rewrite Hnext, Hlen.
    destruct (IH (pre ++ [r])) as [Hbehind Horder]. cbn zeta in *.
    set (kept := first_pieces_from ((pre ++ [r]) ++ rest) (length (pre ++ [r])) rest) in *.
    assert (Hbehind' : ∀ y, y ∈ kept → (y ∉ pre) ∧ y ≠ r).
    { intros y Hy. specialize (Hbehind y Hy).
      rewrite elem_of_app, list_elem_of_singleton in Hbehind. tauto. }
    destruct (PyStr.nonempty r && negb (bool_decide (r ∈ pre))) eqn:Hkeep; cbn [app].
    + apply andb_true_iff in Hkeep as [_ Hfresh].
      apply negb_true_iff, bool_decide_eq_false in Hfresh. split.
      * intros y Hy. apply elem_of_cons in Hy as [->|Hy]; [exact Hfresh|].
        now apply Hbehind'.
      * intros i j x y Hij Hx Hy. destruct j as [|j]; [lia|]. cbn in Hy.
        destruct i as [|i].
        -- cbn in Hx. injection Hx as <-. exists (length pre). split.
           ++ rewrite <- app_assoc. now apply list_lookup_middle.
           ++ rewrite <- app_assoc, take_app_length.
              apply list_elem_of_lookup_2 in Hy. now apply Hbehind'.
        -- cbn in Hx. apply (Horder i j x y); [lia|assumption|assumption].
    + split; [intros y Hy; now apply Hbehind'|exact Horder].
Qed.

(** X6: for sources that are step objects (or absent),
    [_normalise_requirements] returns the non-empty pieces of all the
    requirements entries, each once, in the order of their first
    occurrence: the result holds exactly the pieces that are not empty and
    do not occur at an earlier position, and of two pieces of the result
    the earlier one occurs among the entries before the later one does. *)
Theorem normalise_requirements_unique (sources : list (option json)) :
  Forall source_ok sources →
  ∃ reqs,
    _normalise_requirements sources = Ok reqs ∧
    reqs = first_pieces (raw_parts sources) ∧
    NoDup reqs ∧
    reqs `sublist_of` raw_parts sources ∧
    (∀ r, r ∈ reqs ↔ r ∈ raw_parts sources ∧ r ≠ "") ∧
    (∀ i j x y, i < j → reqs !! i = Some x → reqs !! j = Some y →
       ∃ p, raw_parts sources !! p = Some x ∧ y ∉ take p (raw_parts sources)).
Proof.
  intros Hs. unfold _normalise_requirements.
  rewrite (collect_raw_spec sources [] Hs). cbn [bind app].
  destruct (unique_loop_spec (raw_parts sources) ∅ []) as (added & Heq & Hsub & Hnd & Hin).
  cbn [app] in Heq.
  assert (Hfirst : unique_loop (raw_parts sources) ∅ [] = first_pieces (raw_parts sources)).
  { rewrite (unique_loop_first_pieces (raw_parts sources) [] ∅ []); [reflexivity|].
    intros x. split; [intros Hx; now apply elem_of_empty in Hx|].
    intros [Hx _]. inversion Hx. }
  exists (unique_loop (raw_parts sources) ∅ []).
  split; [reflexivity|]. split; [exact Hfirst|]. rewrite Heq.
  split; [exact Hnd|]. split; [exact Hsub|]. split.
  - intros r. rewrite Hin. split; [tauto|]. intros [Hr Hne].
    split; [exact Hr|]. split; [exact Hne|]. apply not_elem_of_empty.
  - rewrite <- Heq, Hfirst.
    exact (proj2 (first_pieces_from_order (raw_parts sources) [])).
Qed.

Definition normalise_example : list (option json) :=
  [ Some (JObj [("name", JStr "e_go");
                ("requirements", JList [JStr "R-1, R-2"; JNull; JStr " R-1 ,"; JInt 7])]);
    None;
    Some (JObj [("name", JStr "v_There"); ("requirements", JStr "R-3,R-2")]) ].

Lemma normalise_requirements_unique_witness :
  Forall source_ok normalise_example ∧
  ∃ reqs,
    _normalise_requirements normalise_example = Ok reqs ∧
    reqs = first_pieces (raw_parts normalise_example) ∧
    NoDup reqs ∧
    reqs `sublist_of` raw_parts normalise_example ∧
    (∀ r, r ∈ reqs ↔ r ∈ raw_parts normalise_example ∧ r ≠ "") ∧
    (∀ i j x y, i < j → reqs !! i = Some x → reqs !! j = Some y →
       ∃ p, raw_parts normalise_example !! p = Some x ∧
            y ∉ take p (raw_parts normalise_example)).
Proof.
  assert (H : Forall source_ok normalise_example) by (repeat constructor).
  split; [exact H|]. exact (normalise_requirements_unique normalise_example H).
Defined.

Example first_pieces_example :
  raw_parts normalise_example = ["R-1"; "R-2"; "R-1"; "7"; "R-3"; "R-2"] ∧
  first_pieces ["b"; ""; "a"; "b"; "a"] = ["b"; "a"].
Proof. vm_compute. repeat split. Qed.

Example normalise_example_result :
  _normalise_requirements normalise_example = Ok ["R-1"; "R-2"; "7"; "R-3"].
Proof. vm_compute. reflexivity. Qed.

(** ** Action summarisation *)

Lemma summarise_actions_cases (d : pydict) :
  match _summarise_actions (JObj d) with
  | Ok changed =>
      changed ≠ "" ∧
      match dict_get d "actions" with
      | Some v => truthy v = false ∨ iterable v = true
      | None => True
      end
  | Raise e =>
      e = TypeError ∧
      ∃ v, dict_get d "actions" = Some v ∧ truthy v = true ∧ iterable v = false
  end.
Proof.
  assert (Hclause : ∀ actions,
            match actions_loop actions [] with
            | [] => "None"
            | _ :: _ => PyStr.join ", " (actions_loop actions [])
            end ≠ "").
  { intros actions. pose proof (actions_loop_spec actions []) as Hspec.
    cbn [app] in Hspec.
    pose proof (List.filter_In survives) as Hin.
    destruct (actions_loop actions []) as [|x l]; [discriminate|].
    apply join_nonempty.
    assert (Hx : In x (x :: l)) by now left.
    rewrite Hspec in Hx. apply Hin in Hx as [_ Hx].
    unfold survives in Hx. apply andb_true_iff in Hx as [Hx _].
    now apply nonempty_true. }
  unfold _summarise_actions. cbn [get_method bind].
  destruct (dict_get d "actions") as [v|]; [|cbn; split; [discriminate|exact I]].
  destruct (truthy v) eqn:Hv.
  - destruct v; cbn [py_iter bind];
      try (split; [reflexivity|]; eexists; repeat split; eassumption);
      (split; [apply Hclause|now right]).
  - cbn [py_iter bind]. split; [discriminate|now left].
Qed.

(** X7: for a step object, [_summarise_actions] raises exactly when the
    [actions] field is truthy and cannot be iterated ([True] or a non-zero
    number), and then [TypeError]; otherwise it returns a clause that is
    never the empty string. *)
Theorem summarise_actions_outcome (d : pydict) :
  match _summarise_actions (JObj d) with
  | Ok changed =>
      changed ≠ "" ∧
      match dict_get d "actions" with
      | Some v => truthy v = false ∨ iterable v = true
      | None => True
      end
  | Raise e =>
      e = TypeError ∧
      ∃ v, dict_get d "actions" = Some v ∧ truthy v = true ∧ iterable v = false
  end.
Proof. exact (summarise_actions_cases d). Qed.

(** ** The renderer *)

Lemma prefix_append s t : String.prefix s (s +:+ t) = true.
Proof.
  induction s as [|c s IH]; [destruct t; reflexivity|].
  change (String c s +:+ t) with (String c (s +:+ t)). simpl.
  destruct (ascii_dec c c); [exact IH|contradiction].
Qed.

Ltac peel_bind :=
  match goal with
  | |- bind ?r _ = Ok _ → _ =>
      let E := fresh "Hstep" in
      destruct r eqn:E; cbn [bind]; [|discriminate]
  end.

(** What a successful [edge_line] tells: the line carries its number, and
    the actions of the edge could be summarised. *)
Lemma edge_line_inv path idx step step_num line :
  edge_line path idx step step_num = Ok line →
  String.prefix (step_label step_num) line = true ∧
  ∃ changed, _summarise_actions step = Ok changed.
Proof.
  unfold edge_line. do 2 peel_bind. cbn zeta. do 5 peel_bind.
  intros [= <-]. split; [apply prefix_append|eauto].
Qed.

Definition numbered (lines : list string) : Prop :=
  ∀ i line, lines !! i = Some line → String.prefix (step_label (S i)) line = true.

Lemma numbered_snoc lines line :
  numbered lines → String.prefix (step_label (S (length lines))) line = true →
  numbered (lines ++ [line]).
Proof.
  intros Hn Hl i x Hx. apply lookup_app_Some in Hx as [Hx|[Hge Hx]]; [now apply Hn|].
  destruct (i - length lines) as [|k] eqn:Hk; [|destruct k; discriminate].
  injection Hx as <-. replace i with (length lines) by lia. exact Hl.
Qed.

Lemma edge_loop_numbered path todo : ∀ idx step_num lines walked,
  edge_loop path idx todo step_num lines = Ok walked →
  step_num = length lines → numbered lines →
  fst walked = length (snd walked) ∧ numbered (snd walked) ∧
  lines `prefix_of` snd walked.
Proof.
  induction todo as [|step rest IH]; intros idx step_num lines walked.
  - simpl. intros [= <-] Hnum Hlines. simpl. auto.
  - cbn [edge_loop]. peel_bind. destruct a; cbn [negb].
    + peel_bind. intros Hloop Hnum Hlines.
      apply edge_line_inv in Hstep0 as [Hlabel _].
      destruct (IH _ _ _ _ Hloop) as (H1 & H2 & H3).
      * rewrite length_app. simpl. lia.
      * apply numbered_snoc; [exact Hlines|]. now rewrite <- Hnum.
      * split; [exact H1|]. split; [exact H2|].
        etrans; [|exact H3]. now apply prefix_app_r.
    + intros Hloop Hnum Hlines. exact (IH _ _ _ _ Hloop Hnum Hlines).
Qed.

(** X8: the lines of a rendered path are numbered consecutively from 1:
    line [i] (counted from 0) starts with [Step [i+1] ]; the last line is
    the [END TEST] line, numbered with the number of lines; and when the
    path has a vertex the first line is [Step [1] START TEST]. *)
Theorem render_numbering (path : list json) (lines : list string) :
  build_step_strings_for_path path = Ok lines →
  (∀ i line, lines !! i = Some line →
             String.prefix (step_label (S i)) line = true) ∧
  last lines = Some (step_label (length lines) +:+ "END TEST") ∧
  (has_vertex path = true → lines !! 0 = Some "Step [1] START TEST").
Proof.
  change (build_step_strings_for_path path = Ok lines →
          numbered lines ∧
          last lines = Some (step_label (length lines) +:+ "END TEST") ∧
          (has_vertex path = true → lines !! 0 = Some "Step [1] START TEST")).
  unfold build_step_strings_for_path.
  pose proof (scan_vertex_spec path) as Hscan.
  destruct (scan_vertex path) as [first_vertex|] eqn:Hfirst; cbn [bind]; [|discriminate].
  peel_bind. intros [= <-].
  assert (Hstart : numbered (match first_vertex with
                             | Some _ => ["Step [1] START TEST"]
                             | None => []
                             end)).
  { destruct first_vertex; intros [|i] line; try discriminate.
    intros [= <-]. reflexivity. }
  destruct (edge_loop_numbered _ _ _ _ _ _ Hstep) as (Hnum & Hlines & Hpre);
    [destruct first_vertex; reflexivity|exact Hstart|].
  split; [|split].
  - apply numbered_snoc; [exact Hlines|]. rewrite <- Hnum. apply prefix_append.
  - rewrite last_snoc, length_app, <- Hnum. simpl.
    now replace (a.1 + 1) with (S a.1) by lia.
  - intros Hv. destruct first_vertex as [v|].
    + destruct Hpre as [k ->]. reflexivity.
    + exfalso. unfold has_vertex in Hv. apply existsb_exists in Hv as (s & Hs & Hcv).
      rewrite Forall_forall in Hscan. apply list_elem_of_In in Hs.
      specialize (Hscan s Hs). unfold classified_vertex in Hcv.
      rewrite Hscan in Hcv. discriminate.
Qed.

Lemma render_numbering_witness :
  build_step_strings_for_path spec_example_path
  = Ok [ "Step [1] START TEST";
         "Step [2] Load default data -> results in Loaded with data -> changed: x=1";
         "Step [3] END TEST" ] ∧
  (∀ i line,
     [ "Step [1] START TEST";
       "Step [2] Load default data -> results in Loaded with data -> changed: x=1";
       "Step [3] END TEST" ] !! i = Some line →
     String.prefix (step_label (S i)) line = true) ∧
  last [ "Step [1] START TEST";
         "Step [2] Load default data -> results in Loaded with data -> changed: x=1";
         "Step [3] END TEST" ]
  = Some (step_label 3 +:+ "END TEST") ∧
  (has_vertex spec_example_path = true →
   [ "Step [1] START TEST";
     "Step [2] Load default data -> results in Loaded with data -> changed: x=1";
     "Step [3] END TEST" ] !! 0 = Some "Step [1] START TEST").
Proof.
  assert (H : build_step_strings_for_path spec_example_path
              = Ok [ "Step [1] START TEST";
                     "Step [2] Load default data -> results in Loaded with data -> changed: x=1";
                     "Step [3] END TEST" ]) by (vm_compute; reflexivity).
  split; [exact H|]. exact (render_numbering spec_example_path _ H).
Defined.

Lemma is_edge_ok_inv step b :
  _is_edge step = Ok b →
  ∃ d, step = JObj d ∧ name_is_str_or_missing d ∧ classified_edge step = b.
Proof.
  intros He. unfold classified_edge. rewrite He.
  destruct step; try discriminate. exists d. split; [reflexivity|]. split; [|reflexivity].
  rewrite _is_edge_obj in He. unfold name_or_default, name_is_str_or_missing in *.
  destruct (dict_get d "name") as [v|]; [|exact I].
  destruct v; try discriminate. exact I.
Qed.

Lemma edge_loop_renderable path todo : ∀ idx step_num lines walked,
  edge_loop path idx todo step_num lines = Ok walked → Forall renderable todo.
Proof.
  induction todo as [|step rest IH]; intros idx step_num lines walked; [constructor|].
  cbn [edge_loop]. peel_bind.
  destruct (is_edge_ok_inv _ _ Hstep) as (d & -> & Hname & Hclass).
  destruct a; cbn [negb].
  - peel_bind. intros Hloop. constructor; [|exact (IH _ _ _ _ Hloop)].
    split; [exact Hname|]. intros _.
    apply edge_line_inv in Hstep0 as [_ [changed Hchanged]].
    pose proof (summarise_actions_cases d) as Hcases. rewrite Hchanged in Hcases.
    exact (proj2 Hcases).
  - intros Hloop. constructor; [|exact (IH _ _ _ _ Hloop)].
    split; [exact Hname|]. rewrite Hclass. discriminate.
Qed.

(** X9: the renderer returns exactly on the paths all of whose steps are
    renderable: objects whose [name] is missing or a string and, for an
    edge, whose [actions] is missing, falsy or iterable; on every other
    path it raises. *)
Theorem render_returns_iff_renderable (path : list json) :
  (∃ lines, build_step_strings_for_path path = Ok lines) ↔ Forall renderable path.
Proof.
  split.
  - intros [lines Hlines]. revert Hlines. unfold build_step_strings_for_path.
    destruct (scan_vertex path); cbn [bind]; [|discriminate].
    peel_bind. intros _. exact (edge_loop_renderable _ _ _ _ _ _ Hstep).
  - intros Hpath. unfold build_step_strings_for_path.
    destruct (scan_vertex_ok path Hpath) as (first_vertex & -> & _). cbn [bind].
    destruct (edge_loop_count path path 0
                (match first_vertex with Some _ => 1 | None => 0 end)
                (match first_vertex with
                 | Some _ => ["Step [1] START TEST"]
                 | None => []
                 end) eq_refl Hpath Hpath) as (w & -> & _).
    cbn [bind]. eauto.
Qed.

(** ** The splitter *)

Section SplitShape.
Variable start_name : string.
Variable start_id : option string.

Let not_start (s : json) : Prop := is_start start_name start_id s = Ok false.
Let head_start (p : list json) : Prop :=
  ∃ s t, p = s :: t ∧ is_start start_name start_id s = Ok true.
Let closed_path (p : list json) : Prop :=
  ∃ s t, p = s :: t ∧ (∃ b, is_start start_name start_id s = Ok b) ∧
         Forall not_start t.

Lemma tail_snoc {A} (l : list A) x :
  tail (l ++ [x]) = match l with [] => [] | _ => tail l ++ [x] end.
Proof. destruct l; reflexivity. Qed.

Lemma closed_paths_snoc paths current :
  Forall closed_path paths → closed_path current →
  Forall head_start (tail paths) → (paths ≠ [] → head_start current) →
  Forall closed_path (paths ++ [current]) ∧
  Forall head_start (tail (paths ++ [current])).
Proof.
  intros H1 H2 H3 H4. split.
  - apply Forall_app. split; [exact H1|]. constructor; [exact H2|constructor].
  - rewrite tail_snoc. destruct paths as [|p ps]; [constructor|].
    apply Forall_app. split; [exact H3|]. constructor; [|constructor].
    apply H4. discriminate.
Qed.

Lemma split_loop_shape steps : ∀ paths current res,
  split_loop start_name start_id steps paths current = Ok res →
  Forall closed_path paths → (current = [] ∨ closed_path current) →
  Forall head_start (tail paths) → (paths ≠ [] → head_start current) →
  Forall closed_path res ∧ Forall head_start (tail res).
Proof.
  induction steps as [|step rest IH]; intros paths current res.
  - simpl. intros [= <-] H1 H2 H3 H4. destruct current as [|c cs]; [auto|].
    destruct H2 as [H2|H2]; [discriminate|]. now apply closed_paths_snoc.
  - cbn [split_loop]. peel_bind. intros Hloop H1 H2 H3 H4.
    assert (Hsingle : closed_path [step]).
    { exists step, []. split; [reflexivity|]. split; [eauto|constructor]. }
    destruct a.
    + assert (Hhead : head_start [step]) by (exists step, []; auto).
      destruct current as [|c cs].
      * apply (IH _ _ _ Hloop); auto.
      * destruct H2 as [H2|H2]; [discriminate|].
        destruct (closed_paths_snoc paths (c :: cs) H1 H2 H3 H4) as [H1' H3'].
        apply (IH _ _ _ Hloop); auto.
    + apply (IH _ _ _ Hloop); auto.
      * right. destruct H2 as [->|(s & t & -> & Hb & Ht)]; [exact Hsingle|].
        exists s, (t ++ [step]). split; [reflexivity|]. split; [exact Hb|].
        apply Forall_app. split; [exact Ht|]. constructor; [exact Hstep|constructor].
      * intros Hne. destruct (H4 Hne) as (s & t & -> & Hs).
        exists s, (t ++ [step]). auto.
Qed.

Lemma split_path_shape_aux steps res :
  split_path steps start_name start_id = Ok res →
  Forall closed_path res ∧ Forall head_start (tail res).
Proof.
  unfold split_path. destruct steps as [|step rest].
  - intros [= <-]. split; constructor.
  - intros Hloop.
    apply (split_loop_shape _ _ _ _ Hloop);
      [constructor|now left|constructor|intros Hne; now destruct Hne].
Qed.

Lemma is_start_not_obj step :
  ¬ is_obj step → is_start start_name start_id step = Raise AttributeError.
Proof.
  intros Hno. unfold is_start.
  destruct step; try (now destruct start_id as [sid|]; [destruct (PyStr.nonempty sid)|]).
  destruct Hno. exact I.
Qed.

Lemma split_loop_outcome steps : ∀ paths current,
  match split_loop start_name start_id steps paths current with
  | Ok _ => Forall is_obj steps
  | Raise e => e = AttributeError ∧ Exists (λ s, ¬ is_obj s) steps
  end.
Proof.
  induction steps as [|step rest IH]; intros paths current; [constructor|].
  cbn [split_loop]. destruct (decide (is_obj step)) as [Hobj|Hno].
  - destruct (is_start_obj start_name start_id step Hobj) as [b ->]. cbn [bind].
    assert (Hnext : ∀ ps cur,
              match split_loop start_name start_id rest ps cur with
              | Ok _ => Forall is_obj (step :: rest)
              | Raise e => e = AttributeError ∧ Exists (λ s, ¬ is_obj s) (step :: rest)
              end).
    { intros ps cur. specialize (IH ps cur).
      destruct (split_loop start_name start_id rest ps cur).
      - now constructor.
      - destruct IH as [-> Hex]. split; [reflexivity|]. now apply Exists_cons_tl. }
    destruct b; [destruct current|]; apply Hnext.
  - rewrite (is_start_not_obj step Hno). cbn [bind].
    split; [reflexivity|]. now apply Exists_cons_hd.
Qed.

End SplitShape.

(** X10: in the result of [split_path] every sub-path is non-empty and has
    no matching step after its first step, and every sub-path after the
    first begins with a matching step. *)
Theorem split_path_shape (steps : list json) (start_name : string)
    (start_id : option string) (paths : list (list json)) :
  split_path steps start_name start_id = Ok paths →
  Forall (λ p, ∃ s t, p = s :: t ∧
                      Forall (λ x, is_start start_name start_id x = Ok false) t) paths ∧
  Forall (λ p, ∃ s t, p = s :: t ∧ is_start start_name start_id s = Ok true)
    (tail paths).
Proof.
  intros Hsplit.
  destruct (split_path_shape_aux start_name start_id steps paths Hsplit) as [H1 H2].
  split; [|exact H2].
  eapply Forall_impl; [exact H1|]. intros p (s & t & -> & _ & Ht). eauto.
Qed.

Lemma split_path_example_ok :
  split_path split_example "v_Start" None
  = Ok [ [ JObj [("name", JStr "v_Start"); ("id", JStr "n0")];
           JObj [("name", JStr "e_go"); ("id", JStr "e1")] ];
         [ JObj [("name", JStr "v_Start"); ("id", JStr "n0")];
           JObj [("name", JStr "e_back"); ("id", JStr "e2")] ] ].
Proof. reflexivity. Qed.

Lemma split_path_shape_witness :
  split_path split_example "v_Start" None
  = Ok [ [ JObj [("name", JStr "v_Start"); ("id", JStr "n0")];
           JObj [("name", JStr "e_go"); ("id", JStr "e1")] ];
         [ JObj [("name", JStr "v_Start"); ("id", JStr "n0")];
           JObj [("name", JStr "e_back"); ("id", JStr "e2")] ] ] ∧
  Forall (λ p, ∃ s t, p = s :: t ∧
                      Forall (λ x, is_start "v_Start" None x = Ok false) t)
    [ [ JObj [("name", JStr "v_Start"); ("id", JStr "n0")];
        JObj [("name", JStr "e_go"); ("id", JStr "e1")] ];
      [ JObj [("name", JStr "v_Start"); ("id", JStr "n0")];
        JObj [("name", JStr "e_back"); ("id", JStr "e2")] ] ] ∧
  Forall (λ p, ∃ s t, p = s :: t ∧ is_start "v_Start" None s = Ok true)
    (tail [ [ JObj [("name", JStr "v_Start"); ("id", JStr "n0")];
              JObj [("name", JStr "e_go"); ("id", JStr "e1")] ];
            [ JObj [("name", JStr "v_Start"); ("id", JStr "n0")];
              JObj [("name", JStr "e_back"); ("id", JStr "e2")] ] ]).
Proof.
  split; [exact split_path_example_ok|].
  exact (split_path_shape split_example "v_Start" None _ split_path_example_ok).
Defined.

(** X11: splitting is stable: every sub-path that [split_path] returns is
    split, with the same matcher, into itself alone. *)
Theorem split_path_resplit (steps : list json) (start_name : string)
    (start_id : option string) (paths : list (list json)) :
  split_path steps start_name start_id = Ok paths →
  Forall (λ p, split_path p start_name start_id = Ok [p]) paths.
Proof.
  intros Hsplit.
  destruct (split_path_shape_aux start_name start_id steps paths Hsplit) as [H1 _].
  eapply Forall_impl; [exact H1|]. intros p (s & t & -> & [b Hb] & Ht).
  unfold split_path. cbn [split_loop]. rewrite Hb. cbn [bind].
  assert (Hrest : split_loop start_name start_id t [] [s] = Ok [s :: t]).
  { now rewrite (split_loop_no_match start_name start_id t [] [s] Ht). }
  destruct b; exact Hrest.
Qed.

Lemma split_path_resplit_witness :
  split_path split_example "v_Start" None
  = Ok [ [ JObj [("name", JStr "v_Start"); ("id", JStr "n0")];
           JObj [("name", JStr "e_go"); ("id", JStr "e1")] ];
         [ JObj [("name", JStr "v_Start"); ("id", JStr "n0")];
           JObj [("name", JStr "e_back"); ("id", JStr "e2")] ] ] ∧
  Forall (λ p, split_path p "v_Start" None = Ok [p])
    [ [ JObj [("name", JStr "v_Start"); ("id", JStr "n0")];
        JObj [("name", JStr "e_go"); ("id", JStr "e1")] ];
      [ JObj [("name", JStr "v_Start"); ("id", JStr "n0")];
        JObj [("name", JStr "e_back"); ("id", JStr "e2")] ] ].
Proof.
  split; [exact split_path_example_ok|].
  exact (split_path_resplit split_example "v_Start" None _ split_path_example_ok).
Defined.

(** X12: [split_path] raises exactly when some step is not an object, and
    then [AttributeError]. *)
Theorem split_path_outcome (steps : list json) (start_name : string)
    (start_id : option string) :
  match split_path steps start_name start_id with
  | Ok _ => Forall is_obj steps
  | Raise e => e = AttributeError ∧ Exists (λ s, ¬ is_obj s) steps
  end.
Proof.
  unfold split_path. destruct steps as [|step rest]; [constructor|].
  apply split_loop_outcome.
Qed.

(** ** Deduplication *)

Lemma key_of_case_not_obj c : ¬ is_obj c → key_of_case c = Raise AttributeError.
Proof. destruct c; try reflexivity. intros Hno. destruct Hno. exact I. Qed.

Lemma dedupe_loop_outcome cases : ∀ seen unique,
  match dedupe_loop cases seen unique with
  | Ok _ => Forall is_obj cases
  | Raise e => e = AttributeError ∧ Exists (λ c, ¬ is_obj c) cases
  end.
Proof.
  induction cases as [|c rest IH]; intros seen unique; [constructor|].
  cbn [dedupe_loop]. destruct (decide (is_obj c)) as [Hobj|Hno].
  - rewrite (key_of_case_obj c Hobj). cbn [bind].
    assert (Hnext : ∀ s u,
              match dedupe_loop rest s u with
              | Ok _ => Forall is_obj (c :: rest)
              | Raise e => e = AttributeError ∧ Exists (λ c, ¬ is_obj c) (c :: rest)
              end).
    { intros s u. specialize (IH s u). destruct (dedupe_loop rest s u).
      - now constructor.
      - destruct IH as [-> Hex]. split; [reflexivity|]. now apply Exists_cons_tl. }
    destruct (bool_decide _); apply Hnext.
  - rewrite (key_of_case_not_obj c Hno). cbn [bind].
    split; [reflexivity|]. now apply Exists_cons_hd.
Qed.

Lemma firsts_from_distinct rest : ∀ pre,
  NoDup (the_key <$> (pre ++ rest)) →
  firsts_from (pre ++ rest) (length pre) rest = rest.
Proof.
  induction rest as [|c r IH]; intros pre Hnd; [reflexivity|].
  cbn [firsts_from]. rewrite take_app_length.
  assert (Hnext : pre ++ c :: r = (pre ++ [c]) ++ r) by now rewrite <- app_assoc.
  assert (Hfresh : the_key c ∉ the_key <$> pre).
  { rewrite fmap_app in Hnd. apply NoDup_app in Hnd as (_ & Hdisj & _).
    intros Hin. apply (Hdisj _ Hin). simpl. apply elem_of_cons. now left. }
  rewrite bool_decide_eq_false_2 by assumption. simpl. f_equal.
  rewrite Hnext in Hnd |- *.
  replace (S (length pre)) with (length (pre ++ [c]))
    by (rewrite length_app; simpl; lia).
  now apply IH.
Qed.

Lemma dedupe_distinct_keys_aux cases :
  Forall is_obj cases → NoDup (the_key <$> cases) →
  dedupe_cases cases = Ok cases.
Proof.
  intros Hobj Hnd. unfold dedupe_cases.
  rewrite (dedupe_loop_spec cases [] ∅ [] Hobj).
  - cbn [app length]. f_equal. exact (firsts_from_distinct cases [] Hnd).
  - intros k. simpl. split; intros Hk; [now apply elem_of_empty in Hk|inversion Hk].
Qed.

(** X13: on case objects whose keys are pairwise distinct [dedupe_cases]
    returns its input unchanged. *)
Theorem dedupe_distinct_keys (cases : list json) :
  Forall is_obj cases → NoDup (the_key <$> cases) →
  dedupe_cases cases = Ok cases.
Proof. exact (dedupe_distinct_keys_aux cases). Qed.

Definition distinct_cases_example : list json :=
  [ JObj [("name", JStr "a"); ("steps", JList [JStr "Step [1] END TEST"])];
    JObj [("name", JStr "b"); ("steps", JList [JStr "Step [1] END TEST"])];
    JObj [("name", JStr "a"); ("steps", JList [])] ].

Lemma dedupe_distinct_keys_witness :
  Forall is_obj distinct_cases_example ∧
  NoDup (the_key <$> distinct_cases_example) ∧
  dedupe_cases distinct_cases_example = Ok distinct_cases_example.
Proof.
  assert (H1 : Forall is_obj distinct_cases_example) by (repeat constructor).
  assert (H2 : NoDup (the_key <$> distinct_cases_example)).
  { apply (bool_decide_unpack _). vm_compute. exact I. }
  split; [exact H1|]. split; [exact H2|].
  exact (dedupe_distinct_keys distinct_cases_example H1 H2).
Defined.

(** X14: [dedupe_cases] is idempotent: applied to its own result it
    returns that result. *)
Theorem dedupe_idempotent (cases unique : list json) :
  dedupe_cases cases = Ok unique → dedupe_cases unique = Ok unique.
Proof.
  intros Hdedupe.
  pose proof (dedupe_loop_outcome cases ∅ []) as Hobj.
  unfold dedupe_cases in Hdedupe. rewrite Hdedupe in Hobj.
  rewrite (dedupe_loop_spec cases [] ∅ [] Hobj) in Hdedupe.
  2:{ intros k. simpl. split; intros Hk; [now apply elem_of_empty in Hk|inversion Hk]. }
  cbn [app length] in Hdedupe. injection Hdedupe as <-.
  destruct (firsts_from_keys cases []) as (Hnd & _ & _). cbn zeta in Hnd.
  apply dedupe_distinct_keys_aux; [|exact Hnd].
  apply Forall_forall. intros c Hc. rewrite Forall_forall in Hobj. apply Hobj.
  exact (elem_of_sublist _ _ _ Hc (firsts_from_sublist cases cases 0)).
Qed.

Lemma dedupe_example_ok :
  dedupe_cases dedupe_example
  = Ok [ JObj [("name", JStr ""); ("steps", JList [JStr "Step [1] END TEST"])];
         JObj [("name", JStr "other"); ("steps", JList [JStr "Step [1] END TEST"])] ].
Proof. vm_compute. reflexivity. Qed.

Lemma dedupe_idempotent_witness :
  dedupe_cases dedupe_example
  = Ok [ JObj [("name", JStr ""); ("steps", JList [JStr "Step [1] END TEST"])];
         JObj [("name", JStr "other"); ("steps", JList [JStr "Step [1] END TEST"])] ] ∧
  dedupe_cases
    [ JObj [("name", JStr ""); ("steps", JList [JStr "Step [1] END TEST"])];
      JObj [("name", JStr "other"); ("steps", JList [JStr "Step [1] END TEST"])] ]
  = Ok [ JObj [("name", JStr ""); ("steps", JList [JStr "Step [1] END TEST"])];
         JObj [("name", JStr "other"); ("steps", JList [JStr "Step [1] END TEST"])] ].
Proof.
  split; [exact dedupe_example_ok|].
  exact (dedupe_idempotent dedupe_example _ dedupe_example_ok).
Defined.

(** X15: [dedupe_cases] raises exactly when some case is not an object,
    and then [AttributeError]. *)
Theorem dedupe_cases_outcome (cases : list json) :
  match dedupe_cases cases with
  | Ok _ => Forall is_obj cases
  | Raise e => e = AttributeError ∧ Exists (λ c, ¬ is_obj c) cases
  end.
Proof. apply dedupe_loop_outcome. Qed.

(** ** Flattening and packaging *)

(** The rendered lines a case holds. *)
Definition case_lines (case : json) : list string :=
  match case with
  | JObj d =>
      match dict_get d "steps" with
      | Some (JList l) => List.map py_str l
      | _ => []
      end
  | _ => []
  end.

Lemma case_lines_case_of steps : case_lines (case_of steps) = steps.
Proof.
  unfold case_of, case_lines. simpl. induction steps as [|s r IH]; [reflexivity|].
  simpl. now rewrite IH.
Qed.


Lemma cases_loop_spec paths : ∀ cases res,
  cases_loop paths cases = Ok res ↔
  ∃ per_path, Forall2 (λ p ls, build_step_strings p = Ok ls) paths per_path ∧
              res = cases ++ (case_of <$> per_path).
Proof.
  induction paths as [|p rest IH]; intros cases res; cbn [cases_loop].
  - split.
    + intros [= <-]. exists []. split; [constructor|]. now rewrite app_nil_r.
    + intros (per_path & HF & ->). inversion HF; subst. simpl. now rewrite app_nil_r.
  - split.
    + peel_bind. intros Hloop. apply IH in Hloop as (per_path & HF & ->).
      exists (a :: per_path). split; [now constructor|].
      simpl. now rewrite <- app_assoc.
    + intros (per_path & HF & ->). inversion HF as [|? ls ? per_path' Hp HF']; subst.
      rewrite Hp. cbn [bind]. apply IH. exists per_path'. split; [exact HF'|].
      simpl. now rewrite <- app_assoc.
Qed.

(** The lines of every path, in order; the exception of the first path
    that cannot be rendered. *)
Fixpoint render_all (paths : list json) : result (list (list string)) :=
  match paths with
  | [] => Ok []
  | p :: rest =>
      let! lines := build_step_strings p in
      let! others := render_all rest in
      Ok (lines :: others)
  end.

Lemma cases_loop_render_all paths : ∀ cases,
  cases_loop paths cases
  = (let! per_path := render_all paths in Ok (cases ++ (case_of <$> per_path))).
Proof.
  induction paths as [|p rest IH]; intros cases; cbn [cases_loop render_all bind].
  - simpl. now rewrite app_nil_r.
  - destruct (build_step_strings p) as [lines|e]; cbn [bind]; [|reflexivity].
    rewrite IH. destruct (render_all rest) as [others|e]; cbn [bind]; [|reflexivity].
    simpl. now rewrite <- app_assoc.
Qed.

Lemma step_strings_loop_render_all paths : ∀ all_lines,
  step_strings_loop paths all_lines
  = (let! per_path := render_all paths in Ok (all_lines ++ List.concat per_path)).
Proof.
  induction paths as [|p rest IH]; intros all_lines;
    cbn [step_strings_loop render_all bind].
  - simpl. now rewrite app_nil_r.
  - destruct (build_step_strings p) as [lines|e]; cbn [bind]; [|reflexivity].
    rewrite IH. destruct (render_all rest) as [others|e]; cbn [bind]; [|reflexivity].
    simpl. now rewrite <- app_assoc.
Qed.

Lemma case_lines_cases per_path :
  List.concat (case_lines <$> (case_of <$> per_path)) = List.concat per_path.
Proof.
  induction per_path as [|ls r IH]; [reflexivity|].
  change (List.concat (case_lines (case_of ls) :: (case_lines <$> (case_of <$> r)))
          = ls ++ List.concat r).
  rewrite case_lines_case_of. cbn [List.concat]. now rewrite IH.
Qed.

(** X16: [paths_to_cases] returns exactly when every path can be rendered,
    and then one case per path, in order, each [{"name": "", "steps":
    lines}] with the lines of its path. *)
Theorem paths_to_cases_spec (paths cases : list json) :
  paths_to_cases paths = Ok cases ↔
  ∃ per_path, Forall2 (λ p ls, build_step_strings p = Ok ls) paths per_path ∧
              cases = case_of <$> per_path.
Proof. unfold paths_to_cases. apply cases_loop_spec. Qed.

(** X17: [paths_to_step_strings] and [paths_to_cases] agree: when the
    cases are built, the flat list is the concatenation, in order, of the
    lines of the cases; when building the cases raises, flattening raises
    the same exception. *)
Theorem paths_to_step_strings_flattens_cases (paths : list json) :
  match paths_to_cases paths with
  | Ok cases =>
      paths_to_step_strings paths = Ok (List.concat (case_lines <$> cases))
  | Raise e => paths_to_step_strings paths = Raise e
  end.
Proof.
  unfold paths_to_cases, paths_to_step_strings.
  rewrite cases_loop_render_all, step_strings_loop_render_all.
  destruct (render_all paths) as [per_path|e]; cbn [bind app]; [|reflexivity].
  now rewrite case_lines_cases.
Qed.

(** ** The describe mode *)


(** X18: a single path given where a list of paths is expected (a list
    whose first element is an object) is described as the one-element list
    holding it: the result is the single case with the lines of the path,
    or the exception its rendering raises. *)
Theorem describe_single_path (d : pydict) (rest : list json) :
  describe (JList (JObj d :: rest)) = describe (JList [JList (JObj d :: rest)]) ∧
  describe (JList (JObj d :: rest))
  = (let! lines := build_step_strings_for_path (JObj d :: rest) in
     Ok [case_of lines]).
Proof.
  split; [reflexivity|].
  unfold describe. cbn [describe_paths truthy negb bind].
  unfold paths_to_cases. cbn [cases_loop build_step_strings py_iter bind].
  destruct (build_step_strings_for_path (JObj d :: rest)) as [lines|e];
    cbn [bind app]; [|reflexivity].
  apply dedupe_distinct_keys_aux.
  - constructor; [exact I|constructor].
  - simpl. constructor; [|constructor]. intros Hin. inversion Hin.
Qed.






End PathCleanupMore.

(** * Further properties of merge_requirements.py *)

Module MergeMore.
Import MergeRequirements MergeProofs.
Local Open Scope nat_scope.

Ltac peel :=
  match goal with
  | |- bind ?r _ = Ok _ → _ =>
      let E := fresh "Hstep" in
      destruct r eqn:E; cbn [bind]; [|discriminate]
  end.

(** ** Normalising the model collection *)

Definition lacks_models (h : heap) (v : val) : Prop :=
  ∀ d, dict_at h v = Some d → d !! "models" = None.

Lemma first_models_skip h pre rest :
  Forall (lacks_models h) pre → first_models h (pre ++ rest) = first_models h rest.
Proof.
  induction 1 as [|x pre Hx _ IH]; [reflexivity|]. simpl.
  destruct (dict_at h x) as [d|] eqn:Hd; [|exact IH].
  now rewrite (Hx d Hd).
Qed.

(** X20: in a list wrapper, the first element that is an object with a
    [models] field supplies the models, whatever comes before or after it;
    the store is left as it is. *)
Theorem extract_models_list_first (h : heap) (models_data : val)
    (pre post : list val) (item : val) (d : gmap string val) (models : val) :
  list_at h models_data = Some (pre ++ item :: post) →
  Forall (lacks_models h) pre →
  dict_at h item = Some d → d !! "models" = Some models →
  _extract_models_list models_data h = (h, models).
Proof.
  intros Hlist Hpre Hitem Hmodels. unfold _extract_models_list.
  assert (Hnodict : dict_at h models_data = None).
  { unfold list_at, dict_at in *. destruct models_data; try reflexivity.
    destruct (h !! l) as [[|]|]; try reflexivity; discriminate. }
  rewrite Hnodict, Hlist, (first_models_skip h pre _ Hpre). simpl.
  now rewrite Hitem, Hmodels.
Qed.

Definition wrapper_store : heap :=
  [ (* 0 *) OList [VInt 3; VRef 1; VRef 2; VRef 3];
    (* 1 *) ODict {[ "version" := VInt 1 ]};
    (* 2 *) ODict {[ "models" := VRef 4 ]};
    (* 3 *) ODict {[ "models" := VRef 5 ]};
    (* 4 *) OList [];
    (* 5 *) OList [] ].

Lemma extract_models_list_first_witness :
  list_at wrapper_store (VRef 0) = Some ([VInt 3; VRef 1] ++ VRef 2 :: [VRef 3]) ∧
  Forall (lacks_models wrapper_store) [VInt 3; VRef 1] ∧
  dict_at wrapper_store (VRef 2) = Some {[ "models" := VRef 4 ]} ∧
  ({[ "models" := VRef 4 ]} : gmap string val) !! "models" = Some (VRef 4) ∧
  _extract_models_list (VRef 0) wrapper_store = (wrapper_store, VRef 4).
Proof.
  assert (H1 : list_at wrapper_store (VRef 0)
               = Some ([VInt 3; VRef 1] ++ VRef 2 :: [VRef 3])) by reflexivity.
  assert (H2 : Forall (lacks_models wrapper_store) [VInt 3; VRef 1]).
  { constructor; [intros d Hd; discriminate|].
    constructor; [|constructor]. intros d [= <-]. reflexivity. }
  assert (H3 : dict_at wrapper_store (VRef 2) = Some {[ "models" := VRef 4 ]})
    by reflexivity.
  assert (H4 : ({[ "models" := VRef 4 ]} : gmap string val) !! "models" = Some (VRef 4))
    by reflexivity.
  split; [exact H1|]. split; [exact H2|]. split; [exact H3|]. split; [exact H4|].
  exact (extract_models_list_first wrapper_store (VRef 0) [VInt 3; VRef 1] [VRef 3]
           (VRef 2) _ (VRef 4) H1 H2 H3 H4).
Defined.

(** A value that holds no models: a scalar, an object without a [models]
    field, or a list none of whose elements is an object with a [models]
    field. *)
Definition no_models (h : heap) (models_data : val) : Prop :=
  lacks_models h models_data ∧
  ∀ items, list_at h models_data = Some items → Forall (lacks_models h) items.

(** X21: a model collection that holds no models is not an error: the
    construction returns the empty index, having only allocated the empty
    list that stands for the models. *)
Theorem build_without_models (h : heap) (models_data : val) :
  no_models h models_data →
  build_requirements_map models_data h = Ok (∅, h ++ [OList []]).
Proof.
  intros [Hdict Hlist].
  assert (Hextract : _extract_models_list models_data h
                     = (h ++ [OList []], VRef (length h))).
  { unfold _extract_models_list.
    destruct (dict_at h models_data) as [d|] eqn:Hd.
    - now rewrite (Hdict d Hd).
    - destruct (list_at h models_data) as [items|]; [|reflexivity].
      specialize (Hlist items eq_refl).
      pose proof (first_models_skip h items [] Hlist) as Hskip.
      rewrite app_nil_r in Hskip. now rewrite Hskip. }
  unfold build_requirements_map. rewrite Hextract. cbn [fst snd py_iter].
  rewrite lookup_app_r by lia. rewrite Nat.sub_diag. reflexivity.
Qed.

Lemma build_without_models_witness :
  no_models [OList [VInt 1; VRef 1]; ODict {[ "name" := VStr "M" ]}] (VRef 0) ∧
  build_requirements_map (VRef 0) [OList [VInt 1; VRef 1]; ODict {[ "name" := VStr "M" ]}]
  = Ok (∅, [OList [VInt 1; VRef 1]; ODict {[ "name" := VStr "M" ]}] ++ [OList []]).
Proof.
  assert (H : no_models [OList [VInt 1; VRef 1]; ODict {[ "name" := VStr "M" ]}] (VRef 0)).
  { split; [intros d Hd; discriminate|].
    intros items [= <-]. constructor; [intros d Hd; discriminate|].
    constructor; [|constructor]. intros d [= <-]. reflexivity. }
  split; [exact H|]. exact (build_without_models _ _ H).
Defined.

(** ** What the construction leaves behind *)

(** A hashed value that is not falsy: neither [None], nor [0] (or
    [False]), nor the empty string. *)
Definition atom_truthy (a : atom) : Prop :=
  match a with
  | ANone => False
  | AInt z => z ≠ 0%Z
  | AStr s => s ≠ ""
  end.

Lemma hash_key_truthy h v a :
  hash_key v = Ok a → truthy h v = true → atom_truthy a.
Proof.
  destruct v; simpl; intros [= <-]; simpl; try discriminate.
  - destruct b; [discriminate 2|discriminate 1].
  - intros Hz. apply negb_true_iff, Z.eqb_neq in Hz. exact Hz.
  - intros Hs. destruct s; [discriminate|discriminate].
Qed.

(** The index [m] binds truthy keys to lists of the store [hc] that lie at
    or above the location [base]. *)
Definition index_fresh (base : nat) (m : index) (hc : heap) : Prop :=
  ∀ ka kb r, m !! (ka, kb) = Some r →
    base ≤ r ∧ (∃ items, hc !! r = Some (OList items)) ∧
    atom_truthy ka ∧ atom_truthy kb.

Lemma index_fresh_extends base m hc hc' :
  index_fresh base m hc → hc `prefix_of` hc' → index_fresh base m hc'.
Proof.
  intros Hm Hext ka kb r Hr. destruct (Hm ka kb r Hr) as (Hb & [items Hi] & Hk).
  split; [exact Hb|]. split; [|exact Hk]. exists items.
  exact (prefix_lookup_Some _ _ _ _ Hi Hext).
Qed.

Lemma index_elements_fresh base name elements : ∀ m hc m' hc',
  index_elements name elements m hc = Ok (m', hc') →
  (∀ a, hash_key name = Ok a → atom_truthy a) →
  base ≤ length hc → index_fresh base m hc →
  hc `prefix_of` hc' ∧ index_fresh base m' hc'.
Proof.
  induction elements as [|element rest IH]; intros m hc m' hc'.
  - simpl. intros [= <- <-] _ _ Hm. split; [reflexivity|exact Hm].
  - cbn [index_elements]. peel.
    destruct (truthy hc a) eqn:Hid; cbn [negb]; [|apply IH].
    peel. destruct (list_at hc a0) as [items|]; [|apply IH].
    cbn [alloc fst snd]. peel. intros Hloop Hname Hbase Hm.
    destruct (IH _ _ _ _ Hloop Hname) as [Hext Hfresh].
    + rewrite length_app. simpl. lia.
    + intros ka kb r Hr. destruct (decide (a1 = (ka, kb))) as [->|Hne].
      * rewrite lookup_insert_eq in Hr. injection Hr as <-.
        split; [exact Hbase|]. split.
        { exists items. rewrite lookup_app_r by lia. now rewrite Nat.sub_diag. }
        unfold make_key in Hstep1.
        destruct (hash_key name) as [kn|] eqn:Hkn; cbn [bind] in Hstep1; [|discriminate].
        destruct (hash_key a) as [ki|] eqn:Hki; cbn [bind] in Hstep1; [|discriminate].
        injection Hstep1 as <- <-.
        split; [now apply Hname|exact (hash_key_truthy _ _ _ Hki Hid)].
      * rewrite lookup_insert_ne in Hr by assumption.
        apply (index_fresh_extends base m hc); [exact Hm| |exact Hr].
        now apply prefix_app_r.
    + split; [|exact Hfresh]. etrans; [|exact Hext]. now apply prefix_app_r.
Qed.

Lemma models_loop_fresh base models : ∀ m hc m' hc',
  models_loop models m hc = Ok (m', hc') →
  base ≤ length hc → index_fresh base m hc →
  hc `prefix_of` hc' ∧ index_fresh base m' hc'.
Proof.
  induction models as [|model rest IH]; intros m hc m' hc'.
  - simpl. intros [= <- <-] _ Hm. split; [reflexivity|exact Hm].
  - cbn [models_loop]. peel.
    destruct (truthy hc a) eqn:Hname; cbn [negb]; [|apply IH].
    peel. peel. peel. peel. intros Hloop Hbase Hm.
    assert (Hkey : ∀ k, hash_key a = Ok k → atom_truthy k)
      by (intros k Hk; exact (hash_key_truthy _ _ _ Hk Hname)).
    destruct a1 as [m1 h1]. destruct a3 as [m2 h2]. cbn [fst snd] in *.
    destruct (index_elements_fresh base _ _ _ _ _ _ Hstep1 Hkey Hbase Hm)
      as [Hext1 Hm1].
    pose proof (prefix_length _ _ Hext1) as Hlen1.
    destruct (index_elements_fresh base _ _ _ _ _ _ Hstep3 Hkey ltac:(lia) Hm1)
      as [Hext2 Hm2].
    pose proof (prefix_length _ _ Hext2) as Hlen2.
    destruct (IH _ _ _ _ Hloop ltac:(lia) Hm2) as [Hext3 Hm3].
    split; [|exact Hm3]. etrans; [exact Hext1|]. etrans; [exact Hext2|exact Hext3].
Qed.

Lemma build_fresh h models_data idx h' :
  build_requirements_map models_data h = Ok (idx, h') →
  h `prefix_of` h' ∧ index_fresh (length h) idx h'.
Proof.
  unfold build_requirements_map. cbn zeta. peel. intros Hloop.
  pose proof (extract_models_list_extends models_data h) as Hext.
  destruct (models_loop_fresh (length h) _ _ _ _ _ Hloop) as [Hext' Hm].
  - now apply prefix_length.
  - intros ka kb r Hr. rewrite lookup_empty in Hr. discriminate.
  - split; [|exact Hm]. etrans; [exact Hext|exact Hext'].
Qed.

(** X22: whenever the construction returns, it has only allocated: every
    object of the initial store is where and as it was, and every list the
    index binds is a new object, at a location that was free. *)
Theorem build_only_allocates (h : heap) (models_data : val) (idx : index) (h' : heap) :
  build_requirements_map models_data h = Ok (idx, h') →
  (∀ l o, h !! l = Some o → h' !! l = Some o) ∧
  ∀ k r, idx !! k = Some r → h !! r = None ∧ ∃ items, h' !! r = Some (OList items).
Proof.
  intros Hbuild. destruct (build_fresh _ _ _ _ Hbuild) as [Hext Hm]. split.
  - intros l o Hl. exact (prefix_lookup_Some _ _ _ _ Hl Hext).
  - intros [ka kb] r Hr. destruct (Hm ka kb r Hr) as (Hb & Hi & _).
    split; [now apply lookup_ge_None|exact Hi].
Qed.

(** X23: the index never holds a key with a falsy model name or element
    id. *)
Theorem build_keys_truthy (h : heap) (models_data : val) (idx : index) (h' : heap) :
  build_requirements_map models_data h = Ok (idx, h') →
  ∀ ka kb, is_Some (idx !! (ka, kb)) → atom_truthy ka ∧ atom_truthy kb.
Proof.
  intros Hbuild ka kb [r Hr]. destruct (build_fresh _ _ _ _ Hbuild) as [_ Hm].
  destruct (Hm ka kb r Hr) as (_ & _ & Hk). exact Hk.
Qed.

Definition built_duplicate : index * heap :=
  match build_requirements_map (VRef 0) duplicate_store with
  | Ok built => built
  | Raise _ => (∅, [])
  end.

Lemma built_duplicate_ok :
  build_requirements_map (VRef 0) duplicate_store
  = Ok (built_duplicate.1, built_duplicate.2).
Proof. vm_compute. reflexivity. Qed.

Lemma build_only_allocates_witness :
  build_requirements_map (VRef 0) duplicate_store
  = Ok (built_duplicate.1, built_duplicate.2) ∧
  (∀ l o, duplicate_store !! l = Some o → built_duplicate.2 !! l = Some o) ∧
  ∀ k r, built_duplicate.1 !! k = Some r →
         duplicate_store !! r = None ∧
         ∃ items, built_duplicate.2 !! r = Some (OList items).
Proof.
  split; [exact built_duplicate_ok|].
  exact (build_only_allocates duplicate_store (VRef 0) _ _ built_duplicate_ok).
Defined.

Lemma build_keys_truthy_witness :
  build_requirements_map (VRef 0) duplicate_store
  = Ok (built_duplicate.1, built_duplicate.2) ∧
  ∀ ka kb, is_Some (built_duplicate.1 !! (ka, kb)) → atom_truthy ka ∧ atom_truthy kb.
Proof.
  split; [exact built_duplicate_ok|].
  exact (build_keys_truthy duplicate_store (VRef 0) _ _ built_duplicate_ok).
Defined.

(** ** What the annotator changes, and what it raises *)

(** From [h] to [h']: lists are kept, dicts are kept except for their
    [requirements] field, and nothing is removed. *)
Definition evolves (h h' : heap) : Prop :=
  (∀ l items, h !! l = Some (OList items) → h' !! l = Some (OList items)) ∧
  (∀ l d, h !! l = Some (ODict d) →
     ∃ d', h' !! l = Some (ODict d') ∧ ∀ k, k ≠ "requirements" → d' !! k = d !! k).

Lemma evolves_refl h : evolves h h.
Proof. split; [auto|]. intros l d Hl. eauto. Qed.

Lemma evolves_trans h1 h2 h3 : evolves h1 h2 → evolves h2 h3 → evolves h1 h3.
Proof.
  intros [L1 D1] [L2 D2]. split; [auto|].
  intros l d Hl. destruct (D1 l d Hl) as (d' & Hd' & Hk').
  destruct (D2 l d' Hd') as (d'' & Hd'' & Hk'').
  exists d''. split; [exact Hd''|]. intros k Hk. now rewrite Hk'', Hk'.
Qed.

Lemma set_requirements_evolves h l d items :
  h !! l = Some (ODict d) → evolves h (set_requirements l d items h).
Proof.
  intros Hl. assert (Hlt : l < length h) by now apply lookup_lt_Some in Hl.
  split.
  - intros l' xs Hl'. rewrite set_requirements_lookup by assumption.
    destruct (decide (l' = l)) as [->|]; [congruence|].
    destruct (decide (l' = length h)) as [->|]; [|exact Hl'].
    apply lookup_lt_Some in Hl'. lia.
  - intros l' d0 Hl'. rewrite set_requirements_lookup by assumption.
    destruct (decide (l' = l)) as [->|].
    + assert (d0 = d) as -> by congruence. eexists. split; [reflexivity|].
      intros k Hk. now rewrite lookup_insert_ne.
    + destruct (decide (l' = length h)) as [->|]; [|eauto].
      apply lookup_lt_Some in Hl'. lia.
Qed.

Lemma annotate_step_outcome step idx h :
  match _annotate_step step idx h with
  | Ok h' => evolves h h'
  | Raise e => is_dict h step = true → e = TypeError
  end.
Proof.
  unfold _annotate_step. destruct step as [| | | |l];
    try (intros Hd; apply is_dict_true in Hd as (? & ? & ? & ?); discriminate).
  destruct (h !! l) as [[items|d]|] eqn:Hl;
    try (intros Hd; apply is_dict_true in Hd as (? & ? & [= <-] & ?); congruence).
  destruct (is_None _ || is_None _); [now apply set_requirements_evolves|].
  destruct (make_key _ _) as [key|e] eqn:Hkey; cbn [bind].
  - destruct (idx !! key) as [r|]; cbn [bind]; [|now apply set_requirements_evolves].
    unfold items_at. destruct (h !! r) as [[xs|]|]; cbn [bind];
      try (intros _; reflexivity). now apply set_requirements_evolves.
  - intros _. unfold make_key in Hkey.
    destruct (hash_key (default VNone (d !! "modelName"))) as [ka|] eqn:Ha;
      cbn [bind] in Hkey.
    + destruct (hash_key (default VNone (d !! "id"))) as [kb|] eqn:Hb;
        cbn [bind] in Hkey; [discriminate|].
      injection Hkey as <-.
      destruct (default VNone (d !! "id")); simpl in Hb; congruence.
    + injection Hkey as <-.
      destruct (default VNone (d !! "modelName")); simpl in Ha; congruence.
Qed.

Lemma annotate_path_outcome steps idx : ∀ h,
  match annotate_path steps idx h with
  | Ok h' => evolves h h'
  | Raise e => e = TypeError
  end.
Proof.
  induction steps as [|step rest IH]; intros h; [apply evolves_refl|].
  cbn [annotate_path]. destruct (is_dict h step) eqn:Hd; [|apply IH].
  pose proof (annotate_step_outcome step idx h) as Hstep.
  destruct (_annotate_step step idx h) as [h1|e]; cbn [bind]; [|now apply Hstep].
  specialize (IH h1). destruct (annotate_path rest idx h1); [|exact IH].
  now apply (evolves_trans h h1).
Qed.

Lemma py_iter_raises h v e : py_iter h v = Raise e → e = TypeError.
Proof.
  destruct v; simpl; try (now intros [= <-]). destruct (h !! l) as [[|]|];
    now intros [= <-].
Qed.

Lemma annotate_paths_outcome paths idx : ∀ h,
  match annotate_paths paths idx h with
  | Ok h' => evolves h h'
  | Raise e => e = TypeError
  end.
Proof.
  induction paths as [|path rest IH]; intros h; [apply evolves_refl|].
  cbn [annotate_paths].
  destruct (py_iter h path) as [steps|e] eqn:Hiter; cbn [bind];
    [|exact (py_iter_raises _ _ _ Hiter)].
  pose proof (annotate_path_outcome steps idx h) as Hpath.
  destruct (annotate_path steps idx h) as [h1|e]; cbn [bind]; [|exact Hpath].
  specialize (IH h1). destruct (annotate_paths rest idx h1); [|exact IH].
  now apply (evolves_trans h h1).
Qed.

(** X24: for an index that binds lists, when [annotate_steps] returns,
    every list of the store is as it was and every dict has kept all its
    fields other than [requirements] (a step keeps its [id], [modelName],
    [name] and [actions]); and when it raises, the exception is
    [TypeError]. *)
Theorem annotate_steps_outcome (steps_data : val) (idx : index) (h : heap) :
  index_wf h idx →
  match annotate_steps steps_data idx h with
  | Ok h' =>
      (∀ l items, h !! l = Some (OList items) → h' !! l = Some (OList items)) ∧
      (∀ l d, h !! l = Some (ODict d) →
         ∃ d', h' !! l = Some (ODict d') ∧
               ∀ k, k ≠ "requirements" → d' !! k = d !! k)
  | Raise e => e = TypeError
  end.
Proof.
  intros _.
  change (match annotate_steps steps_data idx h with
          | Ok h' => evolves h h'
          | Raise e => e = TypeError
          end).
  assert (Hlist : ∀ items,
            match annotate_list items idx h with
            | Ok h' => evolves h h'
            | Raise e => e = TypeError
            end).
  { intros items. unfold annotate_list. destruct items as [|first rest].
    - apply annotate_path_outcome.
    - destruct (is_list h first);
        [apply annotate_paths_outcome|apply annotate_path_outcome]. }
  unfold annotate_steps.
  destruct (dict_at h steps_data) as [d|].
  - destruct (d !! "steps") as [steps_list|]; [|apply evolves_refl].
    destruct (list_at h steps_list); [apply Hlist|apply evolves_refl].
  - destruct (list_at h steps_data); [apply Hlist|apply evolves_refl].
Qed.

Lemma annotate_steps_outcome_witness :
  index_wf mixed_store mixed_index ∧
  match annotate_steps (VRef 0) mixed_index mixed_store with
  | Ok h' =>
      (∀ l items, mixed_store !! l = Some (OList items) → h' !! l = Some (OList items)) ∧
      (∀ l d, mixed_store !! l = Some (ODict d) →
         ∃ d', h' !! l = Some (ODict d') ∧
               ∀ k, k ≠ "requirements" → d' !! k = d !! k)
  | Raise e => e = TypeError
  end.
Proof.
  split; [exact mixed_index_wf|].
  exact (annotate_steps_outcome (VRef 0) mixed_index mixed_store mixed_index_wf).
Defined.

Lemma annotate_path_no_steps steps idx h :
  dict_locs h steps = [] → annotate_path steps idx h = Ok h.
Proof.
  induction steps as [|step rest IH]; [reflexivity|]. cbn [annotate_path].
  destruct (is_dict h step) eqn:Hd.
  - pose proof Hd as Hd'. apply is_dict_true in Hd' as (l & d & -> & _).
    rewrite (dict_locs_cons_dict _ _ _ Hd). discriminate.
  - rewrite (dict_locs_cons_other _ _ _ Hd). exact IH.
Qed.

Lemma annotate_paths_no_steps paths idx h :
  Forall (iterable h) paths → path_steps h paths = [] →
  annotate_paths paths idx h = Ok h.
Proof.
  induction 1 as [|path rest [items Hitems] _ IH]; [reflexivity|].
  unfold path_steps. cbn [fmap list_fmap concat]. unfold seq_of at 1. rewrite Hitems.
  intros Hnil. apply app_eq_nil in Hnil as [Hhere Hrest].
  cbn [annotate_paths]. rewrite Hitems. cbn [bind].
  rewrite (annotate_path_no_steps _ _ _ Hhere). cbn [bind]. now apply IH.
Qed.

(** X25: a container without object-shaped steps (an unrecognized shape,
    an empty list, a list of scalars, a list of empty paths) is returned
    with the store exactly as it was: nothing is changed and nothing is
    allocated. *)
Theorem annotate_without_steps (h : heap) (steps_data : val) (idx : index) :
  paths_iterable h steps_data → step_objects h steps_data = [] →
  annotate_steps steps_data idx h = Ok h.
Proof.
  intros Hit Hnone. unfold paths_iterable, step_objects in *.
  assert (Hlist : ∀ items,
            (multiple_paths h items = true → Forall (iterable h) items) →
            steps_in h items = [] → annotate_list items idx h = Ok h).
  { intros items Hiter. unfold steps_in, annotate_list.
    destruct items as [|first rest]; [reflexivity|]. cbn [multiple_paths] in *.
    destruct (is_list h first).
    - intros Hnil. now apply annotate_paths_no_steps; [apply Hiter|].
    - apply annotate_path_no_steps. }
  unfold annotate_steps. unfold container_items in *.
  destruct (dict_at h steps_data) as [d|].
  - destruct (d !! "steps") as [steps_list|]; [|reflexivity]. simpl in *.
    destruct (list_at h steps_list) as [items|]; [|reflexivity].
    apply Hlist; [now apply Hit|exact Hnone].
  - destruct (list_at h steps_data) as [items|]; [|reflexivity].
    apply Hlist; [now apply Hit|exact Hnone].
Qed.

Definition scalars_store : heap :=
  [ (* 0 *) ODict {[ "steps" := VRef 1; "meta" := VRef 3 ]};
    (* 1 *) OList [VRef 2; VStr "ab"; VRef 3];
    (* 2 *) OList [VInt 1; VNone; VStr "x"];
    (* 3 *) ODict {[ "id" := VStr "e1" ]} ].

Lemma annotate_without_steps_witness :
  paths_iterable scalars_store (VRef 0) ∧
  step_objects scalars_store (VRef 0) = [] ∧
  annotate_steps (VRef 0) mixed_index scalars_store = Ok scalars_store.
Proof.
  assert (H1 : paths_iterable scalars_store (VRef 0)).
  { intros items [= <-] _. repeat constructor; eexists; reflexivity. }
  assert (H2 : step_objects scalars_store (VRef 0) = []) by reflexivity.
  split; [exact H1|]. split; [exact H2|].
  exact (annotate_without_steps scalars_store (VRef 0) mixed_index H1 H2).
Defined.

(** ** The whole merge *)

(** The steps document is read in the store the construction of the index
    has extended; it reads there what the initial store holds. *)
Section ReadingSteps.
Variables h h1 : heap.
Hypothesis Hclosed : closed h.
Hypothesis Hext : h `prefix_of` h1.

Lemma is_dict_read v : in_store h v → is_dict h1 v = is_dict h v.
Proof. intros Hin. unfold is_dict. now rewrite (read_dict_at h h1 Hext v Hin). Qed.

Lemma is_list_read v : in_store h v → is_list h1 v = is_list h v.
Proof. intros Hin. unfold is_list. now rewrite (read_list_at h h1 Hext v Hin). Qed.

Lemma dict_locs_read items :
  Forall (in_store h) items → dict_locs h1 items = dict_locs h items.
Proof.
  induction 1 as [|v rest Hv _ IH]; [reflexivity|].
  destruct (is_dict h v) eqn:Hd.
  - pose proof Hd as Hd'. apply is_dict_true in Hd' as (l & d & -> & _).
    rewrite !dict_locs_cons_dict, IH;
      [reflexivity|assumption|now rewrite is_dict_read].
  - rewrite !dict_locs_cons_other, IH;
      [reflexivity|assumption|now rewrite is_dict_read].
Qed.

Lemma py_iter_in_store v items :
  py_iter h v = Ok items → Forall (in_store h) items.
Proof.
  destruct v; simpl; try discriminate.
  - intros [= <-]. apply Forall_fmap, Forall_forall. intros c _. exact I.
  - destruct (h !! l) as [[xs|d]|] eqn:Hl; try discriminate; intros [= <-].
    + exact (closed_list _ _ _ Hclosed Hl).
    + apply Forall_fmap, Forall_forall. intros k _. exact I.
Qed.

Lemma iterable_in_store v : iterable h v → in_store h v.
Proof.
  intros [items Hitems]. destruct v; simpl in *; try exact I.
  destruct (h !! l) eqn:Hl; [|discriminate]. now apply lookup_lt_Some in Hl.
Qed.

Lemma container_items_read v :
  in_store h v → container_items h1 v = container_items h v.
Proof.
  intros Hin. unfold container_items.
  rewrite (read_dict_at h h1 Hext v Hin).
  destruct (dict_at h v) as [d|] eqn:Hd.
  - destruct (d !! "steps") as [steps_list|] eqn:Hs; [|reflexivity]. simpl.
    apply (read_list_at h h1 Hext).
    unfold dict_at in Hd. destruct v; try discriminate.
    destruct (h !! l) as [[|d0]|] eqn:Hl; try discriminate. injection Hd as ->.
    exact (closed_dict _ _ _ _ _ Hclosed Hl Hs).
  - exact (read_list_at h h1 Hext v Hin).
Qed.

Lemma steps_in_read items :
  Forall (in_store h) items →
  (multiple_paths h items = true → Forall (iterable h) items) →
  steps_in h1 items = steps_in h items ∧
  (multiple_paths h1 items = true → Forall (iterable h1) items).
Proof.
  intros Hin Hit. unfold steps_in.
  assert (Hmulti : multiple_paths h1 items = multiple_paths h items).
  { destruct items as [|first rest]; [reflexivity|]. simpl.
    apply Forall_cons in Hin as [Hfirst _]. now apply is_list_read. }
  rewrite Hmulti. destruct (multiple_paths h items).
  - specialize (Hit eq_refl). split.
    + f_equal. apply Forall_fmap_ext. eapply Forall_impl; [exact Hit|].
      intros path Hpath. simpl. destruct Hpath as [xs Hxs].
      unfold seq_of.
      rewrite (read_py_iter h h1 Hext path (iterable_in_store path (ex_intro _ xs Hxs))).
      rewrite Hxs. apply dict_locs_read. exact (py_iter_in_store _ _ Hxs).
    + intros _. eapply Forall_impl; [exact Hit|]. intros path Hpath.
      destruct Hpath as [xs Hxs]. exists xs.
      now rewrite (read_py_iter h h1 Hext path
                     (iterable_in_store path (ex_intro _ xs Hxs))).
  - split; [now apply dict_locs_read|discriminate].
Qed.

Lemma steps_document_read steps_data :
  in_store h steps_data →
  paths_iterable h steps_data → steps_keyable h steps_data →
  step_objects h1 steps_data = step_objects h steps_data ∧
  paths_iterable h1 steps_data ∧ steps_keyable h1 steps_data.
Proof.
  intros Hin Hit Hkey. unfold step_objects, paths_iterable, steps_keyable in *.
  unfold step_objects in *. rewrite (container_items_read steps_data Hin).
  destruct (container_items h steps_data) as [items|] eqn:Hitems.
  - destruct (steps_in_read items (container_items_closed _ _ _ Hclosed Hitems)
                (Hit items eq_refl)) as [Hsame Hit1].
    rewrite Hsame. split; [reflexivity|]. split.
    + intros items' [= <-]. exact Hit1.
    + intros l d Hl Hd.
      destruct (elem_of_dict_locs_steps_in h items l Hl) as (d0 & Hd0).
      rewrite (prefix_lookup_Some _ _ _ _ Hd0 Hext) in Hd. injection Hd as <-.
      exact (Hkey l d0 Hl Hd0).
  - split; [reflexivity|]. split; [discriminate|]. intros l d Hl. inversion Hl.
Qed.
End ReadingSteps.

(** The requirements the model collection declares for a step with fields
    [d]: those of the last element that carries the key
    [(modelName, id)] of the step, or none. *)
Definition declared_requirements (h : heap) (models_data : val)
    (d : gmap string val) : list val :=
  let step_id := default VNone (d !! "id") in
  let model_name := default VNone (d !! "modelName") in
  if is_None step_id || is_None model_name then []
  else
    match key_of model_name step_id with
    | Some key =>
        match last_declaration h key
                (elements_in_order h (models_of h models_data)) with
        | Some me => array h (field h me.2 "requirements")
        | None => []
        end
    | None => []
    end.

(** X26: the merge as a whole: for a well-formed model collection and a
    steps container in one of the four shapes, both in a closed store, the
    merge returns, and every object-shaped step then holds the
    requirements the collection declares for its [(modelName, id)]: those
    of the last element of the collection that carries the key, or the
    empty list. *)
Theorem merge_resolves_declared (h : heap) (models_data steps_data : val) :
  closed h → collection_ok h models_data →
  in_store h steps_data → recognized h steps_data → steps_keyable h steps_data →
  ∃ h',
    merge_requirements_files models_data steps_data h = Ok h' ∧
    ∀ l, l ∈ step_objects h steps_data →
         ∃ d, h !! l = Some (ODict d) ∧
              requirements_of h' l = Some (declared_requirements h models_data d).
Proof.
  intros Hc Hok Hin Hrec Hkey.
  pose proof (recognized_paths_iterable _ _ Hrec) as Hit.
  destruct (build_indexed h models_data Hc Hok) as (idx & h1 & Hbuild & Hext & Hidx).
  destruct (steps_document_read h h1 Hc Hext steps_data Hin Hit Hkey)
    as (Hsame & Hit1 & Hkey1).
  assert (Hwf : index_wf h1 idx).
  { intros k r Hk. specialize (Hidx k).
    destruct (last_declaration _ _ _); [|congruence].
    destruct Hidx as (r' & items & Hr' & _ & Hitems & _). exists items. congruence. }
  destruct (annotate_steps_run idx h1 steps_data Hwf Hit1 Hkey1) as (h' & Hann & Hrun).
  exists h'. split.
  { unfold merge_requirements_files. rewrite Hbuild. exact Hann. }
  intros l Hl. destruct (step_objects_dict _ _ _ Hl) as (d & Hd).
  exists d. split; [exact Hd|].
  pose proof (prefix_lookup_Some _ _ _ _ Hd Hext) as Hd1.
  rewrite (requirements_of_run idx h1 _ h' l d Hrun Hd1) by (rewrite Hsame; exact Hl).
  f_equal. unfold resolved, declared_requirements, array.
  destruct (is_None _ || is_None _); [reflexivity|].
  rewrite make_key_key_of. destruct (key_of _ _) as [key|]; [|reflexivity].
  specialize (Hidx key).
  destruct (last_declaration h key _) as [me|].
  - destruct Hidx as (r & items & -> & Hitems & Hr & _).
    unfold list_at at 1. now rewrite Hr, Hitems.
  - now rewrite Hidx.
Qed.

Lemma example_collection_ok : collection_ok example_store (VRef 0).
Proof. apply (bool_decide_unpack _). vm_compute. exact I. Qed.

Lemma merge_resolves_declared_witness :
  closed example_store ∧ collection_ok example_store (VRef 0) ∧
  in_store example_store (VRef 6) ∧ recognized example_store (VRef 6) ∧
  steps_keyable example_store (VRef 6) ∧
  ∃ h',
    merge_requirements_files (VRef 0) (VRef 6) example_store = Ok h' ∧
    ∀ l, l ∈ step_objects example_store (VRef 6) →
         ∃ d, example_store !! l = Some (ODict d) ∧
              requirements_of h' l
              = Some (declared_requirements example_store (VRef 0) d).
Proof.
  assert (Hin : in_store example_store (VRef 6)) by (simpl; lia).
  split; [exact example_closed|]. split; [exact example_collection_ok|].
  split; [exact Hin|]. split; [exact example_recognized|].
  split; [exact example_steps_keyable|].
  exact (merge_resolves_declared example_store (VRef 0) (VRef 6)
           example_closed example_collection_ok Hin example_recognized
           example_steps_keyable).
Defined.

Example merge_example_declared :
  (dict_at example_store (VRef 7) ≫= λ d,
     Some (declared_requirements example_store (VRef 0) d))
  = Some [VStr "R-1"; VStr "R-2"].
Proof. vm_compute. reflexivity. Qed.

End MergeMore.
